(** * TN Elections 2021 dashboard: the booth-analysis core of [frontend/app.js]

    A shallow embedding of the categorisation, geohash bucketing, filtering,
    sorting, pagination and constituency-loading code, of the village
    selector and of the handlers of the booth-analysis view, followed by the
    properties established about it.

    JavaScript numbers are IEEE 754 binary64 values and are modelled by Rocq's
    primitive floats, whose operations are the same; array lengths, indices
    and page numbers are integers and are modelled by [nat] and [Z].  A
    string is held as its UTF-8 bytes, so that equality, emptiness and
    containment of well-formed strings are those of the bytes; what depends
    on the Unicode tables or on UTF-16 code units (case mapping, [trim], the
    order [<]) is left to the host, as is the engine's [sort]. *)

From Stdlib Require Import ZArith List Bool String Ascii Lia Permutation.
From Stdlib Require Import Floats Uint63 DecimalString OrderedTypeEx.
From Stdlib Require Import Sorted.
Import ListNotations.

Set Implicit Arguments.

(** ** JavaScript values and operators *)

Module Js.

(** The values a field of a parsed JSON record can hold.  [JObject] stands
    for any nested object: the code only ever stringifies such a value. *)
Inductive jsval :=
| JUndefined
| JNull
| JBool (b : bool)
| JNum (x : float)
| JStr (s : string)
| JObject.

(** [x] is a truthy number: neither [NaN] nor a zero. *)
Definition truthy_num (x : float) : bool :=
  (PrimFloat.eqb x x && negb (PrimFloat.eqb x 0%float))%bool.

Definition truthy_str (s : string) : bool :=
  match s with EmptyString => false | String _ _ => true end.

Definition truthy (v : jsval) : bool :=
  match v with
  | JUndefined | JNull => false
  | JBool b => b
  | JNum x => truthy_num x
  | JStr s => truthy_str s
  | JObject => true
  end.

(** An optional field, absent ([undefined]) or [null] when [None]. *)
Definition truthy_onum (v : option float) : bool :=
  match v with Some x => truthy_num x | None => false end.

Definition truthy_ostr (v : option string) : bool :=
  match v with Some s => truthy_str s | None => false end.

(** [v || d] on an optional number and on an optional string. *)
Definition num_or (v : option float) (d : float) : float :=
  match v with
  | Some x => if truthy_num x then x else d
  | None => d
  end.

Definition str_or (v : option string) (d : string) : string :=
  match v with
  | Some s => if truthy_str s then s else d
  | None => d
  end.

(** [x > y] on numbers. *)
Definition gt (x y : float) : bool := PrimFloat.ltb y x.

(** The number of an array index or length. *)
Definition of_nat (n : nat) : float :=
  PrimFloat.of_uint63 (Uint63.of_Z (Z.of_nat n)).

Definition is_lower (c : ascii) : bool :=
  let n := nat_of_ascii c in ((97 <=? n) && (n <=? 122))%nat%bool.

Definition is_upper (c : ascii) : bool :=
  let n := nat_of_ascii c in ((65 <=? n) && (n <=? 90))%nat%bool.

Definition upper_char (c : ascii) : ascii :=
  if is_lower c then ascii_of_nat (nat_of_ascii c - 32) else c.

Definition lower_char (c : ascii) : ascii :=
  if is_upper c then ascii_of_nat (nat_of_ascii c + 32) else c.

Fixpoint map_string (f : ascii -> ascii) (s : string) : string :=
  match s with
  | EmptyString => EmptyString
  | String c s' => String (f c) (map_string f s')
  end.

(** What [toUpperCase] and [toLowerCase] do to a string of ASCII
    characters: the letters [a] to [z], respectively [A] to [Z], are mapped
    and every other character is kept. *)
Definition ascii_toUpperCase : string -> string := map_string upper_char.
Definition ascii_toLowerCase : string -> string := map_string lower_char.

(** The string holds ASCII characters only. *)
Definition is_ascii (s : string) : bool :=
  forallb (fun c => (nat_of_ascii c <? 128)%nat) (list_ascii_of_string s).

(** The white space [trim] removes, among the ASCII characters: tab, line
    feed, vertical tab, form feed, carriage return and space. *)
Definition is_white_space (c : ascii) : bool :=
  let n := nat_of_ascii c in (((9 <=? n) && (n <=? 13)) || (n =? 32))%nat%bool.

Fixpoint trim_start (s : string) : string :=
  match s with
  | EmptyString => EmptyString
  | String c s' => if is_white_space c then trim_start s' else s
  end.

Fixpoint trim_end (s : string) : string :=
  match s with
  | EmptyString => EmptyString
  | String c s' =>
      match trim_end s' with
      | EmptyString => if is_white_space c then EmptyString else String c EmptyString
      | t => String c t
      end
  end.

(** What [trim] does to a string of ASCII characters. *)
Definition ascii_trim (s : string) : string := trim_end (trim_start s).

(** [s.includes(sub)]. *)
Definition includes (s sub : string) : bool :=
  match String.index 0 sub s with Some _ => true | None => false end.

(** [typeof v === 'number'], with the number. *)
Definition as_number (v : jsval) : option float :=
  match v with JNum x => Some x | _ => None end.

Definition is_number (v : jsval) : bool :=
  match as_number v with Some _ => true | None => false end.

Definition of_onum (v : option float) : jsval :=
  match v with Some x => JNum x | None => JUndefined end.

Definition of_ostr (v : option string) : jsval :=
  match v with Some s => JStr s | None => JUndefined end.

(** The two values are the same value: the same number bit for bit, the
    same string, and so on. *)
Definition same_value (a b : jsval) : bool :=
  match a, b with
  | JUndefined, JUndefined | JNull, JNull | JObject, JObject => true
  | JBool x, JBool y => Bool.eqb x y
  | JNum x, JNum y => PrimFloat.Leibniz.eqb x y
  | JStr x, JStr y => String.eqb x y
  | _, _ => false
  end.

End Js.
Import Js.

(** ** Constants *)

Definition GEOHASH_PRECISION : nat := 6.
Definition ITEMS_PER_PAGE : Z := 50.

(** ** Records of a constituency file *)

Inductive category := strong_dmk | strong_admk | swing.

(** The strings the code uses for the three categories. *)
Definition category_name (c : category) : string :=
  match c with
  | strong_dmk => "strong-dmk"
  | strong_admk => "strong-admk"
  | swing => "swing"
  end.

(** The [comparison] sub-object of a booth: the fields the code reads. *)
Record comparison := {
  dmk_swing : option float;
  aiadmk_swing : option float
}.

(** A booth as it stands in the constituency file: names are strings, and
    coordinates, votes, margin and swings are numbers, each [None] when
    absent or [null]; [raw_booth_no] and [raw_station_no] are whatever the
    file holds, since the code hands them to [parseInt]; [other_fields]
    holds the properties the code never names. *)
Record raw_booth := {
  raw_booth_no : jsval;
  raw_station_no : jsval;
  village : option string;
  building : option string;
  lat : option float;
  lng : option float;
  dmk_votes : option float;
  aiadmk_votes : option float;
  others_votes : option float;
  winner : option string;
  margin_pct : option float;
  comparison_of : option comparison;
  other_fields : list (string * jsval)
}.

(** A booth of [allBooths]: the file's record with the four properties
    [loadConstituency] adds or overrides. *)
Record booth := {
  source : raw_booth;
  id : nat;
  booth_no : float;
  station_no : float;
  category_simple : category
}.

(** A geohash cell of [geohashAreas].  [category] and the averages are
    assigned by the second pass of [computeGeohashAreas]; a property that is
    never assigned reads as [undefined], here [None].  [avg_turnout_change]
    is the property [renderGeohashAreas] reads. *)
Module Area.
Record t := {
  hash : string;
  booths : list booth;
  dmk_votes : float;
  aiadmk_votes : float;
  others_votes : float;
  bounds : float * float * float * float;
  category : option category;
  avg_dmk_swing : option float;
  avg_aiadmk_swing : option float;
  avg_turnout_change : option float
}.
End Area.

(** The [summary] object of a constituency file: the four properties the
    code reads, each whatever the file holds there, [JUndefined] when the
    property is absent and [JNull] when it is [null]. *)
Module Summary.
Record t := {
  avg_dmk_swing : jsval;
  avg_aiadmk_swing : jsval;
  avg_turnout_change : jsval;
  total_booths : jsval
}.
End Summary.

(** A parsed constituency file: an object whose [booths] is an array of
    booths as [raw_booth] describes them, [None] when it is no array or an
    array that holds a [null], on which [loadConstituency] throws before it
    assigns [allBooths]; and whose [summary] is an object, [None] when it is absent or [null]; a
    [summary] that is a number, a string or a boolean has none of the four
    properties, and is the object that holds [JUndefined] in each. *)
Record constituency := {
  constituency_name : jsval;
  booths_of : option (list raw_booth);
  summary : option Summary.t
}.

(** [currentSort]. *)
Record sort_state := {
  column : string;
  ascending : bool
}.

(** The globals of the booth-analysis view.  The map, its layers and the
    document are the rendering side and are left out. *)
Record state := {
  currentConstituency : option constituency;
  allBooths : list booth;
  filteredBooths : list booth;
  geohashAreas : list (string * Area.t);
  currentPage : Z;
  currentSort : sort_state;
  selectedBoothId : option nat;
  activeFilter : option string
}.

Definition initial_state : state :=
  {| currentConstituency := None;
     allBooths := [];
     filteredBooths := [];
     geohashAreas := [];
     currentPage := 1;
     currentSort := {| column := "booth_no"; ascending := true |};
     selectedBoothId := None;
     activeFilter := None |}.

(** *** A [Map] with string keys, in insertion order *)

Module JsMap.
Section Ops.
Variable V : Type.

Fixpoint get (k : string) (m : list (string * V)) : option V :=
  match m with
  | [] => None
  | (k', v) :: m' => if String.eqb k k' then Some v else get k m'
  end.

Definition has (k : string) (m : list (string * V)) : bool :=
  match get k m with Some _ => true | None => false end.

(** [m.set(k, v)]: replaces the value of a present key where it stands,
    appends a new key. *)
Fixpoint set (k : string) (v : V) (m : list (string * V)) : list (string * V) :=
  match m with
  | [] => [(k, v)]
  | (k', v') :: m' =>
      if String.eqb k k' then (k', v) :: m' else (k', v') :: set k v m'
  end.

(** The entry of [k] updated in place, as a mutation through the
    reference [m.get(k)] does. *)
Fixpoint update (k : string) (f : V -> V) (m : list (string * V)) : list (string * V) :=
  match m with
  | [] => []
  | (k', v) :: m' =>
      if String.eqb k k' then (k', f v) :: m' else (k', v) :: update k f m'
  end.

Definition keys (m : list (string * V)) : list string := map fst m.
Definition values (m : list (string * V)) : list V := map snd m.
End Ops.
End JsMap.

(** *** Arrays: [sort] and [slice] *)

Module JsArray.
Section Ops.
Variable A : Type.

(** What [Array.prototype.sort(comparefn)] is held to.  ECMAScript reads
    the result of [comparefn] through [SortCompare], by its sign and a
    [NaN] as [+0]: [x] comes before [y] when it is negative, sorts after
    [y] when it is positive, and ties with [y] otherwise. *)
Variable comparefn : A -> A -> float.

Definition sorts_before (x y : A) : bool := PrimFloat.ltb (comparefn x y) 0.

Definition sorts_after (x y : A) : bool := gt (comparefn x y) 0.

Definition ties (x y : A) : bool :=
  (negb (sorts_before x y) && negb (sorts_after x y))%bool.

(** The comparison is a consistent comparator for the elements of [l],
    in the words of ECMAScript: ties are reflexive, symmetric and
    transitive, and coming before and sorting after are transitive. *)
Definition consistent (l : list A) : Prop :=
  forall a b c, In a l -> In b l -> In c l ->
    ties a a = true /\
    (ties a b = true -> ties b a = true) /\
    (ties a b = true -> ties b c = true -> ties a c = true) /\
    (sorts_before a b = true -> sorts_before b c = true -> sorts_before a c = true) /\
    (sorts_after a b = true -> sorts_after b c = true -> sorts_after a c = true).

(** The order ECMAScript (2019 on) prescribes for a consistent
    [comparefn]: sorted, and stable.  There an element moves behind
    another only when [comparefn] is positive on them, and the stable
    insertion sort below computes the result.  For a [comparefn] that is
    not consistent the order is left to the engine, and this is not it. *)

Fixpoint insert (x : A) (l : list A) : list A :=
  match l with
  | [] => [x]
  | y :: l' => if sorts_after x y then y :: insert x l' else x :: l
  end.

Definition stable_sort (l : list A) : list A := fold_right insert [] l.

(** Each element of [l] sorts after the ones before it. *)
Fixpoint ascending_list (l : list A) : Prop :=
  match l with
  | [] => True
  | x :: l' => Forall (fun y => sorts_after y x = true) l' /\ ascending_list l'
  end.

(** No two elements of [l] tie: of any two, exactly one sorts after the
    other. *)
Fixpoint tie_free (l : list A) : bool :=
  match l with
  | [] => true
  | x :: l' =>
      (forallb (fun y => xorb (sorts_after x y) (sorts_after y x)) l'
       && tie_free l')%bool
  end.

(** [comparefn] is transitive on the elements of [l], as a consistent
    comparison function is. *)
Definition transitive_on (l : list A) : bool :=
  forallb
    (fun x =>
       forallb
         (fun y =>
            forallb
              (fun z => implb (sorts_after x y && sorts_after y z) (sorts_after x z))
              l)
         l)
    l.

(** A relative index of [slice]: counted from the end when negative,
    clamped to the array. *)
Definition relative_index (len k : Z) : Z :=
  if (k <? 0)%Z then Z.max (len + k) 0 else Z.min k len.

(** [l.slice(start, end)]. *)
Definition slice (l : list A) (start end_ : Z) : list A :=
  let len := Z.of_nat (List.length l) in
  let k := relative_index len start in
  let final := relative_index len end_ in
  firstn (Z.to_nat (final - k)) (skipn (Z.to_nat k) l).
End Ops.
End JsArray.

(** ** What the page gets from outside the file

    None of the following is defined in [app.js]; the model is parametric
    in them.  [parseInt], [Number.prototype.toString], the [String] methods
    [toUpperCase], [toLowerCase] and [trim], the order [<] on strings and
    [Array.prototype.sort] are built in; [geohash] is the geohash library
    the page loads ([encode], [decode_bbox]).

    The built-ins are held to what ECMAScript says of them as far as the
    properties below need it: the three [String] methods act on a string of
    ASCII characters as the ASCII functions above do; [<], the order of the
    UTF-16 code units, is a strict total order, and on strings of ASCII
    characters the order of their bytes; [sort] returns a
    permutation, and for a consistent comparison function the stable sorted
    one. *)

Class Host := {
  parseInt : jsval -> float;
  number_toString : float -> string;
  geohash_encode : float -> float -> nat -> string;
  geohash_decode_bbox : string -> float * float * float * float;
  toUpperCase : string -> string;
  toLowerCase : string -> string;
  trim : string -> string;
  string_lt : string -> string -> bool;
  array_sort : forall A : Type, (A -> A -> float) -> list A -> list A;
  toUpperCase_ascii :
    forall s, is_ascii s = true -> toUpperCase s = ascii_toUpperCase s;
  toLowerCase_ascii :
    forall s, is_ascii s = true -> toLowerCase s = ascii_toLowerCase s;
  trim_ascii :
    forall s, is_ascii s = true -> trim s = ascii_trim s;
  string_lt_irreflexive :
    forall s, string_lt s s = false;
  string_lt_transitive :
    forall a b c, string_lt a b = true -> string_lt b c = true ->
                  string_lt a c = true;
  string_lt_total :
    forall a b, a <> b -> (string_lt a b || string_lt b a)%bool = true;
  string_lt_ascii :
    forall a b, is_ascii a = true -> is_ascii b = true ->
                string_lt a b = String.ltb a b;
  array_sort_permutation :
    forall (A : Type) (comparefn : A -> A -> float) (l : list A),
      Permutation (array_sort comparefn l) l;
  array_sort_consistent :
    forall (A : Type) (comparefn : A -> A -> float) (l : list A),
      JsArray.consistent comparefn l ->
      array_sort comparefn l = JsArray.stable_sort comparefn l
}.

(** [Math.ceil(a / b)] on integers [a >= 0] and [b > 0].  The quotient of two
    such integers below [2^53] is correctly rounded, and is an integer only
    when the division is exact, so its ceiling is the integer ceiling. *)
Definition ceil_div (a b : Z) : Z := (- ((- a) / b))%Z.

Section Model.
Context `{Host}.
Local Open Scope float_scope.

(** *** Category simplification *)

(** [simplifyCategory(booth)]. *)
Definition simplifyCategory (b : raw_booth) : category :=
  let winner := str_or (option_map toUpperCase (winner b)) "" in
  let marginPct := num_or (margin_pct b) 0 in
  if gt marginPct 10 then
    if String.eqb winner "DMK" then strong_dmk
    else if (String.eqb winner "AIADMK" || String.eqb winner "ADMK")%bool
         then strong_admk
         else swing
  else swing.

(** The callback of [currentConstituency.booths.map] in [loadConstituency],
    which repeats the categorisation inline. *)
Definition process_booth (index : nat) (b : raw_booth) : booth :=
  let winner := str_or (option_map toUpperCase (winner b)) "" in
  let marginPct := num_or (margin_pct b) 0 in
  let category_simple :=
    if gt marginPct 10 then
      if String.eqb winner "DMK" then strong_dmk
      else if (String.eqb winner "AIADMK" || String.eqb winner "ADMK")%bool
           then strong_admk
           else swing
    else swing in
  {| source := b;
     id := index;
     booth_no := num_or (Some (parseInt (raw_booth_no b))) (of_nat (index + 1)%nat);
     station_no := num_or (Some (parseInt (raw_station_no b))) 0;
     category_simple := category_simple |}.

(** [array.map((booth, index) => ...)]. *)
Fixpoint map_index (from : nat) (l : list raw_booth) : list booth :=
  match l with
  | [] => []
  | b :: l' => process_booth from b :: map_index (S from) l'
  end.

Definition process_booths (l : list raw_booth) : list booth := map_index 0 l.

(** The two quantities the categorisation is specified on: the winning-side
    label in upper case, empty when absent, and the margin percentage, 0 when
    absent. *)
Definition normalized_winner (b : raw_booth) : string :=
  match winner b with Some w => toUpperCase w | None => "" end.

Definition margin_or_zero (b : raw_booth) : float :=
  match margin_pct b with Some m => m | None => 0 end.

(** *** Geohash computation *)

(** [booth.lat && booth.lng], the guard of [computeGeohashAreas],
    [renderGeohashAreas] and the table's location cell. *)
Definition has_coordinates (b : booth) : bool :=
  (truthy_onum (lat (source b)) && truthy_onum (lng (source b)))%bool.

(** [geohash.encode(booth.lat, booth.lng, GEOHASH_PRECISION)] behind the
    guard: [None] when the guard turns the booth away. *)
Definition booth_hash (b : booth) : option string :=
  match lat (source b), lng (source b) with
  | Some la, Some ln =>
      if (negb (truthy_num la) || negb (truthy_num ln))%bool then None
      else Some (geohash_encode la ln GEOHASH_PRECISION)
  | _, _ => None
  end.

Definition new_area (hash : string) : Area.t :=
  {| Area.hash := hash;
     Area.booths := [];
     Area.dmk_votes := 0;
     Area.aiadmk_votes := 0;
     Area.others_votes := 0;
     Area.bounds := geohash_decode_bbox hash;
     Area.category := None;
     Area.avg_dmk_swing := None;
     Area.avg_aiadmk_swing := None;
     Area.avg_turnout_change := None |}.

(** [area.booths.push(booth)] and the three [+=]. *)
Definition add_to_area (b : booth) (area : Area.t) : Area.t :=
  {| Area.hash := Area.hash area;
     Area.booths := Area.booths area ++ [b];
     Area.dmk_votes := Area.dmk_votes area + num_or (dmk_votes (source b)) 0;
     Area.aiadmk_votes := Area.aiadmk_votes area + num_or (aiadmk_votes (source b)) 0;
     Area.others_votes := Area.others_votes area + num_or (others_votes (source b)) 0;
     Area.bounds := Area.bounds area;
     Area.category := Area.category area;
     Area.avg_dmk_swing := Area.avg_dmk_swing area;
     Area.avg_aiadmk_swing := Area.avg_aiadmk_swing area;
     Area.avg_turnout_change := Area.avg_turnout_change area |}.

(** The body of the first [forEach]. *)
Definition place_booth (areas : list (string * Area.t)) (b : booth)
  : list (string * Area.t) :=
  match booth_hash b with
  | None => areas
  | Some hash =>
      let areas' :=
        if negb (JsMap.has hash areas)
        then JsMap.set hash (new_area hash) areas
        else areas in
      JsMap.update hash (add_to_area b) areas'
  end.

(** The dominant category of a cell from its two vote totals. *)
Definition dominant_category (dmk aiadmk : float) : category :=
  let total := dmk + aiadmk in
  let dmkPct := if gt total 0 then (dmk / total) * 100 else 0 in
  let aiadmkPct := if gt total 0 then (aiadmk / total) * 100 else 0 in
  let margin := abs (dmkPct - aiadmkPct) in
  if gt margin 10 then
    if gt dmkPct aiadmkPct then strong_dmk else strong_admk
  else swing.

(** The share of a party in the two-party total, in percent, and the margin
    between the two shares, as [computeGeohashAreas] computes them. *)
Definition two_party_share (votes total : float) : float :=
  if gt total 0 then (votes / total) * 100 else 0.

Definition two_party_margin (dmk aiadmk : float) : float :=
  abs (two_party_share dmk (dmk + aiadmk) - two_party_share aiadmk (dmk + aiadmk)).

(** The rule for a cell read in exact arithmetic on integer vote totals: the
    difference of the two shares, [100 * |dmk - aiadmk| / total], is above 10
    exactly when [100 * |dmk - aiadmk| > 10 * total]. *)
Definition dominant_category_exact (dmk aiadmk : Z) : category :=
  let total := (dmk + aiadmk)%Z in
  if (total =? 0)%Z then swing
  else if (10 * total <? 100 * Z.abs (dmk - aiadmk))%Z then
    if (aiadmk <? dmk)%Z then strong_dmk else strong_admk
  else swing.

Definition category_eqb (x y : category) : bool :=
  match x, y with
  | strong_dmk, strong_dmk | strong_admk, strong_admk | swing, swing => true
  | _, _ => false
  end.

(** The two shares are exactly 10 apart: [100 * |dmk - aiadmk|] is
    [10 * total], on a total that is not zero. *)
Definition on_boundary (dmk aiadmk : Z) : bool :=
  (negb (dmk + aiadmk =? 0)
   && (10 * (dmk + aiadmk) =? 100 * Z.abs (dmk - aiadmk)))%Z%bool.

(** On two whole numbers of votes, each with the number the code holds for
    it, [dominant_category] gives what the exact rule gives, or the two are
    on the boundary and it gives strong for the side ahead. *)
Definition exact_or_boundary (dmk aiadmk : Z * float) : bool :=
  let d := fst dmk in
  let a := fst aiadmk in
  category_eqb
    (dominant_category (snd dmk) (snd aiadmk))
    (if on_boundary d a
     then if (a <? d)%Z then strong_dmk else strong_admk
     else dominant_category_exact d a).

Definition counts (n : nat) : list (Z * float) :=
  map (fun k => (Z.of_nat k, of_nat k)) (seq 0 (S n)).

Definition all_pairs (l : list (Z * float)) : bool :=
  forallb (fun dmk => forallb (exact_or_boundary dmk) l) l.

(** The votes of the booths of a cell, added up in the order they joined. *)
Definition sum_votes (votes : raw_booth -> option float) (booths : list booth) : float :=
  fold_left (fun sum b => sum + num_or (votes (source b)) 0) booths 0.

(** The running totals of a cell are the sums over its booths. *)
Definition totals_are_sums (area : Area.t) : Prop :=
  Area.dmk_votes area = sum_votes dmk_votes (Area.booths area) /\
  Area.aiadmk_votes area = sum_votes aiadmk_votes (Area.booths area) /\
  Area.others_votes area = sum_votes others_votes (Area.booths area).

(** [b.comparison?.dmk_swing] and [b.comparison?.aiadmk_swing]. *)
Definition booth_dmk_swing (b : booth) : option float :=
  match comparison_of (source b) with Some c => dmk_swing c | None => None end.

Definition booth_aiadmk_swing (b : booth) : option float :=
  match comparison_of (source b) with Some c => aiadmk_swing c | None => None end.

(** [booths.reduce((sum, b) => sum + (metric(b) || 0), 0) / booths.length]. *)
Definition average_of (metric : booth -> option float) (booths : list booth) : float :=
  fold_left (fun sum b => sum + num_or (metric b) 0) booths 0
  / of_nat (List.length booths).

(** The body of the second [forEach]. *)
Definition finish_area (area : Area.t) : Area.t :=
  {| Area.hash := Area.hash area;
     Area.booths := Area.booths area;
     Area.dmk_votes := Area.dmk_votes area;
     Area.aiadmk_votes := Area.aiadmk_votes area;
     Area.others_votes := Area.others_votes area;
     Area.bounds := Area.bounds area;
     Area.category :=
       Some (dominant_category (Area.dmk_votes area) (Area.aiadmk_votes area));
     Area.avg_dmk_swing := Some (average_of booth_dmk_swing (Area.booths area));
     Area.avg_aiadmk_swing := Some (average_of booth_aiadmk_swing (Area.booths area));
     Area.avg_turnout_change := Area.avg_turnout_change area |}.

(** [computeGeohashAreas()], as the map it leaves in [geohashAreas] for a
    given [allBooths]. *)
Definition computeGeohashAreas (all : list booth) : list (string * Area.t) :=
  let placed := fold_left place_booth all [] in
  map (fun entry => (fst entry, finish_area (snd entry))) placed.

(** The booths held by the cells, cell after cell, and their identifiers. *)
Definition members (areas : list (string * Area.t)) : list booth :=
  flat_map (fun entry => Area.booths (snd entry)) areas.

Definition member_ids (areas : list (string * Area.t)) : list nat :=
  flat_map (fun entry => map id (Area.booths (snd entry))) areas.

(** *** Geohash map rendering *)

(** [visibleHashes.add(hash)] on a [Set] kept in insertion order. *)
Definition set_add (h : string) (hs : list string) : list string :=
  if existsb (String.eqb h) hs then hs else hs ++ [h].

Definition visibleHashes (filtered : list booth) : list string :=
  fold_left
    (fun hs b => match booth_hash b with Some h => set_add h hs | None => hs end)
    filtered [].

(** The booth passes the guard and its geohash is [k]. *)
Definition hash_is (k : string) (b : booth) : bool :=
  match booth_hash b with Some h => String.eqb h k | None => false end.

(** Building the popup of a cell throws a [TypeError] when a property it
    dereferences is [undefined]: [area.category], and, once
    [area.avg_dmk_swing] is defined, [area.avg_turnout_change]. *)
Definition popup_throws (area : Area.t) : bool :=
  match Area.category area with
  | None => true
  | Some _ =>
      match Area.avg_dmk_swing area with
      | None => false
      | Some _ =>
          match Area.avg_turnout_change area with
          | None => true
          | Some _ => false
          end
      end
  end.

(** The [visibleHashes.forEach] of [renderGeohashAreas]: the cells drawn so
    far, and whether the loop was left by an exception. *)
Fixpoint draw_areas (areas : list (string * Area.t)) (hashes : list string)
         (layers : list string) : list string * bool :=
  match hashes with
  | [] => (layers, false)
  | h :: rest =>
      match JsMap.get h areas with
      | None => draw_areas areas rest layers
      | Some area =>
          if popup_throws area then (layers, true)
          else draw_areas areas rest (layers ++ [h])
      end
  end.

Definition renderGeohashAreas (s : state) : list string * bool :=
  draw_areas (geohashAreas s) (visibleHashes (filteredBooths s)) [].

(** *** Table rendering *)

Fixpoint assoc (k : string) (l : list (string * jsval)) : jsval :=
  match l with
  | [] => JUndefined
  | (k', v) :: l' => if String.eqb k k' then v else assoc k l'
  end.

(** [booth[col]]. *)
Definition get_field (b : booth) (col : string) : jsval :=
  if String.eqb col "id" then JNum (of_nat (id b))
  else if String.eqb col "booth_no" then JNum (booth_no b)
  else if String.eqb col "station_no" then JNum (station_no b)
  else if String.eqb col "category_simple"
       then JStr (category_name (category_simple b))
  else if String.eqb col "village" then of_ostr (village (source b))
  else if String.eqb col "building" then of_ostr (building (source b))
  else if String.eqb col "lat" then of_onum (lat (source b))
  else if String.eqb col "lng" then of_onum (lng (source b))
  else if String.eqb col "dmk_votes" then of_onum (dmk_votes (source b))
  else if String.eqb col "aiadmk_votes" then of_onum (aiadmk_votes (source b))
  else if String.eqb col "others_votes" then of_onum (others_votes (source b))
  else if String.eqb col "winner" then of_ostr (winner (source b))
  else if String.eqb col "margin_pct" then of_onum (margin_pct (source b))
  else if String.eqb col "comparison"
       then match comparison_of (source b) with
            | Some _ => JObject
            | None => JUndefined
            end
  else assoc col (other_fields (source b)).

(** [String(v)]. *)
Definition to_String (v : jsval) : string :=
  match v with
  | JUndefined => "undefined"
  | JNull => "null"
  | JBool true => "true"
  | JBool false => "false"
  | JNum x => number_toString x
  | JStr s => s
  | JObject => "[object Object]"
  end.

(** [String(v || '').toLowerCase()]. *)
Definition text_key (v : jsval) : string :=
  toLowerCase (to_String (if truthy v then v else JStr "")).

(** The comparison function [renderTable] hands to [sort]. *)
Definition compare_booths (currentSort : sort_state) (a b : booth) : float :=
  let col := column currentSort in
  let aVal := get_field a col in
  let bVal := get_field b col in
  match as_number aVal, as_number bVal with
  | Some x, Some y =>
      if ascending currentSort then x - y else y - x
  | _, _ =>
      let aVal := text_key aVal in
      let bVal := text_key bVal in
      if ascending currentSort then
        if string_lt aVal bVal then -1 else if string_lt bVal aVal then 1 else 0
      else
        if string_lt bVal aVal then -1 else if string_lt aVal bVal then 1 else 0
  end.

Definition sorted_booths (currentSort : sort_state) (filtered : list booth)
  : list booth :=
  array_sort (compare_booths currentSort) filtered.

(** The column holds a number other than [NaN] in every booth of [l]. *)
Definition number_column (col : string) (l : list booth) : bool :=
  forallb
    (fun b =>
       match as_number (get_field b col) with
       | Some x => PrimFloat.eqb x x
       | None => false
       end)
    l.

(** The column holds a number in no booth of [l]. *)
Definition text_column (col : string) (l : list booth) : bool :=
  forallb (fun b => negb (is_number (get_field b col))) l.

(** The page of the table: [sorted.slice(start, end)]. *)
Definition page_booths (sorted : list booth) (currentPage : Z) : list booth :=
  let start := ((currentPage - 1) * ITEMS_PER_PAGE)%Z in
  let end_ := (start + ITEMS_PER_PAGE)%Z in
  JsArray.slice sorted start end_.

(** *** Pagination *)

(** What [updatePagination(totalItems)] shows. *)
Record pagination := {
  totalPages : Z;
  prev_disabled : bool;
  next_disabled : bool
}.

Definition updatePagination (currentPage : Z) (totalItems : nat) : pagination :=
  let totalPages := ceil_div (Z.of_nat totalItems) ITEMS_PER_PAGE in
  {| totalPages := totalPages;
     prev_disabled := (currentPage =? 1)%Z;
     next_disabled := ((currentPage =? totalPages) || (totalPages =? 0))%Z%bool |}.

(** The pages the pagination line counts: 1 to [totalPages]. *)
Definition page_numbers (totalPages : Z) : list Z :=
  map Z.of_nat (seq 1 (Z.to_nat totalPages)).

(** [renderTable()]: the rows shown and the pagination line. *)
Definition renderTable (s : state) : list booth * pagination :=
  let sorted := sorted_booths (currentSort s) (filteredBooths s) in
  (page_booths sorted (currentPage s),
   updatePagination (currentPage s) (List.length sorted)).

(** *** Filters *)

(** [searchMatch] of [applyFilters]; [booth_no] is a number on every booth
    of [allBooths]. *)
Definition search_match (search : string) (b : booth) : bool :=
  (includes (toLowerCase (number_toString (booth_no b))) search
   || match village (source b) with
      | Some v => includes (toLowerCase v) search
      | None => false
      end
   || match building (source b) with
      | Some v => includes (toLowerCase v) search
      | None => false
      end)%bool.

(** The callback of [allBooths.filter] in [applyFilters], for the value of
    the village selector, the lower-cased search text and [activeFilter]. *)
Definition passes_filters (village_value search : string)
           (activeFilter : option string) (b : booth) : bool :=
  if (negb (String.eqb village_value "all")
      && negb match village (source b) with
              | Some v => String.eqb v village_value
              | None => false
              end)%bool
  then false
  else if (truthy_ostr activeFilter
           && negb match activeFilter with
                   | Some f => String.eqb (category_name (category_simple b)) f
                   | None => false
                   end)%bool
  then false
  else if truthy_str search then
    if negb (search_match search b) then false else true
  else true.

(** The booths [applyFilters] keeps, for the two input values as typed. *)
Definition filter_booths (village_value search_value : string)
           (activeFilter : option string) (all : list booth) : list booth :=
  let search := toLowerCase search_value in
  filter (passes_filters village_value search activeFilter) all.

(** *** Statements that assign globals and may throw *)

(** A computation on the globals: its value, or [None] when it threw, and the
    globals as it left them.  An exception undoes nothing. *)
Definition M (A : Type) : Type := state -> option A * state.

Definition ret {A} (a : A) : M A := fun s => (Some a, s).

Definition throw {A} : M A := fun s => (None, s).

Definition bind {A B} (m : M A) (k : A -> M B) : M B :=
  fun s =>
    match m s with
    | (Some a, s') => k a s'
    | (None, s') => (None, s')
    end.

Definition modify (f : state -> state) : M unit := fun s => (Some tt, f s).

Definition get_state : M state := fun s => (Some s, s).

(** [try { body } catch (error) { handler }] with a handler that only logs:
    [true] when the body ran to its end. *)
Definition try_catch (body : M unit) : M bool :=
  fun s =>
    match body s with
    | (Some _, s') => (Some true, s')
    | (None, s') => (Some false, s')
    end.

Notation "x <- m ;; k" := (bind m (fun x => k))
  (at level 61, m at next level, right associativity).
Notation "m ;; k" := (bind m (fun _ => k))
  (at level 61, right associativity).

Definition set_currentConstituency (c : option constituency) (s : state) : state :=
  {| currentConstituency := c;
     allBooths := allBooths s;
     filteredBooths := filteredBooths s;
     geohashAreas := geohashAreas s;
     currentPage := currentPage s;
     currentSort := currentSort s;
     selectedBoothId := selectedBoothId s;
     activeFilter := activeFilter s |}.

Definition set_allBooths (l : list booth) (s : state) : state :=
  {| currentConstituency := currentConstituency s;
     allBooths := l;
     filteredBooths := filteredBooths s;
     geohashAreas := geohashAreas s;
     currentPage := currentPage s;
     currentSort := currentSort s;
     selectedBoothId := selectedBoothId s;
     activeFilter := activeFilter s |}.

Definition set_filteredBooths (l : list booth) (s : state) : state :=
  {| currentConstituency := currentConstituency s;
     allBooths := allBooths s;
     filteredBooths := l;
     geohashAreas := geohashAreas s;
     currentPage := currentPage s;
     currentSort := currentSort s;
     selectedBoothId := selectedBoothId s;
     activeFilter := activeFilter s |}.

Definition set_geohashAreas (m : list (string * Area.t)) (s : state) : state :=
  {| currentConstituency := currentConstituency s;
     allBooths := allBooths s;
     filteredBooths := filteredBooths s;
     geohashAreas := m;
     currentPage := currentPage s;
     currentSort := currentSort s;
     selectedBoothId := selectedBoothId s;
     activeFilter := activeFilter s |}.

Definition set_currentPage (p : Z) (s : state) : state :=
  {| currentConstituency := currentConstituency s;
     allBooths := allBooths s;
     filteredBooths := filteredBooths s;
     geohashAreas := geohashAreas s;
     currentPage := p;
     currentSort := currentSort s;
     selectedBoothId := selectedBoothId s;
     activeFilter := activeFilter s |}.

Definition set_currentSort (c : sort_state) (s : state) : state :=
  {| currentConstituency := currentConstituency s;
     allBooths := allBooths s;
     filteredBooths := filteredBooths s;
     geohashAreas := geohashAreas s;
     currentPage := currentPage s;
     currentSort := c;
     selectedBoothId := selectedBoothId s;
     activeFilter := activeFilter s |}.

Definition set_activeFilter (f : option string) (s : state) : state :=
  {| currentConstituency := currentConstituency s;
     allBooths := allBooths s;
     filteredBooths := filteredBooths s;
     geohashAreas := geohashAreas s;
     currentPage := currentPage s;
     currentSort := currentSort s;
     selectedBoothId := selectedBoothId s;
     activeFilter := f |}.

(** The statements below write to the document or the map and assign no
    global; they are kept for what they can throw. *)

(** [renderTable()] as a statement: it reads the globals and throws nothing
    on booths of [allBooths]. *)
Definition renderTable_stmt : M unit :=
  s <- get_state ;; let _ := renderTable s in ret tt.

(** [renderGeohashAreas()] as a statement. *)
Definition renderGeohashAreas_stmt : M unit :=
  s <- get_state ;;
  if snd (renderGeohashAreas s) then throw else ret tt.

(** [updateStats()].  When [summary.avg_dmk_swing] is anything but
    [undefined], [null] included, it calls [toFixed] on the three figures
    in turn, which throws a [TypeError] on anything but a number; its last
    line dereferences [currentConstituency?.summary], which throws when the
    file has no summary. *)
Definition updateStats_throws (s : state) : bool :=
  match currentConstituency s with
  | None => false
  | Some c =>
      match summary c with
      | None => true
      | Some sm =>
          match Summary.avg_dmk_swing sm with
          | JUndefined => false
          | _ =>
              negb (is_number (Summary.avg_dmk_swing sm)
                    && is_number (Summary.avg_aiadmk_swing sm)
                    && is_number (Summary.avg_turnout_change sm))
          end
      end
  end.

Definition updateStats : M unit :=
  s <- get_state ;;
  if updateStats_throws s then throw else ret tt.

(** [applyFilters()], for the values of the village selector and of the
    search box. *)
Definition applyFilters (village_value search_value : string) : M unit :=
  s <- get_state ;;
  modify (set_filteredBooths
            (filter_booths village_value search_value (activeFilter s) (allBooths s))) ;;
  modify (set_currentPage 1) ;;
  renderTable_stmt ;;
  renderGeohashAreas_stmt ;;
  updateStats.

(** *** Constituency management *)

(** How [fetch] and [response.json()] can end. *)
Inductive response :=
| NetworkError
| HttpError
| BodyNotJson
| Body (c : constituency).

(** The [try] block of [loadConstituency], from the point where the two
    awaited promises have settled.  Clearing the active stat card and
    [populateVillageFilter()] write to the document only. *)
Definition load_body (r : response) : M unit :=
  match r with
  | NetworkError | HttpError | BodyNotJson => throw
  | Body c =>
      modify (set_currentConstituency (Some c)) ;;
      raws <- match booths_of c with
              | Some l => ret l
              | None => throw
              end ;;
      modify (set_allBooths (process_booths raws)) ;;
      s <- get_state ;;
      modify (set_filteredBooths (allBooths s)) ;;
      modify (set_currentSort {| column := "booth_no"; ascending := true |}) ;;
      modify (set_activeFilter None) ;;
      s <- get_state ;;
      modify (set_geohashAreas (computeGeohashAreas (allBooths s))) ;;
      updateStats ;;
      modify (set_currentPage 1) ;;
      renderTable_stmt ;;
      renderGeohashAreas_stmt
  end.

(** [loadConstituency(dataFile)] once its fetch has settled with [r]: the
    globals it leaves, and whether it logged the load ([true]) or an error. *)
Definition loadConstituency (r : response) : M bool := try_catch (load_body r).

(** What the [try] block has assigned by the time it reaches [updateStats],
    for a file that holds a list of booths. *)
Definition loaded (c : constituency) (raws : list raw_booth) (s : state) : state :=
  {| currentConstituency := Some c;
     allBooths := process_booths raws;
     filteredBooths := process_booths raws;
     geohashAreas := computeGeohashAreas (process_booths raws);
     currentPage := currentPage s;
     currentSort := {| column := "booth_no"; ascending := true |};
     selectedBoothId := selectedBoothId s;
     activeFilter := None |}.

(** *** Calls of [loadConstituency] in flight

    A call suspends at [await] and assigns nothing before its fetch settles;
    the rest of its body then runs without interruption.  Calls are numbered
    in the order they are made. *)
Inductive event :=
| Call (dataFile : string)
| Settle (call : nat) (r : response).

Record session := {
  app : state;
  pending : list nat;
  calls_made : nat
}.

Definition step (e : event) (x : session) : session :=
  match e with
  | Call _ =>
      {| app := app x;
         pending := pending x ++ [calls_made x];
         calls_made := S (calls_made x) |}
  | Settle n r =>
      if existsb (Nat.eqb n) (pending x) then
        {| app := snd (loadConstituency r (app x));
           pending := filter (fun m => negb (Nat.eqb n m)) (pending x);
           calls_made := calls_made x |}
      else x
  end.

Definition run (events : list event) (x : session) : session :=
  fold_left (fun x e => step e x) events x.

(** *** Selecting a cell or a row *)

Definition set_selectedBoothId (i : option nat) (s : state) : state :=
  {| currentConstituency := currentConstituency s;
     allBooths := allBooths s;
     filteredBooths := filteredBooths s;
     geohashAreas := geohashAreas s;
     currentPage := currentPage s;
     currentSort := currentSort s;
     selectedBoothId := i;
     activeFilter := activeFilter s |}.

(** [filterByGeohash(hash)].  [boothIds] is only asked [has], which the
    list of identifiers answers as the [Set] made of it does. *)
Definition filterByGeohash (hash : string) : M unit :=
  s <- get_state ;;
  match JsMap.get hash (geohashAreas s) with
  | None => ret tt
  | Some area =>
      let boothIds := map id (Area.booths area) in
      modify (set_filteredBooths
                (filter (fun b => existsb (Nat.eqb (id b)) boothIds) (allBooths s))) ;;
      modify (set_currentPage 1) ;;
      renderTable_stmt ;;
      updateStats
  end.

(** [selectBooth(booth)]: the assignment; the rest marks the row and moves
    the map. *)
Definition selectBooth (b : booth) : M unit :=
  modify (set_selectedBoothId (Some (id b))).

(** *** The counts on the stat cards *)

(** [allBooths.filter(b => b.category_simple === name).length]. *)
Definition count_category (name : string) (all : list booth) : nat :=
  List.length
    (filter (fun b => String.eqb (category_name (category_simple b)) name) all).

Record stat_counts := {
  dmk_won : nat;
  aiadmk_won : nat;
  swing_count : nat
}.

(** The three counts [updateStats] writes before its labels. *)
Definition shown_counts (s : state) : stat_counts :=
  {| dmk_won := count_category "strong-dmk" (allBooths s);
     aiadmk_won := count_category "strong-admk" (allBooths s);
     swing_count := count_category "swing" (allBooths s) |}.

(** *** The handlers installed by [setupEventListeners] *)

(** A click on a stat card that carries [data-filter]; [village_value] and
    [search_value] are what the two inputs hold at that moment. *)
Definition stat_card_click (filter village_value search_value : string) : M unit :=
  s <- get_state ;;
  (if match activeFilter s with
      | Some f => String.eqb f filter
      | None => false
      end
   then modify (set_activeFilter None)
   else modify (set_activeFilter (Some filter))) ;;
  applyFilters village_value search_value.

(** A click on the total card. *)
Definition total_card_click : M unit :=
  modify (set_activeFilter None) ;;
  s <- get_state ;;
  modify (set_filteredBooths (allBooths s)) ;;
  modify (set_currentPage 1) ;;
  renderTable_stmt ;;
  renderGeohashAreas_stmt.

Definition prev_page_click : M unit :=
  s <- get_state ;;
  if (1 <? currentPage s)%Z then
    modify (set_currentPage (currentPage s - 1)%Z) ;;
    renderTable_stmt
  else ret tt.

Definition next_page_click : M unit :=
  s <- get_state ;;
  let totalPages :=
    ceil_div (Z.of_nat (List.length (filteredBooths s))) ITEMS_PER_PAGE in
  if (currentPage s <? totalPages)%Z then
    modify (set_currentPage (currentPage s + 1)%Z) ;;
    renderTable_stmt
  else ret tt.

(** A click on a table header with [data-sort]. *)
Definition sort_header_click (col : string) : M unit :=
  s <- get_state ;;
  (if String.eqb (column (currentSort s)) col
   then modify (set_currentSort
                  {| column := column (currentSort s);
                     ascending := negb (ascending (currentSort s)) |})
   else modify (set_currentSort {| column := col; ascending := true |})) ;;
  renderTable_stmt.

(** What can happen to the booth-analysis view: a handler runs, or a load
    gets past its awaits.  A change of the village selector and the timer of
    the search box both run [applyFilters]. *)
Inductive action :=
| StatCardClick (filter village_value search_value : string)
| TotalCardClick
| FiltersChanged (village_value search_value : string)
| PrevPageClick
| NextPageClick
| SortHeaderClick (col : string)
| CellClick (hash : string)
| RowClick (b : booth)
| LoadSettled (r : response).

(** The globals after the action; an exception a handler throws is reported
    and ends the handler. *)
Definition handle (a : action) (s : state) : state :=
  match a with
  | StatCardClick f v q => snd (stat_card_click f v q s)
  | TotalCardClick => snd (total_card_click s)
  | FiltersChanged v q => snd (applyFilters v q s)
  | PrevPageClick => snd (prev_page_click s)
  | NextPageClick => snd (next_page_click s)
  | SortHeaderClick col => snd (sort_header_click col s)
  | CellClick h => snd (filterByGeohash h s)
  | RowClick b => snd (selectBooth b s)
  | LoadSettled r => snd (loadConstituency r s)
  end.

Definition handle_all (actions : list action) (s : state) : state :=
  fold_left (fun s a => handle a s) actions s.

(** *** The colour of a cell *)

Definition COLORS : list (string * string) :=
  [("dmk", "#dc2626"); ("aiadmk", "#16a34a"); ("swing", "#f59e0b")]%string.

(** [s.replace(pattern, replacement)] for a string pattern and a
    replacement without [$]: the first occurrence is replaced. *)
Fixpoint replace (pattern replacement s : string) {struct s} : string :=
  if String.prefix pattern s then
    (replacement
     ++ substring (String.length pattern)
                  (String.length s - String.length pattern) s)%string
  else
    match s with
    | EmptyString => EmptyString
    | String c s' => String c (replace pattern replacement s')
    end.

(** [COLORS[area.category.replace('strong-', '')]], [None] when the
    property is [undefined]. *)
Definition area_color (c : category) : option string :=
  JsMap.get (replace "strong-" "" (category_name c)) COLORS.

(** *** The village selector *)

(** Two village values are the same element of a [Set]. *)
Definition same_village (v w : option string) : bool :=
  match v, w with
  | Some a, Some b => String.eqb a b
  | None, None => true
  | _, _ => false
  end.

(** [new Set(allBooths.map(b => b.village))], in insertion order. *)
Definition village_set (all : list booth) : list (option string) :=
  fold_left
    (fun vs b =>
       let v := village (source b) in
       if existsb (same_village v) vs then vs else vs ++ [v])
    all [].

(** The callback of [filter]: [v && v.trim() !== ''], with the string it
    keeps. *)
Definition named_village (v : option string) : list string :=
  match v with
  | Some s => if (truthy_str s && negb (String.eqb (trim s) ""))%bool then [s] else []
  | None => []
  end.

(** The order of [sort()] called without a comparison function, on
    strings. *)
Definition default_compare (x y : string) : float :=
  if string_lt x y then -1 else if string_lt y x then 1 else 0.

(** [populateVillageFilter()]: the values of the options it adds after
    "all". *)
Definition populateVillageFilter (all : list booth) : list string :=
  let villages := flat_map named_village (village_set all) in
  array_sort default_compare villages.

(** *** What the globals keep to *)

(** What the first pass has built after the booths of [l]: one cell for
    each geohash seen, in the order the geohashes were first seen, each
    holding the booths with its geohash in their order. *)
Definition grouped (l : list booth) (areas : list (string * Area.t)) : Prop :=
  JsMap.keys areas = visibleHashes l /\
  forall k area,
    JsMap.get k areas = Some area ->
    Area.hash area = k /\
    Area.bounds area = geohash_decode_bbox k /\
    Area.booths area = filter (hash_is k) l.

(** The cells are those of [allBooths], whose identifiers are the
    positions; [filteredBooths] is a selection of [allBooths] in its order;
    the page number is at least 1. *)
Definition consistent (s : state) : Prop :=
  geohashAreas s = computeGeohashAreas (allBooths s) /\
  map id (allBooths s) = seq 0 (List.length (allBooths s)) /\
  (exists keep, filteredBooths s = filter keep (allBooths s)) /\
  (1 <= currentPage s)%Z.

(** The page number is one of the pages of [filteredBooths], or 1 when
    there is none. *)
Definition page_in_range (s : state) : Prop :=
  (1 <= currentPage s <=
   Z.max 1 (ceil_div (Z.of_nat (List.length (filteredBooths s))) ITEMS_PER_PAGE))%Z.

End Model.

(** * Properties *)

(** ** The sign of a binary64 difference

    The rounded difference [x - y] is positive exactly when [y < x]: the
    difference of two numbers of the format is a multiple of the smallest
    subnormal, so that rounding never takes it to zero or across zero. *)

Section BinaryFormat.
Local Open Scope Z_scope.

Lemma digits2_size p : digits2_pos p = Pos.size p.
Proof. induction p as [p IH|p IH|]; simpl; congruence. Qed.

Lemma digits_bounds p :
  2 ^ (Zpos (digits2_pos p) - 1) <= Zpos p < 2 ^ Zpos (digits2_pos p).
Proof.
  rewrite digits2_size.
  pose proof (Pos.size_gt p) as G. pose proof (Pos.size_le p) as L.
  apply Pos2Z.pos_lt_pos in G. apply Pos2Z.pos_le_pos in L.
  rewrite Pos2Z.inj_pow in G, L.
  replace (Zpos (Pos.size p)) with (Z.succ (Zpos (Pos.size p) - 1)) in L at 1 by lia.
  rewrite Z.pow_succ_r in L by lia.
  change (Zpos p~0) with (2 * Zpos p) in L. lia.
Qed.

Lemma shr_1_m r : 0 <= shr_m r -> shr_m (shr_1 r) = shr_m r / 2.
Proof.
  destruct r as [m rr ss]. simpl. intros N.
  rewrite <- Z.div2_div.
  destruct m as [|[p|p|]|p]; simpl; try reflexivity. lia.
Qed.

Lemma iter_shr_m q :
  forall r, 0 <= shr_m r ->
            shr_m (iter_pos shr_1 q r) = shr_m r / 2 ^ Zpos q.
Proof.
  induction q as [q IH|q IH|]; intros r N; simpl iter_pos.
  - assert (N1 : 0 <= shr_m (shr_1 r)) by (rewrite shr_1_m by lia; apply Z.div_pos; lia).
    assert (P : 0 < 2 ^ Zpos q) by (apply Z.pow_pos_nonneg; lia).
    assert (N2 : 0 <= shr_m (iter_pos shr_1 q (shr_1 r)))
      by (rewrite IH by lia; apply Z.div_pos; lia).
    rewrite IH, IH, shr_1_m by lia.
    rewrite !Z.div_div by lia.
    f_equal. replace (Zpos q~1) with (Zpos q + Zpos q + 1) by lia.
    rewrite !Z.pow_add_r by lia. change (2 ^ 1) with 2. ring.
  - assert (P : 0 < 2 ^ Zpos q) by (apply Z.pow_pos_nonneg; lia).
    assert (N2 : 0 <= shr_m (iter_pos shr_1 q r))
      by (rewrite IH by lia; apply Z.div_pos; lia).
    rewrite IH, IH by lia.
    rewrite !Z.div_div by lia.
    f_equal. replace (Zpos q~0) with (Zpos q + Zpos q) by lia.
    rewrite !Z.pow_add_r by lia. ring.
  - rewrite shr_1_m by lia. reflexivity.
Qed.

Local Abbreviation emin64 := (-1074).

Lemma fexp64 e : fexp prec emax e = Z.max (e - 53) emin64.
Proof. reflexivity. Qed.

Lemma shr_record_of_loc_m m l : shr_m (shr_record_of_loc m l) = m.
Proof. destruct l as [|[]]; reflexivity. Qed.

Lemma shr_fexp_positive m e l :
  0 < m -> emin64 <= e ->
  0 < shr_m (fst (shr_fexp prec emax m e l)) /\
  emin64 <= snd (shr_fexp prec emax m e l).
Proof.
  intros M E. unfold shr_fexp, shr. rewrite fexp64.
  destruct m as [|p|p]; try lia. simpl Zdigits2.
  pose proof (digits_bounds p) as [L U].
  set (d := Zpos (digits2_pos p)) in *.
  destruct (Z.max (d + e - 53) emin64 - e) as [|q|q] eqn:N; simpl fst; simpl snd.
  - rewrite shr_record_of_loc_m. lia.
  - rewrite iter_shr_m by (rewrite shr_record_of_loc_m; lia).
    rewrite shr_record_of_loc_m. split; [|lia].
    apply Z.div_str_pos. split; [apply Z.pow_pos_nonneg; lia|].
    apply Z.le_trans with (2 ^ (d - 1)); [|exact L].
    apply Z.pow_le_mono_r; lia.
  - rewrite shr_record_of_loc_m. lia.
Qed.

Lemma round_nearest_even_positive m l : 0 < m -> 0 < round_nearest_even m l.
Proof.
  intros M. unfold round_nearest_even.
  destruct l as [|[]]; try lia. destruct (Z.even m); lia.
Qed.

Lemma binary_round_aux_positive m e :
  0 < m -> emin64 <= e ->
  SFltb (S754_zero false) (binary_round_aux prec emax false m e loc_Exact) = true.
Proof.
  intros M E. unfold binary_round_aux.
  pose proof (@shr_fexp_positive m e loc_Exact M E) as [M1 E1].
  destruct (shr_fexp prec emax m e loc_Exact) as [mrs' e']. simpl in M1, E1.
  pose proof (@round_nearest_even_positive _ (loc_of_shr_record mrs') M1) as M2.
  pose proof (@shr_fexp_positive _ e' loc_Exact M2 E1) as [M3 E3].
  destruct (shr_fexp prec emax _ e' loc_Exact) as [mrs'' e'']. simpl in M3, E3.
  destruct (shr_m mrs''); try lia.
  destruct (Z.leb e'' (emax - prec)); reflexivity.
Qed.

Lemma binary_round_aux_negative m e l :
  SFltb (S754_zero false) (binary_round_aux prec emax true m e l) = false.
Proof.
  unfold binary_round_aux.
  destruct (shr_fexp prec emax m e l) as [mrs' e'].
  destruct (shr_fexp prec emax _ e' loc_Exact) as [mrs'' e''].
  destruct (shr_m mrs''); try reflexivity.
  destruct (Z.leb e'' (emax - prec)); reflexivity.
Qed.

Lemma binary_normalize_sign D e :
  emin64 <= e ->
  SFltb (S754_zero false) (binary_normalize prec emax D e false) = (0 <? D).
Proof.
  intros E. destruct D as [|p|p]; simpl binary_normalize.
  - reflexivity.
  - unfold binary_round.
    destruct (shl_align p e (fexp prec emax (Zpos (digits2_pos p) + e))) as [mz ez] eqn:S.
    rewrite binary_round_aux_positive; [reflexivity|lia|].
    unfold shl_align in S. rewrite fexp64 in S.
    destruct (Z.max (Zpos (digits2_pos p) + e - 53) emin64 - e); inversion S; lia.
  - unfold binary_round.
    destruct (shl_align p e (fexp prec emax (Zpos (digits2_pos p) + e))) as [mz ez].
    rewrite binary_round_aux_negative. reflexivity.
Qed.

Lemma iter_xO_value m d : Zpos (Pos.iter xO m d) = Zpos m * 2 ^ Zpos d.
Proof.
  induction d as [|d IH] using Pos.peano_ind.
  - simpl. lia.
  - rewrite Pos.iter_succ, Pos2Z.inj_succ, Z.pow_succ_r by lia.
    change (Zpos (Pos.iter xO m d)~0) with (2 * Zpos (Pos.iter xO m d)).
    rewrite IH. ring.
Qed.

Lemma shl_align_value m e e' :
  e' <= e -> Zpos (fst (shl_align m e e')) = Zpos m * 2 ^ (e - e').
Proof.
  intros L. unfold shl_align.
  destruct (e' - e) as [|d|d] eqn:D; simpl fst.
  - replace (e - e') with 0 by lia. simpl. lia.
  - lia.
  - replace (e - e') with (Zpos d) by lia. apply iter_xO_value.
Qed.

Lemma bounded_facts m e :
  bounded prec emax m e = true ->
  emin64 <= e /\ Zpos m < 2 ^ 53 /\ (emin64 < e -> 2 ^ 52 <= Zpos m).
Proof.
  unfold bounded, canonical_mantissa. rewrite fexp64. intros B.
  apply andb_true_iff in B. destruct B as [C _]. apply Z.eqb_eq in C.
  pose proof (digits_bounds m) as [L U].
  split; [lia|]. split.
  - apply Z.lt_le_trans with (2 ^ Zpos (digits2_pos m)); [exact U|].
    apply Z.pow_le_mono_r; lia.
  - intros G. apply Z.le_trans with (2 ^ (Zpos (digits2_pos m) - 1)); [|exact L].
    apply Z.pow_le_mono_r; lia.
Qed.

Lemma scaled_above m1 m2 k :
  2 ^ 52 <= Zpos m1 -> Zpos m2 < 2 ^ 53 -> 0 < k ->
  Zpos m2 * 2 ^ 0 < Zpos m1 * 2 ^ k.
Proof.
  intros A B K.
  assert (P : 2 ^ 1 <= 2 ^ k) by (apply Z.pow_le_mono_r; lia).
  change (2 ^ 1) with 2 in P. change (2 ^ 0) with 1.
  change (2 ^ 53) with (2 ^ 52 * 2) in B. nia.
Qed.

Lemma SF64sub_sign X Y :
  valid_binary X = true -> valid_binary Y = true ->
  SFltb (S754_zero false) (SF64sub X Y) = SFltb Y X.
Proof.
  destruct X as [sx|sx| |sx mx ex], Y as [sy|sy| |sy my ey]; intros VX VY;
    try reflexivity;
    try (destruct sx; reflexivity);
    try (destruct sy; reflexivity);
    try (destruct sx, sy; reflexivity).
  simpl in VX, VY.
  apply bounded_facts in VX. destruct VX as (EX & UX & LX).
  apply bounded_facts in VY. destruct VY as (EY & UY & LY).
  unfold SF64sub, SFsub. cbv zeta.
  rewrite binary_normalize_sign by lia.
  rewrite !shl_align_value by lia.
  assert (PX : 0 < Zpos mx * 2 ^ (ex - Z.min ex ey))
    by (apply Z.mul_pos_pos; [lia|apply Z.pow_pos_nonneg; lia]).
  assert (PY : 0 < Zpos my * 2 ^ (ey - Z.min ex ey))
    by (apply Z.mul_pos_pos; [lia|apply Z.pow_pos_nonneg; lia]).
  unfold SFltb, SFcompare.
  destruct sx, sy; unfold cond_Zopp;
    try (destruct (Z.compare_spec ey ex) as [E|L|G];
         [ subst ey; rewrite Z.min_id, !Z.sub_diag in *;
           change (2 ^ 0) with 1 in *;
           change (Pos.compare_cont Eq my mx) with (Pos.compare my mx);
           destruct (Pos.compare_spec my mx)
         | replace (Z.min ex ey) with ey in * by lia; rewrite Z.sub_diag in *;
           pose proof (@scaled_above mx my (ex - ey) (LX ltac:(lia)) UY ltac:(lia))
         | replace (Z.min ex ey) with ex in * by lia; rewrite Z.sub_diag in *;
           pose proof (@scaled_above my mx (ey - ex) (LY ltac:(lia)) UX ltac:(lia)) ]);
    cbn [CompOpp];
    match goal with
    | |- (0 <? ?D) = _ => destruct (Z.ltb_spec 0 D)
    end; try reflexivity; lia.
Qed.

Lemma binary_round_aux_below_zero m e :
  0 < m -> emin64 <= e ->
  SFltb (binary_round_aux prec emax true m e loc_Exact) (S754_zero false) = true.
Proof.
  intros M E. unfold binary_round_aux.
  pose proof (@shr_fexp_positive m e loc_Exact M E) as [M1 E1].
  destruct (shr_fexp prec emax m e loc_Exact) as [mrs' e']. simpl in M1, E1.
  pose proof (@round_nearest_even_positive _ (loc_of_shr_record mrs') M1) as M2.
  pose proof (@shr_fexp_positive _ e' loc_Exact M2 E1) as [M3 E3].
  destruct (shr_fexp prec emax _ e' loc_Exact) as [mrs'' e'']. simpl in M3, E3.
  destruct (shr_m mrs''); try lia.
  destruct (Z.leb e'' (emax - prec)); reflexivity.
Qed.

Lemma binary_round_aux_not_below_zero m e l :
  SFltb (binary_round_aux prec emax false m e l) (S754_zero false) = false.
Proof.
  unfold binary_round_aux.
  destruct (shr_fexp prec emax m e l) as [mrs' e'].
  destruct (shr_fexp prec emax _ e' loc_Exact) as [mrs'' e''].
  destruct (shr_m mrs''); try reflexivity.
  destruct (Z.leb e'' (emax - prec)); reflexivity.
Qed.

Lemma binary_normalize_negative D e :
  emin64 <= e ->
  SFltb (binary_normalize prec emax D e false) (S754_zero false) = (D <? 0).
Proof.
  intros E. destruct D as [|p|p]; simpl binary_normalize.
  - reflexivity.
  - unfold binary_round.
    destruct (shl_align p e (fexp prec emax (Zpos (digits2_pos p) + e))) as [mz ez].
    rewrite binary_round_aux_not_below_zero. reflexivity.
  - unfold binary_round.
    destruct (shl_align p e (fexp prec emax (Zpos (digits2_pos p) + e))) as [mz ez] eqn:S.
    rewrite binary_round_aux_below_zero; [reflexivity|lia|].
    unfold shl_align in S. rewrite fexp64 in S.
    destruct (Z.max (Zpos (digits2_pos p) + e - 53) emin64 - e); inversion S; lia.
Qed.

Lemma SF64sub_negative X Y :
  valid_binary X = true -> valid_binary Y = true ->
  SFltb (SF64sub X Y) (S754_zero false) = SFltb X Y.
Proof.
  destruct X as [sx|sx| |sx mx ex], Y as [sy|sy| |sy my ey]; intros VX VY;
    try reflexivity;
    try (destruct sx; reflexivity);
    try (destruct sy; reflexivity);
    try (destruct sx, sy; reflexivity).
  simpl in VX, VY.
  apply bounded_facts in VX. destruct VX as (EX & UX & LX).
  apply bounded_facts in VY. destruct VY as (EY & UY & LY).
  unfold SF64sub, SFsub. cbv zeta.
  rewrite binary_normalize_negative by lia.
  rewrite !shl_align_value by lia.
  assert (PX : 0 < Zpos mx * 2 ^ (ex - Z.min ex ey))
    by (apply Z.mul_pos_pos; [lia|apply Z.pow_pos_nonneg; lia]).
  assert (PY : 0 < Zpos my * 2 ^ (ey - Z.min ex ey))
    by (apply Z.mul_pos_pos; [lia|apply Z.pow_pos_nonneg; lia]).
  unfold SFltb, SFcompare.
  destruct sx, sy; unfold cond_Zopp;
    try (destruct (Z.compare_spec ex ey) as [E|L|G];
         [ subst ey; rewrite Z.min_id, !Z.sub_diag in *;
           change (2 ^ 0) with 1 in *;
           change (Pos.compare_cont Eq mx my) with (Pos.compare mx my);
           destruct (Pos.compare_spec mx my)
         | replace (Z.min ex ey) with ex in * by lia; rewrite Z.sub_diag in *;
           pose proof (@scaled_above my mx (ey - ex) (LY ltac:(lia)) UX ltac:(lia))
         | replace (Z.min ex ey) with ey in * by lia; rewrite Z.sub_diag in *;
           pose proof (@scaled_above mx my (ex - ey) (LX ltac:(lia)) UY ltac:(lia)) ]);
    cbn [CompOpp];
    match goal with
    | |- (?D <? 0) = _ => destruct (Z.ltb_spec D 0)
    end; try reflexivity; lia.
Qed.

Lemma SFltb_transitive a b c :
  SFltb a b = true -> SFltb b c = true -> SFltb a c = true.
Proof.
  unfold SFltb, SFcompare.
  destruct a as [s1|s1| |s1 m1 e1], b as [s2|s2| |s2 m2 e2], c as [s3|s3| |s3 m3 e3];
    intros H1 H2; try discriminate H1; try discriminate H2; try reflexivity;
    repeat match goal with s : bool |- _ => destruct s end;
    try discriminate H1; try discriminate H2; try reflexivity.
  all: change (Pos.compare_cont Eq m1 m2) with (Pos.compare m1 m2) in *;
       change (Pos.compare_cont Eq m2 m3) with (Pos.compare m2 m3) in *;
       change (Pos.compare_cont Eq m1 m3) with (Pos.compare m1 m3) in *.
  all: destruct (Z.compare_spec e1 e2); try discriminate H1;
    destruct (Z.compare_spec e2 e3); try discriminate H2;
    destruct (Z.compare_spec e1 e3); try reflexivity; try lia;
    destruct (Pos.compare_spec m1 m2); try discriminate H1;
    destruct (Pos.compare_spec m2 m3); try discriminate H2;
    destruct (Pos.compare_spec m1 m3); try reflexivity; simpl; try lia.
Qed.

End BinaryFormat.

(** ** Facts about binary64 numbers *)

Section FloatFacts.
Local Open Scope float_scope.

Lemma SFcompare_finite_refl s m e :
  SFcompare (S754_finite s m e) (S754_finite s m e) = Some Eq.
Proof.
  simpl. rewrite Z.compare_refl, Pos.compare_cont_refl. destruct s; reflexivity.
Qed.

Lemma SFcompare_finite_eq s1 m1 e1 s2 m2 e2 :
  SFcompare (S754_finite s1 m1 e1) (S754_finite s2 m2 e2) = Some Eq ->
  s1 = s2 /\ m1 = m2 /\ e1 = e2.
Proof.
  simpl. destruct s1, s2; try discriminate;
    destruct (Z.compare e1 e2) eqn:E; try discriminate;
    apply Z.compare_eq in E; subst; intros C.
  - destruct (Pos.compare_cont Eq m1 m2) eqn:P; try discriminate.
    apply Pos.compare_eq in P. auto.
  - inversion C as [P]. apply Pos.compare_eq in P. auto.
Qed.

Lemma SFcompare_swap a b :
  SFcompare b a = option_map CompOpp (SFcompare a b).
Proof.
  destruct a as [s|s| |s m e], b as [s'|s'| |s' m' e']; simpl; try reflexivity;
    try (destruct s; reflexivity); try (destruct s'; reflexivity);
    try (destruct s, s'; reflexivity).
  destruct s, s'; try reflexivity;
    rewrite (Z.compare_antisym e' e); destruct (Z.compare e' e); simpl;
    try reflexivity; rewrite Pos.compare_cont_antisym; simpl; try reflexivity.
  rewrite CompOpp_involutive. reflexivity.
Qed.

Lemma SF64sub_finite_self s m e :
  SF64sub (S754_finite s m e) (S754_finite s m e) = S754_zero false.
Proof.
  unfold SF64sub, SFsub. cbv zeta. rewrite Z.sub_diag. reflexivity.
Qed.

(** A falsy number, [NaN] or a zero, is not above 10. *)
Lemma falsy_not_above_ten x : truthy_num x = false -> gt x 10 = false.
Proof.
  unfold truthy_num, gt. rewrite !FloatAxioms.eqb_spec, FloatAxioms.ltb_spec.
  change (Prim2SF 0) with (S754_zero false).
  change (Prim2SF 10) with (S754_finite false 5629499534213120 (-49)).
  destruct (Prim2SF x) as [s|s| |s m e]; try reflexivity.
  - destruct s; discriminate.
  - unfold SFeqb. rewrite SFcompare_finite_refl. simpl. destruct s; discriminate.
Qed.

(** [x - x] is a zero or [NaN], never positive. *)
Lemma sub_self_not_positive x : gt (x - x) 0 = false.
Proof.
  unfold gt. rewrite FloatAxioms.ltb_spec, FloatAxioms.sub_spec.
  change (Prim2SF 0) with (S754_zero false).
  destruct (Prim2SF x) as [s|s| |s m e].
  - destruct s; reflexivity.
  - destruct s; reflexivity.
  - reflexivity.
  - rewrite SF64sub_finite_self. reflexivity.
Qed.

(** Two numbers more than 10 apart are ordered one way or the other. *)
Lemma far_apart_ordered x y :
  gt (abs (x - y)) 10 = true -> gt x y = false -> gt y x = true.
Proof.
  unfold gt. rewrite !FloatAxioms.ltb_spec, FloatAxioms.abs_spec, FloatAxioms.sub_spec.
  change (Prim2SF 10) with (S754_finite false 5629499534213120 (-49)).
  unfold SFltb. rewrite (SFcompare_swap (Prim2SF x) (Prim2SF y)).
  destruct (SFcompare (Prim2SF x) (Prim2SF y)) as [[]|] eqn:C; simpl; try congruence.
  - intros A _. exfalso. revert A.
    destruct (Prim2SF x) as [s|s| |s m e], (Prim2SF y) as [s'|s'| |s' m' e'];
      try discriminate C;
      try (destruct s; discriminate C);
      try (destruct s'; discriminate C);
      try (destruct s, s'; try discriminate C; vm_compute; discriminate).
    apply SFcompare_finite_eq in C. destruct C as (-> & -> & ->).
    rewrite SF64sub_finite_self. discriminate.
  - intros A _. exfalso. revert A.
    destruct (Prim2SF x) as [s|s| |s m e], (Prim2SF y) as [s'|s'| |s' m' e'];
      try discriminate C; try (destruct s; discriminate C);
      try (destruct s'; discriminate C); try (destruct s, s'; discriminate C);
      simpl; discriminate.
Qed.

Lemma gt_asymmetric x y : gt x y = true -> gt y x = false.
Proof.
  unfold gt. rewrite !FloatAxioms.ltb_spec. unfold SFltb.
  rewrite (SFcompare_swap (Prim2SF y) (Prim2SF x)).
  destruct (SFcompare (Prim2SF y) (Prim2SF x)) as [[]|]; simpl; congruence.
Qed.

(** [x - y > 0] exactly when [x > y]. *)
Lemma sub_positive x y : gt (x - y) 0 = gt x y.
Proof.
  unfold gt. rewrite !FloatAxioms.ltb_spec, FloatAxioms.sub_spec.
  change (Prim2SF 0) with (S754_zero false).
  apply SF64sub_sign; apply Prim2SF_valid.
Qed.

(** [x - y < 0] exactly when [x < y]. *)
Lemma sub_negative x y : PrimFloat.ltb (x - y) 0 = PrimFloat.ltb x y.
Proof.
  rewrite !FloatAxioms.ltb_spec, FloatAxioms.sub_spec.
  change (Prim2SF 0) with (S754_zero false).
  apply SF64sub_negative; apply Prim2SF_valid.
Qed.

Lemma gt_transitive x y z : gt x y = true -> gt y z = true -> gt x z = true.
Proof.
  unfold gt. rewrite !FloatAxioms.ltb_spec. intros A B.
  exact (@SFltb_transitive _ _ _ B A).
Qed.

(** [v || 0] is above 10 exactly when [v] is a number above 10. *)
Lemma num_or_zero_above_ten (v : option float) :
  gt (num_or v 0) 10 = match v with Some x => gt x 10 | None => false end.
Proof.
  destruct v as [x|]; simpl; [|reflexivity].
  destruct (truthy_num x) eqn:T; [reflexivity|].
  rewrite (falsy_not_above_ten x T). reflexivity.
Qed.

End FloatFacts.

(** ** Facts about strings *)

Lemma str_or_empty (v : option string) :
  str_or v "" = match v with Some s => s | None => ""%string end.
Proof. destruct v as [[|c s]|]; reflexivity. Qed.

(** ** Facts about the built-ins *)

Section Builtins.
Context `{Host}.

Lemma toLowerCase_empty : toLowerCase "" = ""%string.
Proof. apply (toLowerCase_ascii ""). reflexivity. Qed.

Lemma string_lt_asymmetric (a b : string) :
  string_lt a b = true -> string_lt b a = false.
Proof.
  intros AB. destruct (string_lt b a) eqn:BA; [|reflexivity].
  pose proof (string_lt_transitive _ _ _ AB BA) as AA.
  rewrite string_lt_irreflexive in AA. discriminate AA.
Qed.

Lemma string_lt_or_equal (a b : string) :
  string_lt a b = false -> string_lt b a = false -> a = b.
Proof.
  intros AB BA. destruct (String.eqb_spec a b) as [E|N]; [exact E|].
  pose proof (string_lt_total N) as T. rewrite AB, BA in T. discriminate T.
Qed.

Lemma string_not_lt_transitive (a b c : string) :
  string_lt b a = false -> string_lt c b = false -> string_lt c a = false.
Proof.
  intros BA CB. destruct (string_lt c a) eqn:CA; [|reflexivity].
  destruct (string_lt a b) eqn:AB.
  - rewrite (string_lt_transitive _ _ _ CA AB) in CB. discriminate CB.
  - rewrite (string_lt_or_equal _ _ AB BA) in CA. congruence.
Qed.

End Builtins.

Section Properties.
Context `{Host}.
Local Open Scope float_scope.

(** ** Categorisation *)

Lemma winner_of_booth (b : raw_booth) :
  str_or (option_map toUpperCase (winner b)) "" = normalized_winner b.
Proof.
  rewrite str_or_empty. unfold normalized_winner. destruct (winner b); reflexivity.
Qed.

Lemma margin_of_booth_above_ten (b : raw_booth) :
  gt (num_or (margin_pct b) 0) 10 = gt (margin_or_zero b) 10.
Proof.
  rewrite num_or_zero_above_ten. unfold margin_or_zero.
  destruct (margin_pct b); reflexivity.
Qed.

(** [simplifyCategory] through the two quantities it is specified on. *)
Lemma simplifyCategory_unfold (b : raw_booth) :
  simplifyCategory b =
  if gt (margin_or_zero b) 10 then
    if String.eqb (normalized_winner b) "DMK" then strong_dmk
    else if (String.eqb (normalized_winner b) "AIADMK"
             || String.eqb (normalized_winner b) "ADMK")%bool
         then strong_admk else swing
  else swing.
Proof.
  unfold simplifyCategory. cbv zeta.
  rewrite winner_of_booth, margin_of_booth_above_ten. reflexivity.
Qed.

(** C1.  The category of a record is decided by its winning-side label in
    upper case (empty when absent) and its margin percentage (0 when absent)
    alone: strong DMK exactly when the margin is strictly above 10 and the
    label is DMK, strong ADMK exactly when the margin is strictly above 10
    and the label is AIADMK or its alias ADMK, swing in every other case, a
    margin of exactly 10 included; any record with the same two quantities
    gets the same category, and the categorisation [loadConstituency] does
    inline is the same one.  The label is upper-cased by [toUpperCase] and
    by nothing else: on a label of ASCII characters its letters [a] to [z]
    are mapped to [A] to [Z], so that with a margin above 10 the label dmk
    in any letter case gives strong DMK and aiadmk or admk in any letter
    case gives strong ADMK, while a label with a space or a sign more gives
    swing. *)
Theorem categorize_by_winner_and_margin :
  forall b : raw_booth,
    let w := normalized_winner b in
    let m := margin_or_zero b in
    (simplifyCategory b = strong_dmk <-> gt m 10 = true /\ w = "DMK"%string) /\
    (simplifyCategory b = strong_admk <->
       gt m 10 = true /\ (w = "AIADMK"%string \/ w = "ADMK"%string)) /\
    (simplifyCategory b = swing <->
       ~ (gt m 10 = true /\
          (w = "DMK"%string \/ w = "AIADMK"%string \/ w = "ADMK"%string))) /\
    (m = 10 -> simplifyCategory b = swing) /\
    (forall b' : raw_booth,
        normalized_winner b' = w -> margin_or_zero b' = m ->
        simplifyCategory b' = simplifyCategory b) /\
    (forall index : nat,
        category_simple (process_booth index b) = simplifyCategory b) /\
    (forall label : string,
        winner b = Some label -> is_ascii label = true ->
        w = ascii_toUpperCase label) /\
    (forall label : string,
        winner b = Some label -> gt m 10 = true ->
        (In label ["DMK"; "dmk"; "Dmk"; "dmK"]%string ->
         simplifyCategory b = strong_dmk) /\
        (In label ["AIADMK"; "aiadmk"; "Aiadmk"; "ADMK"; "admk"; "Admk"]%string ->
         simplifyCategory b = strong_admk) /\
        (In label ["DMK "; " DMK"; "D.M.K."; "AIADMK+"; "dravida"]%string ->
         simplifyCategory b = swing)).
Proof.
  intros b w m. subst w m.
  assert (Upper : forall label : string,
             winner b = Some label -> is_ascii label = true ->
             normalized_winner b = ascii_toUpperCase label).
  { intros label W A. unfold normalized_winner. rewrite W.
    apply toUpperCase_ascii, A. }
  rewrite !simplifyCategory_unfold.
  split; [|split; [|split; [|split; [|split; [|split; [|split]]]]]].
  - split.
    + destruct (gt (margin_or_zero b) 10); [|discriminate].
      destruct (String.eqb_spec (normalized_winner b) "DMK"); [auto|].
      destruct (_ || _)%bool; discriminate.
    + intros [G W]. rewrite G, W. reflexivity.
  - split.
    + destruct (gt (margin_or_zero b) 10); [|discriminate].
      destruct (String.eqb_spec (normalized_winner b) "DMK"); [discriminate|].
      destruct (String.eqb_spec (normalized_winner b) "AIADMK"); [auto|].
      destruct (String.eqb_spec (normalized_winner b) "ADMK"); [auto|].
      discriminate.
    + intros [G W]. rewrite G.
      destruct W as [W|W]; rewrite W; reflexivity.
  - split.
    + intros S [G W]. rewrite G in S.
      destruct W as [W|[W|W]]; rewrite W in S; discriminate.
    + intros N.
      destruct (gt (margin_or_zero b) 10); [|reflexivity].
      destruct (String.eqb_spec (normalized_winner b) "DMK"); [exfalso; auto|].
      destruct (String.eqb_spec (normalized_winner b) "AIADMK"); [exfalso; auto|].
      destruct (String.eqb_spec (normalized_winner b) "ADMK"); [exfalso; auto|].
      reflexivity.
  - intros ->. reflexivity.
  - intros b' W M. rewrite !simplifyCategory_unfold, W, M. reflexivity.
  - intros index. unfold process_booth. simpl.
    rewrite winner_of_booth, margin_of_booth_above_ten. reflexivity.
  - exact Upper.
  - intros label W G. rewrite G.
    split; [|split]; intros I; simpl in I;
      repeat (destruct I as [I|I];
              [subst label; rewrite (Upper _ W eq_refl); reflexivity|]);
      destruct I.
Qed.

(** ** Geohash bucketing *)

Lemma member_ids_members (areas : list (string * Area.t)) :
  member_ids areas = map id (members areas).
Proof.
  unfold member_ids, members. induction areas as [|e areas IH]; simpl.
  - reflexivity.
  - rewrite map_app, IH. reflexivity.
Qed.

Lemma has_coordinates_hash (b : booth) :
  has_coordinates b = match booth_hash b with Some _ => true | None => false end.
Proof.
  unfold has_coordinates, booth_hash.
  destruct (lat (source b)) as [la|], (lng (source b)) as [ln|]; simpl;
    try reflexivity.
  - destruct (truthy_num la), (truthy_num ln); reflexivity.
  - destruct (truthy_num la); reflexivity.
Qed.

Lemma members_set_new (h : string) (areas : list (string * Area.t)) :
  JsMap.has h areas = false ->
  members (JsMap.set h (new_area h) areas) = members areas.
Proof.
  unfold JsMap.has, members. induction areas as [|[k v] areas IH]; simpl.
  - reflexivity.
  - destruct (String.eqb h k); [discriminate|].
    intros A. simpl. rewrite (IH A). reflexivity.
Qed.

Lemma has_set (V : Type) (h : string) (v : V) (m : list (string * V)) :
  JsMap.has h (JsMap.set h v m) = true.
Proof.
  unfold JsMap.has. induction m as [|[k w] m IH]; simpl.
  - rewrite String.eqb_refl. reflexivity.
  - destruct (String.eqb h k) eqn:E; simpl; rewrite E; [reflexivity|exact IH].
Qed.

Lemma members_update (h : string) (b : booth) (areas : list (string * Area.t)) :
  JsMap.has h areas = true ->
  Permutation (members (JsMap.update h (add_to_area b) areas)) (members areas ++ [b]).
Proof.
  unfold JsMap.has, members. induction areas as [|[k v] areas IH]; simpl.
  - discriminate.
  - destruct (String.eqb h k); simpl.
    + intros _. rewrite <- !app_assoc.
      apply Permutation_app_head, Permutation_app_comm.
    + intros A. rewrite <- app_assoc. apply Permutation_app_head, IH, A.
Qed.

(** What the first pass does with one booth: it joins exactly one cell when
    it passes the guard, and no cell otherwise. *)
Lemma members_place_booth (areas : list (string * Area.t)) (b : booth) :
  Permutation (members (place_booth areas b))
              (members areas ++ if has_coordinates b then [b] else []).
Proof.
  rewrite has_coordinates_hash. unfold place_booth.
  destruct (booth_hash b) as [h|].
  - destruct (JsMap.has h areas) eqn:A; simpl.
    + apply members_update, A.
    + rewrite members_update by apply has_set.
      rewrite members_set_new by exact A. reflexivity.
  - rewrite app_nil_r. reflexivity.
Qed.

Lemma members_placed (l : list booth) (areas : list (string * Area.t)) :
  Permutation (members (fold_left place_booth l areas))
              (members areas ++ filter has_coordinates l).
Proof.
  revert areas. induction l as [|b l IH]; intros areas; simpl.
  - rewrite app_nil_r. reflexivity.
  - rewrite IH, members_place_booth, <- app_assoc.
    destruct (has_coordinates b); reflexivity.
Qed.

Lemma members_finished (areas : list (string * Area.t)) :
  members (map (fun entry => (fst entry, finish_area (snd entry))) areas)
  = members areas.
Proof.
  unfold members. induction areas as [|e areas IH]; simpl; [|rewrite IH]; reflexivity.
Qed.

Lemma members_computeGeohashAreas (all : list booth) :
  Permutation (members (computeGeohashAreas all)) (filter has_coordinates all).
Proof.
  unfold computeGeohashAreas. cbv zeta.
  rewrite members_finished. apply (members_placed all []).
Qed.

(** The identifiers [loadConstituency] assigns are the indices. *)
Lemma ids_map_index (from : nat) (raws : list raw_booth) :
  map id (map_index from raws) = seq from (List.length raws).
Proof.
  revert from. induction raws as [|r raws IH]; intros from; simpl.
  - reflexivity.
  - rewrite IH. reflexivity.
Qed.

Lemma NoDup_ids_process_booths (raws : list raw_booth) :
  NoDup (map id (process_booths raws)).
Proof. unfold process_booths. rewrite ids_map_index. apply seq_NoDup. Qed.

(** Booths of one list with distinct identifiers are told apart by their
    identifier. *)
Lemma same_id_same_booth (l : list booth) (x y : booth) :
  NoDup (map id l) -> In x l -> In y l -> id x = id y -> x = y.
Proof.
  induction l as [|z l IH]; simpl; intros N Ix Iy E; [contradiction|].
  apply NoDup_cons_iff in N. destruct N as [Nz Nl].
  destruct Ix as [->|Ix], Iy as [->|Iy]; auto.
  - exfalso. apply Nz. rewrite E. apply in_map, Iy.
  - exfalso. apply Nz. rewrite <- E. apply in_map, Ix.
Qed.

Lemma NoDup_ids_of_located (l : list booth) :
  NoDup (map id l) -> NoDup (map id (filter has_coordinates l)).
Proof.
  intros N. apply NoDup_map_NoDup_ForallPairs.
  - intros x y Ix Iy E. apply filter_In in Ix. apply filter_In in Iy.
    apply (same_id_same_booth l); tauto.
  - apply NoDup_filter. apply (NoDup_map_inv id). exact N.
Qed.

(** C2.  For the booths of any constituency file, the identifiers held by
    the cells of [computeGeohashAreas] are, up to order, exactly the
    identifiers of the booths that pass the coordinate guard; no identifier
    is held twice; a booth turned away by the guard is in no cell, and a
    booth that passes it is in one. *)
Theorem bucketing_members_are_the_located_booths :
  forall raws : list raw_booth,
    let all := process_booths raws in
    let cells := computeGeohashAreas all in
    Permutation (member_ids cells) (map id (filter has_coordinates all)) /\
    NoDup (member_ids cells) /\
    (forall b, In b all -> has_coordinates b = false ->
               ~ In (id b) (member_ids cells)) /\
    (forall b, In b all -> has_coordinates b = true ->
               In (id b) (member_ids cells)).
Proof.
  intros raws all cells.
  assert (P : Permutation (member_ids cells) (map id (filter has_coordinates all))).
  { rewrite member_ids_members. apply Permutation_map, members_computeGeohashAreas. }
  assert (N : NoDup (map id all)) by apply NoDup_ids_process_booths.
  split; [exact P|]. split; [|split].
  - apply (Permutation_NoDup (Permutation_sym P)), NoDup_ids_of_located, N.
  - intros b I C M.
    apply (Permutation_in _ P) in M. apply in_map_iff in M.
    destruct M as (b' & E & I'). apply filter_In in I'. destruct I' as [I' C'].
    assert (b' = b) by (apply (same_id_same_booth all); auto).
    subst b'. congruence.
  - intros b I C. apply (Permutation_in _ (Permutation_sym P)).
    apply in_map, filter_In. auto.
Qed.

(** ** The totals, category and averages of a cell *)

Lemma Forall_values_set (V : Type) (P : V -> Prop) (k : string) (v : V)
      (m : list (string * V)) :
  P v -> Forall P (JsMap.values m) -> Forall P (JsMap.values (JsMap.set k v m)).
Proof.
  unfold JsMap.values. intros Pv. induction m as [|[k' w] m IH]; simpl; intros F.
  - constructor; [exact Pv|constructor].
  - inversion F; subst. destruct (String.eqb k k'); simpl; constructor; auto.
Qed.

Lemma Forall_values_update (V : Type) (P : V -> Prop) (k : string) (f : V -> V)
      (m : list (string * V)) :
  (forall v, P v -> P (f v)) ->
  Forall P (JsMap.values m) -> Forall P (JsMap.values (JsMap.update k f m)).
Proof.
  unfold JsMap.values. intros Pf. induction m as [|[k' w] m IH]; simpl; intros F.
  - constructor.
  - inversion F; subst. destruct (String.eqb k k'); simpl; constructor; auto.
Qed.

(** Whatever holds of a fresh cell and is kept when a booth joins holds of
    every cell of the first pass. *)
Lemma placed_invariant (P : Area.t -> Prop) :
  (forall h, P (new_area h)) ->
  (forall b area, P area -> P (add_to_area b area)) ->
  forall (l : list booth) (areas : list (string * Area.t)),
    Forall P (JsMap.values areas) ->
    Forall P (JsMap.values (fold_left place_booth l areas)).
Proof.
  intros Pnew Padd. induction l as [|b l IH]; intros areas F; simpl.
  - exact F.
  - apply IH. unfold place_booth. destruct (booth_hash b) as [h|]; [|exact F].
    apply Forall_values_update; [apply Padd|].
    destruct (negb (JsMap.has h areas)); [|exact F].
    apply Forall_values_set; [apply Pnew|exact F].
Qed.

Lemma sum_votes_snoc (votes : raw_booth -> option float) (l : list booth) (b : booth) :
  sum_votes votes (l ++ [b]) = sum_votes votes l + num_or (votes (source b)) 0.
Proof. unfold sum_votes. rewrite fold_left_app. reflexivity. Qed.

Lemma placed_totals (l : list booth) :
  Forall totals_are_sums (JsMap.values (fold_left place_booth l [])).
Proof.
  apply placed_invariant.
  - intros h. repeat split.
  - intros b area (D & A & O). unfold totals_are_sums. simpl.
    rewrite !sum_votes_snoc, D, A, O. repeat split.
  - constructor.
Qed.

Lemma placed_no_turnout (l : list booth) :
  Forall (fun area => Area.avg_turnout_change area = None)
         (JsMap.values (fold_left place_booth l [])).
Proof.
  apply placed_invariant.
  - reflexivity.
  - intros b area E. exact E.
  - constructor.
Qed.

Lemma placed_nonempty (l : list booth) :
  Forall (fun area => Area.booths area <> [])
         (JsMap.values (fold_left place_booth l [])).
Proof.
  (* a cell is created only to receive the booth at hand *)
  assert (K : forall (l : list booth) (areas : list (string * Area.t)),
             Forall (fun area => Area.booths area <> []) (JsMap.values areas) ->
             Forall (fun area => Area.booths area <> [])
                    (JsMap.values (fold_left place_booth l areas))).
  { clear l. induction l as [|b l IH]; intros areas F; simpl; [exact F|].
    apply IH. unfold place_booth. destruct (booth_hash b) as [h|]; [|exact F].
    destruct (JsMap.has h areas) eqn:A; simpl.
    - apply Forall_values_update; [|exact F].
      intros v _. simpl. intros E. apply app_eq_nil in E. destruct E; discriminate.
    - clear IH. unfold JsMap.has in A. unfold JsMap.values in *.
      induction areas as [|[k v] areas IHa]; simpl in *.
      + rewrite String.eqb_refl. simpl. constructor; [discriminate|constructor].
      + destruct (String.eqb h k) eqn:E; [discriminate|]. simpl. rewrite E. simpl.
        inversion F; subst. constructor; [assumption|]. apply IHa; assumption. }
  apply K. constructor.
Qed.

Lemma values_finished (areas : list (string * Area.t)) :
  JsMap.values (map (fun entry => (fst entry, finish_area (snd entry))) areas)
  = map finish_area (JsMap.values areas).
Proof. unfold JsMap.values. rewrite !map_map. reflexivity. Qed.

Lemma dominant_category_unfold (dmk aiadmk : float) :
  dominant_category dmk aiadmk =
  if gt (two_party_margin dmk aiadmk) 10 then
    if gt (two_party_share dmk (dmk + aiadmk)) (two_party_share aiadmk (dmk + aiadmk))
    then strong_dmk else strong_admk
  else swing.
Proof. reflexivity. Qed.

Lemma no_votes_no_margin (dmk aiadmk : float) :
  gt (dmk + aiadmk) 0 = false -> gt (two_party_margin dmk aiadmk) 10 = false.
Proof.
  intros T. unfold two_party_margin, two_party_share. rewrite T. reflexivity.
Qed.

(** The rule of [dominant_category] on the computed shares. *)
Lemma dominant_category_rule (dmk aiadmk : float) :
  let margin := two_party_margin dmk aiadmk in
  let dmkPct := two_party_share dmk (dmk + aiadmk) in
  let aiadmkPct := two_party_share aiadmk (dmk + aiadmk) in
  let c := dominant_category dmk aiadmk in
  (c = strong_dmk <-> gt margin 10 = true /\ gt dmkPct aiadmkPct = true) /\
  (c = strong_admk <-> gt margin 10 = true /\ gt aiadmkPct dmkPct = true) /\
  (c = swing <-> gt margin 10 = false) /\
  (gt (dmk + aiadmk) 0 = false -> c = swing) /\
  (margin = 10 -> c = swing).
Proof.
  intros margin dmkPct aiadmkPct c. subst c. rewrite dominant_category_unfold.
  fold margin dmkPct aiadmkPct.
  split; [|split; [|split; [|split]]].
  - split.
    + destruct (gt margin 10); [|discriminate].
      destruct (gt dmkPct aiadmkPct); [auto|discriminate].
    + intros [-> ->]. reflexivity.
  - split.
    + destruct (gt margin 10) eqn:G; [|discriminate].
      destruct (gt dmkPct aiadmkPct) eqn:D; [discriminate|].
      intros _. split; [reflexivity|].
      apply far_apart_ordered; assumption.
    + intros [-> A]. rewrite (gt_asymmetric A). reflexivity.
  - split.
    + destruct (gt margin 10); [|reflexivity].
      destruct (gt dmkPct aiadmkPct); discriminate.
    + intros ->. reflexivity.
  - intros T. subst margin. rewrite (no_votes_no_margin T). reflexivity.
  - intros ->. reflexivity.
Qed.

Lemma category_eqb_eq (x y : category) : category_eqb x y = true -> x = y.
Proof. destruct x, y; simpl; congruence. Qed.

Lemma counts_member (n k : nat) :
  (k <= n)%nat -> In (Z.of_nat k, of_nat k) (counts n).
Proof.
  intros L. unfold counts.
  apply (in_map (fun k => (Z.of_nat k, of_nat k))). apply in_seq. lia.
Qed.

Lemma all_pairs_spec (l : list (Z * float)) :
  all_pairs l = true ->
  forall x y, In x l -> In y l -> exact_or_boundary x y = true.
Proof.
  unfold all_pairs. intros T x y Ix Iy. rewrite forallb_forall in T.
  specialize (T x Ix). rewrite forallb_forall in T. exact (T y Iy).
Qed.

(** Up to 1000 votes a side, by evaluation of all the cases. *)
Lemma exact_or_boundary_up_to_1000 : all_pairs (counts 1000) = true.
Proof. vm_compute. reflexivity. Qed.

Lemma exact_or_boundary_below (dmk aiadmk : nat) :
  (dmk <= 1000)%nat -> (aiadmk <= 1000)%nat ->
  exact_or_boundary (Z.of_nat dmk, of_nat dmk) (Z.of_nat aiadmk, of_nat aiadmk)
  = true.
Proof.
  intros D A.
  exact (@all_pairs_spec (counts 1000) exact_or_boundary_up_to_1000
           _ _ (counts_member D) (counts_member A)).
Qed.

(** C6.  Every cell gets its category from its summed DMK and AIADMK votes
    alone (the other votes take no part), by the rule of the single record
    with its strict threshold of 10, on the two shares and their margin as
    [computeGeohashAreas] computes them in binary64 arithmetic: strong for
    the side with the larger share when the computed margin is above 10;
    swing otherwise, a two-party total that is not positive included.  Set
    against the rule read in exact arithmetic, for whole numbers of votes
    up to 1000 a side: off the boundary, and with no votes, the code gives
    the category of the exact rule; on the boundary, where the two shares
    are exactly 10 apart and the rule says swing, the computed margin is
    above 10 and the code gives strong for the side ahead. *)
Theorem cell_category_from_two_party_margin :
  (forall all : list booth,
    Forall
      (fun area =>
         let dmk := sum_votes dmk_votes (Area.booths area) in
         let aiadmk := sum_votes aiadmk_votes (Area.booths area) in
         let margin := two_party_margin dmk aiadmk in
         let dmkPct := two_party_share dmk (dmk + aiadmk) in
         let aiadmkPct := two_party_share aiadmk (dmk + aiadmk) in
         exists c,
           Area.category area = Some c /\
           (c = strong_dmk <-> gt margin 10 = true /\ gt dmkPct aiadmkPct = true) /\
           (c = strong_admk <-> gt margin 10 = true /\ gt aiadmkPct dmkPct = true) /\
           (c = swing <-> gt margin 10 = false) /\
           (gt (dmk + aiadmk) 0 = false -> c = swing) /\
           (margin = 10 -> c = swing))
      (JsMap.values (computeGeohashAreas all))) /\
  (forall dmk aiadmk : nat,
      (dmk <= 1000)%nat -> (aiadmk <= 1000)%nat ->
      let d := Z.of_nat dmk in
      let a := Z.of_nat aiadmk in
      let code := dominant_category (of_nat dmk) (of_nat aiadmk) in
      ((d + a = 0 \/ 10 * (d + a) <> 100 * Z.abs (d - a))%Z ->
       code = dominant_category_exact d a) /\
      ((d + a <> 0 /\ 10 * (d + a) = 100 * Z.abs (d - a))%Z ->
       dominant_category_exact d a = swing /\
       gt (two_party_margin (of_nat dmk) (of_nat aiadmk)) 10 = true /\
       code = if (a <? d)%Z then strong_dmk else strong_admk)).
Proof.
  split.
  - intros all. unfold computeGeohashAreas. cbv zeta.
    rewrite values_finished. apply Forall_map.
    eapply Forall_impl; [|apply placed_totals].
    intros area (D & A & _). simpl. rewrite D, A.
    eexists. split; [reflexivity|]. apply dominant_category_rule.
  - intros dmk aiadmk D A d a code.
    pose proof (exact_or_boundary_below D A) as T.
    unfold exact_or_boundary in T. cbn [fst snd] in T. fold d a code in T.
    apply category_eqb_eq in T. unfold on_boundary in T. split.
    + intros O. rewrite T.
      destruct (Z.eqb_spec (d + a) 0) as [Z0|N0]; [reflexivity|].
      destruct (Z.eqb_spec (10 * (d + a)) (100 * Z.abs (d - a))) as [E|N];
        [|reflexivity].
      exfalso. destruct O as [O|O]; [exact (N0 O)|exact (O E)].
    + intros [N0 E].
      destruct (Z.eqb_spec (d + a) 0) as [Z0|_]; [contradiction|].
      destruct (Z.eqb_spec (10 * (d + a)) (100 * Z.abs (d - a))) as [_|N];
        [|contradiction].
      cbn [negb andb] in T.
      assert (X : dominant_category_exact d a = swing).
      { unfold dominant_category_exact. cbv zeta.
        destruct (Z.eqb_spec (d + a) 0) as [Z0|_]; [contradiction|].
        rewrite E, Z.ltb_irrefl. reflexivity. }
      split; [exact X|]. split; [|exact T].
      unfold code in T. rewrite dominant_category_unfold in T.
      destruct (gt (two_party_margin (of_nat dmk) (of_nat aiadmk)) 10);
        [reflexivity|].
      destruct (a <? d)%Z; discriminate T.
Qed.

(** C7.  In every cell the two per-party averages are the sum over the
    booths of the cell, a missing swing counting 0, divided by the number of
    booths of the cell; the turnout average [avg_turnout_change], which the
    popup of the cell prints, is assigned nowhere and stays [undefined], so
    that building the popup throws. *)
Theorem cell_averages_without_turnout :
  forall all : list booth,
    Forall
      (fun area =>
         Area.avg_dmk_swing area
         = Some (fold_left (fun sum b => sum + num_or (booth_dmk_swing b) 0)
                           (Area.booths area) 0
                 / of_nat (List.length (Area.booths area))) /\
         Area.avg_aiadmk_swing area
         = Some (fold_left (fun sum b => sum + num_or (booth_aiadmk_swing b) 0)
                           (Area.booths area) 0
                 / of_nat (List.length (Area.booths area))) /\
         Area.booths area <> [] /\
         Area.avg_turnout_change area = None /\
         popup_throws area = true)
      (JsMap.values (computeGeohashAreas all)).
Proof.
  intros all. unfold computeGeohashAreas. cbv zeta.
  rewrite values_finished. apply Forall_map.
  assert (F := placed_no_turnout all). assert (G := placed_nonempty all).
  rewrite Forall_forall in *. intros area I.
  specialize (F area I). specialize (G area I). simpl.
  unfold popup_throws. simpl. rewrite F. auto.
Qed.

(** ** Records without usable coordinates *)

Lemma place_booth_without_coordinates (areas : list (string * Area.t)) (b : booth) :
  has_coordinates b = false -> place_booth areas b = areas.
Proof.
  rewrite has_coordinates_hash. unfold place_booth.
  destruct (booth_hash b); [discriminate|reflexivity].
Qed.

(** C10.  A booth whose latitude or longitude is missing, zero or any other
    falsy value takes no part in the bucketing and contributes no cell to the
    overlay: the cells computed and the cells shown are the same as without
    it, and it is a member of no cell; the members of the cells all have a
    truthy latitude and a truthy longitude. *)
Theorem falsy_coordinates_take_no_part :
  forall b : booth,
    (truthy_onum (lat (source b)) && truthy_onum (lng (source b)))%bool = false ->
    (forall before after,
        computeGeohashAreas (before ++ b :: after)
        = computeGeohashAreas (before ++ after)) /\
    (forall before after,
        visibleHashes (before ++ b :: after) = visibleHashes (before ++ after)) /\
    (forall s before after,
        filteredBooths s = before ++ b :: after ->
        renderGeohashAreas s
        = renderGeohashAreas (set_filteredBooths (before ++ after) s)) /\
    (forall all, ~ In b (members (computeGeohashAreas all))) /\
    (forall all b',
        In b' (members (computeGeohashAreas all)) ->
        truthy_onum (lat (source b')) = true /\ truthy_onum (lng (source b')) = true).
Proof.
  intros b C. change (has_coordinates b = false) in C.
  assert (V : forall before after,
             visibleHashes (before ++ b :: after) = visibleHashes (before ++ after)).
  { intros before after. unfold visibleHashes. rewrite !fold_left_app. simpl.
    rewrite has_coordinates_hash in C.
    destruct (booth_hash b); [discriminate|reflexivity]. }
  assert (M : forall all b', In b' (members (computeGeohashAreas all)) ->
                             has_coordinates b' = true).
  { intros all b' I.
    apply (Permutation_in _ (members_computeGeohashAreas all)) in I.
    apply filter_In in I. apply I. }
  split; [|split; [|split; [|split]]].
  - intros before after. unfold computeGeohashAreas. cbv zeta.
    rewrite !fold_left_app. simpl.
    rewrite (place_booth_without_coordinates _ b C). reflexivity.
  - exact V.
  - intros s before after E. unfold renderGeohashAreas. simpl. rewrite E, V.
    reflexivity.
  - intros all I. apply M in I. congruence.
  - intros all b' I. apply M in I. unfold has_coordinates in I.
    apply andb_true_iff in I. exact I.
Qed.

(** ** Filters *)

Lemma filter_twice (A : Type) (p : A -> bool) (l : list A) :
  filter p (filter p l) = filter p l.
Proof.
  induction l as [|x l IH]; simpl; [reflexivity|].
  destruct (p x) eqn:E; simpl; [rewrite E, IH|rewrite IH]; reflexivity.
Qed.

Lemma filter_all (A : Type) (p : A -> bool) (l : list A) :
  (forall x, p x = true) -> filter p l = l.
Proof.
  intros T. induction l as [|x l IH]; simpl; [reflexivity|].
  rewrite T, IH. reflexivity.
Qed.

(** C5.  With the village selector on "all", no active category and an
    empty search box the filter keeps every booth, in the order of
    [allBooths]; for any filter state, filtering what the filter kept keeps
    all of it; and this filter is what [applyFilters] leaves in
    [filteredBooths]. *)
Theorem filter_relaxed_and_idempotent :
  forall all : list booth,
    filter_booths "all" "" None all = all /\
    (forall village_value search_value activeFilter,
        filter_booths village_value search_value activeFilter
          (filter_booths village_value search_value activeFilter all)
        = filter_booths village_value search_value activeFilter all) /\
    (forall village_value search_value s,
        allBooths s = all ->
        filteredBooths (snd (applyFilters village_value search_value s))
        = filter_booths village_value search_value (activeFilter s) all).
Proof.
  intros all. split; [|split].
  - unfold filter_booths. rewrite toLowerCase_empty. apply filter_all.
    intros b. reflexivity.
  - intros v q f. unfold filter_booths. apply filter_twice.
  - intros v q s <-.
    cbv beta iota zeta delta [applyFilters bind get_state modify renderTable_stmt
                              renderGeohashAreas_stmt updateStats ret throw].
    repeat match goal with
           | |- context [if ?c then _ else _] => destruct c
           end; reflexivity.
Qed.

(** ** Loading a constituency *)

Lemma loadConstituency_body (c : constituency) (raws : list raw_booth) (s : state) :
  booths_of c = Some raws ->
  snd (loadConstituency (Body c) s)
  = if updateStats_throws (loaded c raws s) then loaded c raws s
    else set_currentPage 1 (loaded c raws s).
Proof.
  intros B.
  cbv beta iota zeta delta [loadConstituency try_catch load_body bind modify
                            get_state updateStats renderTable_stmt
                            renderGeohashAreas_stmt ret throw].
  rewrite B.
  change (set_geohashAreas _ _) with (loaded c raws s).
  destruct (updateStats_throws (loaded c raws s)); [reflexivity|].
  match goal with
  | |- context [if ?c then _ else _] => destruct c
  end; reflexivity.
Qed.

End Properties.

(** ** Facts about [sort] *)

Section SortFacts.
Variable A : Type.
Variable comparefn : A -> A -> float.

Let after : A -> A -> bool := JsArray.sorts_after comparefn.
Let insert_up : A -> list A -> list A := JsArray.insert comparefn.
Let insert_down : A -> list A -> list A := JsArray.insert (fun x y => comparefn y x).

Lemma insert_permutation (x : A) (l : list A) :
  Permutation (JsArray.insert comparefn x l) (x :: l).
Proof.
  induction l as [|y l IH]; simpl.
  - reflexivity.
  - destruct (JsArray.sorts_after comparefn x y).
    + rewrite IH. apply perm_swap.
    + reflexivity.
Qed.

Lemma sort_permutation (l : list A) : Permutation (JsArray.stable_sort comparefn l) l.
Proof.
  induction l as [|x l IH]; simpl.
  - reflexivity.
  - rewrite insert_permutation. constructor. exact IH.
Qed.

Lemma sort_length (l : list A) : List.length (JsArray.stable_sort comparefn l) = List.length l.
Proof. apply Permutation_length, sort_permutation. Qed.

(** Inserting an element leaves the others in their order, and puts it
    before those it does not sort after. *)
Lemma filter_insert (p : A -> bool) (x : A) (l : list A) :
  (forall y, In y l -> p x = true -> p y = true -> after x y = false) ->
  filter p (JsArray.insert comparefn x l) = filter p (x :: l).
Proof.
  induction l as [|y l IH]; intros T; simpl.
  - reflexivity.
  - destruct (JsArray.sorts_after comparefn x y) eqn:S; [|reflexivity].
    simpl. rewrite IH by (intros z I; apply T; right; exact I). simpl.
    destruct (p x) eqn:Px, (p y) eqn:Py; try reflexivity.
    exfalso. specialize (T y (or_introl eq_refl) eq_refl Py).
    unfold after in T. congruence.
Qed.

(** Stability: elements that do not sort after one another keep their
    order. *)
Lemma sort_stable (p : A -> bool) (l : list A) :
  (forall x y, p x = true -> p y = true -> after x y = false) ->
  filter p (JsArray.stable_sort comparefn l) = filter p l.
Proof.
  intros T. induction l as [|x l IH]; simpl.
  - reflexivity.
  - rewrite filter_insert by (intros; apply T; assumption).
    simpl. rewrite IH. reflexivity.
Qed.

Lemma ascending_app (l1 l2 : list A) :
  JsArray.ascending_list comparefn (l1 ++ l2) <->
  JsArray.ascending_list comparefn l1 /\ JsArray.ascending_list comparefn l2 /\
  Forall (fun x => Forall (fun y => after y x = true) l2) l1.
Proof.
  induction l1 as [|x l1 IH]; simpl.
  - intuition.
  - rewrite Forall_app, IH. split.
    + intros ((F1 & F2) & A1 & A2 & F). repeat split; auto.
    + intros ((F1 & A1) & A2 & F). inversion F; subst. repeat split; auto.
Qed.

Lemma insert_up_at (x : A) (l1 l2 : list A) :
  Forall (fun y => after x y = true) l1 ->
  Forall (fun y => after x y = false) l2 ->
  insert_up x (l1 ++ l2) = l1 ++ x :: l2.
Proof.
  unfold insert_up. intros F1 F2. induction F1 as [|y l1 Ay F1 IH]; simpl.
  - destruct l2 as [|z l2]; simpl; [reflexivity|].
    inversion F2; subst. unfold after in *.
    destruct (JsArray.sorts_after comparefn x z); [discriminate|reflexivity].
  - unfold after in Ay. rewrite Ay, IH. reflexivity.
Qed.

Lemma insert_down_at (x : A) (l1 l2 : list A) :
  Forall (fun y => after y x = true) l1 ->
  Forall (fun y => after y x = false) l2 ->
  insert_down x (l1 ++ l2) = l1 ++ x :: l2.
Proof.
  unfold insert_down. intros F1 F2. induction F1 as [|y l1 Ay F1 IH]; simpl.
  - destruct l2 as [|z l2]; simpl; [reflexivity|].
    inversion F2; subst. unfold after, JsArray.sorts_after in *.
    match goal with
    | E : gt (comparefn z x) 0 = false |- _ => rewrite E
    end. reflexivity.
  - unfold after, JsArray.sorts_after in *. rewrite Ay, IH. reflexivity.
Qed.

(** An ascending list splits, for an element that ties with none of its
    elements, into those the element sorts after and those that sort after
    the element. *)
Lemma ascending_split (x : A) (l : list A) :
  JsArray.ascending_list comparefn l ->
  Forall (fun y => after x y = negb (after y x)) l ->
  (forall y z, In y l -> In z l ->
               after z y = true -> after y x = true -> after z x = true) ->
  exists l1 l2,
    l = l1 ++ l2 /\
    Forall (fun y => after x y = true) l1 /\
    Forall (fun y => after y x = true) l2.
Proof.
  induction l as [|y l IH]; simpl; intros Asc Tie Tr.
  - exists [], []. auto.
  - destruct Asc as [Fy Asc]. inversion Tie as [|? ? Ty Tl]; subst.
    destruct (after x y) eqn:Axy.
    + destruct (IH Asc Tl) as (l1 & l2 & E & F1 & F2).
      { intros u v Iu Iv. apply Tr; right; assumption. }
      exists (y :: l1), l2. subst l. auto.
    + exists [], (y :: l). split; [reflexivity|]. split; [constructor|].
      assert (Ayx : after y x = true)
        by (destruct (after y x); [reflexivity|discriminate]).
      constructor; [exact Ayx|].
      rewrite Forall_forall in *. intros z Iz.
      apply (Tr y z); auto.
Qed.

Lemma tie_free_head (x : A) (l : list A) :
  JsArray.tie_free comparefn (x :: l) = true ->
  Forall (fun y => after x y = negb (after y x)) l /\
  JsArray.tie_free comparefn l = true.
Proof.
  simpl. intros T. apply andb_true_iff in T. destruct T as [T1 T2].
  split; [|exact T2]. rewrite forallb_forall in T1. apply Forall_forall.
  intros y I. specialize (T1 y I). unfold after.
  destruct (JsArray.sorts_after comparefn x y),
           (JsArray.sorts_after comparefn y x); simpl in *; congruence.
Qed.

Lemma transitive_on_spec (l : list A) :
  JsArray.transitive_on comparefn l = true ->
  forall x y z, In x l -> In y l -> In z l ->
                after x y = true -> after y z = true -> after x z = true.
Proof.
  unfold JsArray.transitive_on. intros T x y z Ix Iy Iz Axy Ayz.
  rewrite forallb_forall in T. specialize (T x Ix).
  rewrite forallb_forall in T. specialize (T y Iy).
  rewrite forallb_forall in T. specialize (T z Iz).
  unfold after in *. rewrite Axy, Ayz in T. exact T.
Qed.

(** With no ties and a transitive comparison, sorting by the comparison
    with its arguments exchanged gives the reverse. *)
Lemma sort_exchanged_is_reverse (l : list A) :
  JsArray.tie_free comparefn l = true ->
  JsArray.transitive_on comparefn l = true ->
  JsArray.stable_sort (fun x y => comparefn y x) l = rev (JsArray.stable_sort comparefn l).
Proof.
  intros TF TR. pose proof (@transitive_on_spec l TR) as Tr. clear TR.
  assert (G : forall l', (forall x, In x l' -> In x l) ->
                         JsArray.tie_free comparefn l' = true ->
                         JsArray.stable_sort (fun x y => comparefn y x) l'
                         = rev (JsArray.stable_sort comparefn l') /\
                         JsArray.ascending_list comparefn (JsArray.stable_sort comparefn l')).
  { induction l' as [|x l' IH]; intros Sub T; simpl.
    - auto.
    - apply tie_free_head in T. destruct T as [Tx T].
      destruct (IH (fun y I => Sub y (or_intror I)) T) as [E Asc].
      set (sorted := JsArray.stable_sort comparefn l') in *.
      assert (P : Permutation sorted l') by apply sort_permutation.
      assert (Tx' : Forall (fun y => after x y = negb (after y x)) sorted).
      { rewrite Forall_forall in *. intros y I. apply Tx.
        apply (Permutation_in _ P), I. }
      assert (In' : forall y, In y sorted -> In y l).
      { intros y I. apply Sub. right. apply (Permutation_in _ P), I. }
      destruct (@ascending_split x sorted Asc Tx') as (l1 & l2 & S & F1 & F2).
      { intros y z Iy Iz Azy Ayx.
        apply (Tr z y x); auto. apply Sub. left. reflexivity. }
      assert (F2' : Forall (fun y => after x y = false) l2).
      { rewrite Forall_forall in *. intros y I.
        assert (Iy : In y sorted) by (rewrite S; apply in_or_app; auto).
        rewrite (Tx' y Iy), (F2 y I). reflexivity. }
      assert (F1' : Forall (fun y => after y x = false) (rev l1)).
      { rewrite Forall_forall in *. intros y I. apply in_rev in I.
        assert (Iy : In y sorted) by (rewrite S; apply in_or_app; auto).
        specialize (Tx' y Iy). rewrite (F1 y I) in Tx'.
        destruct (after y x); [discriminate|reflexivity]. }
      rewrite E. rewrite S. rewrite rev_app_distr.
      change (JsArray.insert (fun x0 y => comparefn y x0) x (rev l2 ++ rev l1))
        with (insert_down x (rev l2 ++ rev l1)).
      change (JsArray.insert comparefn x (l1 ++ l2)) with (insert_up x (l1 ++ l2)).
      rewrite insert_down_at; [|apply Forall_rev; exact F2|exact F1'].
      rewrite insert_up_at by assumption.
      split.
      + rewrite rev_app_distr. simpl. rewrite <- app_assoc. reflexivity.
      + rewrite S in Asc. apply ascending_app in Asc.
        destruct Asc as (A1 & A2 & A12).
        apply ascending_app. split; [exact A1|]. split.
        * simpl. auto.
        * rewrite Forall_forall in *. intros y I. constructor.
          -- apply F1, I.
          -- apply A12, I. }
  apply G; auto.
Qed.

End SortFacts.

(** ** The order of the sorted rows *)

Section SortOrder.
Variable A : Type.
Variable comparefn : A -> A -> float.

Let after : A -> A -> bool := JsArray.sorts_after comparefn.
Let in_order (x y : A) : Prop := after x y = false.

(** Inserting into a list in which no element sorts after a later one
    gives such a list, when [comparefn] orders the elements at hand. *)
Lemma insert_in_order (x : A) (l : list A) :
  (forall y, In y l -> after x y = true -> after y x = false) ->
  (forall y z, In y l -> In z l ->
               after x y = false -> after y z = false -> after x z = false) ->
  StronglySorted in_order l ->
  StronglySorted in_order (JsArray.insert comparefn x l).
Proof.
  induction l as [|y l IH]; intros As Nt S; simpl.
  - constructor; constructor.
  - inversion S as [|? ? S' F]; subst.
    destruct (JsArray.sorts_after comparefn x y) eqn:E.
    + constructor.
      * apply IH; [intros z I; apply As; right; exact I| |exact S'].
        intros u v Iu Iv. apply Nt; right; assumption.
      * apply (Permutation_Forall (Permutation_sym (insert_permutation comparefn x l))).
        constructor; [|exact F]. apply As; [left; reflexivity|exact E].
    + constructor; [exact S|]. constructor; [exact E|].
      rewrite Forall_forall in *. intros z I.
      apply (Nt y z); [left; reflexivity|right; exact I|exact E|apply F, I].
Qed.

Lemma sort_in_order (l : list A) :
  (forall x y, In x l -> In y l -> after x y = true -> after y x = false) ->
  (forall x y z, In x l -> In y l -> In z l ->
                 after x y = false -> after y z = false -> after x z = false) ->
  StronglySorted in_order (JsArray.stable_sort comparefn l).
Proof.
  induction l as [|x l IH]; intros As Nt; simpl.
  - constructor.
  - assert (P : forall y, In y (JsArray.stable_sort comparefn l) -> In y l)
      by (intros y; apply Permutation_in, sort_permutation).
    apply insert_in_order.
    + intros y I. apply As; [left; reflexivity|right; apply P, I].
    + intros y z Iy Iz. apply Nt; [left; reflexivity|right; apply P, Iy|right; apply P, Iz].
    + apply IH.
      * intros y z Iy Iz. apply As; right; assumption.
      * intros u v w Iu Iv Iw. apply Nt; right; assumption.
Qed.

End SortOrder.

Section NumberOrder.
Local Open Scope Z_scope.

Lemma SFltb_negatively_transitive a b c :
  b <> S754_nan ->
  SFltb b a = false -> SFltb c b = false -> SFltb c a = false.
Proof.
  unfold SFltb, SFcompare.
  destruct a as [s1|s1| |s1 m1 e1], b as [s2|s2| |s2 m2 e2], c as [s3|s3| |s3 m3 e3];
    intros N H1 H2; try (exfalso; apply N; reflexivity); try reflexivity;
    repeat match goal with s : bool |- _ => destruct s end;
    try discriminate H1; try discriminate H2; try reflexivity.
  all: change (Pos.compare_cont Eq m2 m1) with (Pos.compare m2 m1) in *;
       change (Pos.compare_cont Eq m3 m2) with (Pos.compare m3 m2) in *;
       change (Pos.compare_cont Eq m3 m1) with (Pos.compare m3 m1) in *.
  all: destruct (Z.compare_spec e2 e1); try discriminate H1;
    destruct (Z.compare_spec e3 e2); try discriminate H2;
    destruct (Z.compare_spec e3 e1); try reflexivity; try lia;
    subst;
    destruct (Pos.compare_spec m2 m1); try discriminate H1;
    destruct (Pos.compare_spec m3 m2); try discriminate H2;
    destruct (Pos.compare_spec m3 m1); try reflexivity; simpl in *;
    try discriminate; try lia.
Qed.

Lemma not_NaN (x : float) : PrimFloat.eqb x x = true -> Prim2SF x <> S754_nan.
Proof.
  rewrite FloatAxioms.eqb_spec. intros E Q. rewrite Q in E. discriminate E.
Qed.

(** Among numbers other than [NaN], not being above is transitive. *)
Lemma not_gt_transitive (x y z : float) :
  PrimFloat.eqb y y = true ->
  gt x y = false -> gt y z = false -> gt x z = false.
Proof.
  unfold gt. rewrite !FloatAxioms.ltb_spec. intros N A B.
  exact (@SFltb_negatively_transitive _ _ _ (not_NaN N) A B).
Qed.

Lemma gt_zero_truthy (x : float) : gt x 0 = true -> truthy_num x = true.
Proof.
  unfold gt, truthy_num.
  rewrite FloatAxioms.ltb_spec, !FloatAxioms.eqb_spec.
  change (Prim2SF 0) with (S754_zero false).
  destruct (Prim2SF x) as [s|s| |s m e]; try discriminate.
  - destruct s; [discriminate|reflexivity].
  - destruct s; [discriminate|]. intros _. unfold SFeqb.
    rewrite SFcompare_finite_refl. reflexivity.
Qed.

(** The number of a position below [2^63] is positive. *)
Lemma of_nat_positive (n : nat) :
  (0 < n)%nat -> Z.of_nat n < 2 ^ 63 -> gt (of_nat n) 0 = true.
Proof.
  intros P B. unfold gt, of_nat.
  rewrite FloatAxioms.ltb_spec, FloatAxioms.of_uint63_spec.
  change (Prim2SF 0) with (S754_zero false).
  rewrite binary_normalize_sign by lia.
  rewrite Uint63.of_Z_spec. change wB with (2 ^ 63).
  rewrite Z.mod_small by lia. apply Z.ltb_lt. lia.
Qed.

Lemma truthy_is_number (x : float) : truthy_num x = true -> PrimFloat.eqb x x = true.
Proof. unfold truthy_num. intros T. apply andb_true_iff in T. apply T. Qed.

Lemma num_or_truthy (v : option float) (d : float) :
  truthy_num d = true -> truthy_num (num_or v d) = true.
Proof.
  intros T. destruct v as [x|]; simpl; [|exact T].
  destruct (truthy_num x) eqn:X; [exact X|exact T].
Qed.

Lemma num_or_zero_is_number (v : option float) :
  PrimFloat.eqb (num_or v 0) (num_or v 0) = true.
Proof.
  destruct v as [x|]; simpl; [|reflexivity].
  destruct (truthy_num x) eqn:X; [apply truthy_is_number, X|reflexivity].
Qed.

End NumberOrder.

Lemma in_order_weaken (A : Type) (R R' : A -> A -> Prop) (l : list A) :
  (forall x y, R x y -> R' x y) -> StronglySorted R l -> StronglySorted R' l.
Proof.
  intros W S. induction S as [|x l S IH F]; constructor; [exact IH|].
  rewrite Forall_forall in *. intros y I. apply W, F, I.
Qed.

(** ** The table: sorting and pagination *)

Lemma same_value_eq (a b : jsval) : same_value a b = true -> a = b.
Proof.
  destruct a, b; simpl; try discriminate; try reflexivity; intros E.
  - apply Bool.eqb_prop in E. congruence.
  - apply FloatAxioms.Leibniz.eqb_spec in E. congruence.
  - apply String.eqb_eq in E. congruence.
Qed.

Lemma string_ltb_irreflexive (s : string) : String.ltb s s = false.
Proof.
  unfold String.ltb. pose proof (String.compare_antisym s s) as E.
  destruct (String.compare s s); try reflexivity; discriminate.
Qed.

Lemma string_ltb_transitive (a b c : string) :
  String.ltb a b = true -> String.ltb b c = true -> String.ltb a c = true.
Proof.
  unfold String.ltb. intros AB BC.
  assert (L1 : String_as_OT.cmp a b = Lt)
    by (unfold String_as_OT.cmp; destruct (String.compare a b); congruence).
  assert (L2 : String_as_OT.cmp b c = Lt)
    by (unfold String_as_OT.cmp; destruct (String.compare b c); congruence).
  apply String_as_OT.cmp_lt in L1. apply String_as_OT.cmp_lt in L2.
  pose proof (String_as_OT.lt_trans _ _ _ L1 L2) as L.
  apply String_as_OT.cmp_lt in L. unfold String_as_OT.cmp in L.
  rewrite L. reflexivity.
Qed.

Lemma string_ltb_asymmetric (a b : string) :
  String.ltb a b = true -> String.ltb b a = false.
Proof.
  unfold String.ltb. rewrite (String.compare_antisym a b).
  destruct (String.compare b a); simpl; congruence.
Qed.

Lemma string_ltb_total (a b : string) :
  a <> b -> xorb (String.ltb a b) (String.ltb b a) = true.
Proof.
  unfold String.ltb. rewrite (String.compare_antisym a b). intros N.
  destruct (String.compare b a) eqn:C; simpl; try reflexivity.
  exfalso. apply N. symmetry. apply String.compare_eq_iff, C.
Qed.

Lemma sort_ext (A : Type) (f g : A -> A -> float) (l : list A) :
  (forall x y, f x y = g x y) -> JsArray.stable_sort f l = JsArray.stable_sort g l.
Proof.
  intros E. induction l as [|x l IH]; simpl; [reflexivity|].
  rewrite IH. generalize (JsArray.stable_sort g l). intros s.
  induction s as [|y s IHs]; simpl; [reflexivity|].
  unfold JsArray.sorts_after. rewrite E, IHs. reflexivity.
Qed.

(** A comparison function with its arguments exchanged. *)
Section Exchanged.
Variable A : Type.
Variable comparefn : A -> A -> float.

Lemma consistent_exchanged (l : list A) :
  JsArray.consistent comparefn l ->
  JsArray.consistent (fun x y => comparefn y x) l.
Proof.
  intros C a b c Ia Ib Ic.
  destruct (C a b c Ia Ib Ic) as (R & _).
  destruct (C b a a Ib Ia Ia) as (_ & S & _).
  destruct (C c b a Ic Ib Ia) as (_ & _ & T & B & G).
  unfold JsArray.ties, JsArray.sorts_before, JsArray.sorts_after in *.
  repeat split; auto.
Qed.

Lemma consistent_transitive_on (l : list A) :
  JsArray.consistent comparefn l -> JsArray.transitive_on comparefn l = true.
Proof.
  intros C. unfold JsArray.transitive_on.
  apply forallb_forall. intros x Ix. apply forallb_forall. intros y Iy.
  apply forallb_forall. intros z Iz.
  destruct (C x y z Ix Iy Iz) as (_ & _ & _ & _ & G).
  destruct (JsArray.sorts_after comparefn x y); [|reflexivity].
  destruct (JsArray.sorts_after comparefn y z); [|reflexivity].
  rewrite G; reflexivity.
Qed.

Lemma consistent_ext (g : A -> A -> float) (l : list A) :
  (forall x y, g x y = comparefn x y) ->
  JsArray.consistent comparefn l -> JsArray.consistent g l.
Proof.
  intros E C a b c Ia Ib Ic. specialize (C a b c Ia Ib Ic).
  unfold JsArray.ties, JsArray.sorts_before, JsArray.sorts_after in *.
  rewrite !E. exact C.
Qed.

End Exchanged.

Section Table.
Context `{Host}.
Local Open Scope float_scope.

(** Descending order compares as ascending order with the two booths
    exchanged. *)
Lemma compare_booths_descending (col : string) (a b : booth) :
  compare_booths {| column := col; ascending := false |} a b
  = compare_booths {| column := col; ascending := true |} b a.
Proof.
  unfold compare_booths. simpl.
  destruct (as_number (get_field a col)), (as_number (get_field b col));
    reflexivity.
Qed.

(** Two booths with the same value in the sorted column tie. *)
Lemma same_value_ties (currentSort : sort_state) (a b : booth) :
  get_field a (column currentSort) = get_field b (column currentSort) ->
  JsArray.sorts_after (compare_booths currentSort) a b = false.
Proof.
  intros E. unfold JsArray.sorts_after, compare_booths. cbv zeta. rewrite E.
  destruct (as_number (get_field b (column currentSort))) as [x|].
  - destruct (ascending currentSort); apply sub_self_not_positive.
  - rewrite string_lt_irreflexive.
    destruct (ascending currentSort); reflexivity.
Qed.

(** On two numbers the comparison is their order. *)
Lemma numeric_sorts_after (col : string) (a b : booth) (x y : float) :
  as_number (get_field a col) = Some x ->
  as_number (get_field b col) = Some y ->
  JsArray.sorts_after (compare_booths {| column := col; ascending := true |}) a b
  = gt x y.
Proof.
  intros A B. unfold JsArray.sorts_after, compare_booths. simpl. rewrite A, B.
  apply sub_positive.
Qed.

Lemma numeric_sorts_before (col : string) (a b : booth) (x y : float) :
  as_number (get_field a col) = Some x ->
  as_number (get_field b col) = Some y ->
  JsArray.sorts_before (compare_booths {| column := col; ascending := true |}) a b
  = gt y x.
Proof.
  intros A B. unfold JsArray.sorts_before, compare_booths. simpl. rewrite A, B.
  apply sub_negative.
Qed.

(** On a column that holds no number the comparison is that of the text
    keys. *)
Lemma text_sorts_after (col : string) (a b : booth) :
  as_number (get_field a col) = None ->
  JsArray.sorts_after (compare_booths {| column := col; ascending := true |}) a b
  = string_lt (text_key (get_field b col)) (text_key (get_field a col)).
Proof.
  intros N. unfold JsArray.sorts_after, compare_booths. simpl. rewrite N.
  destruct (string_lt (text_key (get_field a col)) (text_key (get_field b col))) eqn:L.
  - rewrite (string_lt_asymmetric _ _ L). reflexivity.
  - destruct (string_lt (text_key (get_field b col)) (text_key (get_field a col)));
      reflexivity.
Qed.

Lemma text_sorts_before (col : string) (a b : booth) :
  as_number (get_field a col) = None ->
  JsArray.sorts_before (compare_booths {| column := col; ascending := true |}) a b
  = string_lt (text_key (get_field a col)) (text_key (get_field b col)).
Proof.
  intros N. unfold JsArray.sorts_before, compare_booths. simpl. rewrite N.
  destruct (string_lt (text_key (get_field a col)) (text_key (get_field b col)));
    [reflexivity|].
  destruct (string_lt (text_key (get_field b col)) (text_key (get_field a col)));
    reflexivity.
Qed.

Lemma number_column_values (col : string) (l : list booth) :
  number_column col l = true ->
  forall b, In b l ->
            exists x, as_number (get_field b col) = Some x /\ PrimFloat.eqb x x = true.
Proof.
  unfold number_column. intros T b I. rewrite forallb_forall in T.
  specialize (T b I). destruct (as_number (get_field b col)) as [x|];
    [eauto|discriminate].
Qed.

Lemma text_column_Forall (col : string) (l : list booth) :
  text_column col l = true ->
  Forall (fun b => as_number (get_field b col) = None) l.
Proof.
  unfold text_column, is_number. intros T. rewrite forallb_forall in T.
  apply Forall_forall. intros b I. specialize (T b I).
  destruct (as_number (get_field b col)); [discriminate|reflexivity].
Qed.

(** On a column of numbers other than [NaN] the comparison is
    consistent. *)
Lemma number_column_consistent (col : string) (l : list booth) :
  number_column col l = true ->
  JsArray.consistent (compare_booths {| column := col; ascending := true |}) l.
Proof.
  intros C a b c Ia Ib Ic.
  pose proof (number_column_values col l C) as N.
  destruct (N a Ia) as (x & X & Nx), (N b Ib) as (y & Y & Ny),
           (N c Ic) as (z & Z & Nz).
  unfold JsArray.ties.
  rewrite (numeric_sorts_after col a a X X), (numeric_sorts_before col a a X X),
    (numeric_sorts_after col a b X Y), (numeric_sorts_before col a b X Y),
    (numeric_sorts_after col b a Y X), (numeric_sorts_before col b a Y X),
    (numeric_sorts_after col b c Y Z), (numeric_sorts_before col b c Y Z),
    (numeric_sorts_after col a c X Z), (numeric_sorts_before col a c X Z).
  assert (Rx : gt x x = false).
  { destruct (gt x x) eqn:G; [|reflexivity].
    rewrite (gt_asymmetric G) in G. discriminate G. }
  split; [rewrite Rx; reflexivity|]. split; [|split; [|split]].
  - intros T. rewrite andb_comm. exact T.
  - intros T1 T2.
    apply andb_true_iff in T1. destruct T1 as [T1 T1'].
    apply andb_true_iff in T2. destruct T2 as [T2 T2'].
    apply negb_true_iff in T1, T1', T2, T2'.
    rewrite (not_gt_transitive Ny T1' T2'), (not_gt_transitive Ny T2 T1).
    reflexivity.
  - intros B1 B2. exact (gt_transitive B2 B1).
  - intros G1 G2. exact (gt_transitive G1 G2).
Qed.

(** On a column without numbers the comparison is consistent. *)
Lemma text_column_consistent (col : string) (l : list booth) :
  text_column col l = true ->
  JsArray.consistent (compare_booths {| column := col; ascending := true |}) l.
Proof.
  intros C a b c Ia Ib Ic.
  apply text_column_Forall in C. rewrite Forall_forall in C.
  unfold JsArray.ties. rewrite !text_sorts_after, !text_sorts_before by auto.
  set (ka := text_key (get_field a col)).
  set (kb := text_key (get_field b col)).
  set (kc := text_key (get_field c col)).
  split; [rewrite string_lt_irreflexive; reflexivity|]. split; [|split; [|split]].
  - intros T. rewrite andb_comm. exact T.
  - intros T1 T2.
    apply andb_true_iff in T1. destruct T1 as [T1 T1'].
    apply andb_true_iff in T2. destruct T2 as [T2 T2'].
    apply negb_true_iff in T1, T1', T2, T2'.
    rewrite (string_lt_or_equal _ _ T1 T1'), (string_lt_or_equal _ _ T2 T2').
    rewrite string_lt_irreflexive. reflexivity.
  - apply string_lt_transitive.
  - intros G1 G2. exact (string_lt_transitive _ _ _ G2 G1).
Qed.

(** The comparison is consistent, in either direction, on a column of
    numbers other than [NaN] and on a column without numbers. *)
Lemma homogeneous_column_consistent (col : string) (l : list booth) (dir : bool) :
  (number_column col l || text_column col l)%bool = true ->
  JsArray.consistent (compare_booths {| column := col; ascending := dir |}) l.
Proof.
  intros C.
  assert (Asc : JsArray.consistent
                  (compare_booths {| column := col; ascending := true |}) l).
  { apply orb_true_iff in C. destruct C as [C|C].
    - apply number_column_consistent, C.
    - apply text_column_consistent, C. }
  destruct dir; [exact Asc|].
  apply (consistent_ext
           (comparefn := fun x y =>
                           compare_booths {| column := col; ascending := true |} y x)).
  - intros x y. apply compare_booths_descending.
  - apply consistent_exchanged, Asc.
Qed.

(** The rows of the table are the filtered booths; under a consistent
    comparison they are in the stable sorted order. *)
Lemma sorted_booths_permutation (currentSort : sort_state) (filtered : list booth) :
  Permutation (sorted_booths currentSort filtered) filtered.
Proof. apply array_sort_permutation. Qed.

Lemma sorted_booths_length (currentSort : sort_state) (filtered : list booth) :
  List.length (sorted_booths currentSort filtered) = List.length filtered.
Proof. apply Permutation_length, sorted_booths_permutation. Qed.

Lemma sorted_booths_stable (currentSort : sort_state) (filtered : list booth) :
  JsArray.consistent (compare_booths currentSort) filtered ->
  sorted_booths currentSort filtered
  = JsArray.stable_sort (compare_booths currentSort) filtered.
Proof. apply array_sort_consistent. Qed.

Lemma text_column_tie_free (col : string) (l : list booth) :
  Forall (fun b => as_number (get_field b col) = None) l ->
  NoDup (map (fun b => text_key (get_field b col)) l) ->
  JsArray.tie_free (compare_booths {| column := col; ascending := true |}) l = true.
Proof.
  induction l as [|x l IH]; intros T N; simpl; [reflexivity|].
  inversion T as [|? ? Tx Tl]; subst. inversion N as [|? ? Nx Nl]; subst.
  apply andb_true_iff. split; [|apply IH; assumption].
  apply forallb_forall. intros y Iy. rewrite Forall_forall in Tl.
  rewrite !text_sorts_after by auto.
  assert (D : text_key (get_field y col) <> text_key (get_field x col)).
  { intros E. apply Nx. rewrite <- E.
    apply (in_map (fun b => text_key (get_field b col))), Iy. }
  pose proof (string_lt_total D) as Tot.
  destruct (string_lt (text_key (get_field y col)) (text_key (get_field x col))) eqn:L.
  - rewrite (string_lt_asymmetric _ _ L). reflexivity.
  - simpl in Tot. rewrite Tot. reflexivity.
Qed.

Lemma tie_free_reverses (col : string) (filtered : list booth) :
  JsArray.tie_free (compare_booths {| column := col; ascending := true |})
                   filtered = true ->
  JsArray.consistent (compare_booths {| column := col; ascending := true |})
                     filtered ->
  sorted_booths {| column := col; ascending := false |} filtered
  = rev (sorted_booths {| column := col; ascending := true |} filtered).
Proof.
  intros TF C.
  rewrite (sorted_booths_stable C).
  rewrite sorted_booths_stable.
  - rewrite <- (sort_exchanged_is_reverse _ _ TF (consistent_transitive_on C)).
    apply sort_ext. intros x y. apply compare_booths_descending.
  - apply (consistent_ext
             (comparefn := fun x y =>
                             compare_booths {| column := col; ascending := true |} y x)).
    + intros x y. apply compare_booths_descending.
    + apply consistent_exchanged, C.
Qed.

(** C3.  Under a comparison that is consistent on the filtered booths, as
    ECMAScript requires of it for the order to be defined, sorting the
    table is stable: for any value, the booths that hold it in the sorted
    column come out in the order they went in, in either direction.  When
    moreover no two booths tie under the comparison of the sorted column
    (numbers by their difference, anything else as lower-cased text, a
    falsy value as the empty text), the descending order is the exact
    reverse of the ascending order.  The comparison is consistent, in
    either direction, on a column of numbers other than [NaN] and on a
    column without numbers. *)
Theorem table_sort_stable_and_reversible :
  forall (col : string) (filtered : list booth),
    (forall (asc : bool) (v : jsval),
        JsArray.consistent (compare_booths {| column := col; ascending := asc |})
                           filtered ->
        filter (fun b => same_value (get_field b col) v)
               (sorted_booths {| column := col; ascending := asc |} filtered)
        = filter (fun b => same_value (get_field b col) v) filtered) /\
    (JsArray.tie_free (compare_booths {| column := col; ascending := true |})
                      filtered = true ->
     JsArray.consistent (compare_booths {| column := col; ascending := true |})
                        filtered ->
     sorted_booths {| column := col; ascending := false |} filtered
     = rev (sorted_booths {| column := col; ascending := true |} filtered)) /\
    ((number_column col filtered || text_column col filtered)%bool = true ->
     forall asc : bool,
       JsArray.consistent (compare_booths {| column := col; ascending := asc |})
                          filtered).
Proof.
  intros col filtered. split; [|split].
  - intros asc v C. rewrite (sorted_booths_stable C). apply sort_stable.
    intros x y Px Py. apply same_value_ties. simpl.
    apply same_value_eq in Px. apply same_value_eq in Py. congruence.
  - apply tie_free_reverses.
  - intros C asc. apply homogeneous_column_consistent, C.
Qed.

Lemma firstn_add (A : Type) (a c : nat) (l : list A) :
  firstn (a + c) l = firstn a l ++ firstn c (skipn a l).
Proof.
  revert l. induction a as [|a IH]; intros l; simpl.
  - reflexivity.
  - destruct l as [|x l]; simpl.
    + rewrite firstn_nil. reflexivity.
    + rewrite IH. reflexivity.
Qed.

Lemma firstn_min_length (A : Type) (n : nat) (l : list A) :
  firstn (Nat.min n (List.length l)) l = firstn n l.
Proof.
  revert l. induction n as [|n IH]; intros l; simpl.
  - reflexivity.
  - destruct l as [|x l]; simpl; [reflexivity|]. rewrite IH. reflexivity.
Qed.

(** Page [k + 1] holds the next 50 rows after the first [50 * k]. *)
Lemma page_booths_succ (sorted : list booth) (k : nat) :
  page_booths sorted (Z.of_nat (S k)) = firstn 50 (skipn (50 * k) sorted).
Proof.
  unfold page_booths, JsArray.slice, JsArray.relative_index, ITEMS_PER_PAGE.
  cbv zeta.
  set (len := List.length sorted).
  replace ((Z.of_nat (S k) - 1) * 50)%Z with (Z.of_nat (50 * k)) by lia.
  destruct (Z.ltb_spec (Z.of_nat (50 * k)) 0); [lia|].
  destruct (Z.ltb_spec (Z.of_nat (50 * k) + 50) 0); [lia|].
  destruct (Nat.le_gt_cases (50 * k) len) as [L|G].
  - replace (Z.to_nat (Z.min (Z.of_nat (50 * k)) (Z.of_nat len))) with (50 * k)%nat
      by lia.
    replace (Z.to_nat (Z.min (Z.of_nat (50 * k) + 50) (Z.of_nat len)
                       - Z.min (Z.of_nat (50 * k)) (Z.of_nat len)))
      with (Nat.min 50 (List.length (skipn (50 * k) sorted)))
      by (rewrite length_skipn; fold len; lia).
    apply firstn_min_length.
  - rewrite !(skipn_all2 sorted) by (fold len; lia).
    rewrite !firstn_nil. reflexivity.
Qed.

Lemma pages_concat (sorted : list booth) (m : nat) :
  List.concat (map (fun p => page_booths sorted p) (map Z.of_nat (seq 1 m)))
  = firstn (50 * m) sorted.
Proof.
  induction m as [|m IH].
  - reflexivity.
  - rewrite seq_S, !map_app, concat_app, IH.
    cbn [map List.concat Nat.add].
    rewrite page_booths_succ, app_nil_r.
    replace (50 * S m)%nat with (50 * m + 50)%nat by lia.
    rewrite firstn_add. reflexivity.
Qed.

Lemma ceil_div_bounds (n : Z) :
  (0 <= n)%Z ->
  (ITEMS_PER_PAGE * (ceil_div n ITEMS_PER_PAGE - 1) < n
   <= ITEMS_PER_PAGE * ceil_div n ITEMS_PER_PAGE)%Z.
Proof.
  unfold ceil_div, ITEMS_PER_PAGE. intros N.
  pose proof (Z.div_mod (- n) 50 ltac:(lia)) as D.
  pose proof (Z.mod_pos_bound (- n) 50 ltac:(lia)) as B.
  lia.
Qed.

Lemma length_concat_sum (A : Type) (ls : list (list A)) :
  List.length (List.concat ls) = list_sum (map (@List.length A) ls).
Proof.
  induction ls as [|l ls IH]; simpl; [reflexivity|].
  rewrite length_app, IH. reflexivity.
Qed.

(** C4.  For the booths of [filteredBooths], whatever the page shown: the
    page count is the ceiling of their number over 50; pages 1 to the page
    count, one after the other, are the sorted booths, so that their lengths
    add up to the number of booths; a page beyond the last is empty; and
    with no booth, page 1 is empty and the page count is 0. *)
Theorem pagination_covers_the_table :
  forall s : state,
    let n := List.length (filteredBooths s) in
    let table := fun p => renderTable (set_currentPage p s) in
    let pages := totalPages (snd (table 1%Z)) in
    (forall p, totalPages (snd (table p)) = pages) /\
    (ITEMS_PER_PAGE * (pages - 1) < Z.of_nat n <= ITEMS_PER_PAGE * pages)%Z /\
    List.concat (map (fun p => fst (table p)) (page_numbers pages))
    = sorted_booths (currentSort s) (filteredBooths s) /\
    list_sum (map (fun p => List.length (fst (table p))) (page_numbers pages)) = n /\
    (forall p, (pages < p)%Z -> fst (table p) = []) /\
    (filteredBooths s = [] -> fst (table 1%Z) = [] /\ pages = 0%Z).
Proof.
  intros s n table pages.
  set (sorted := sorted_booths (currentSort s) (filteredBooths s)).
  assert (L : List.length sorted = n) by apply sorted_booths_length.
  assert (Pg : pages = ceil_div (Z.of_nat n) ITEMS_PER_PAGE).
  { unfold pages, table, renderTable. simpl. fold sorted. rewrite L. reflexivity. }
  assert (Tp : forall p, fst (table p) = page_booths sorted p) by reflexivity.
  pose proof (@ceil_div_bounds (Z.of_nat n) ltac:(lia)) as B. rewrite <- Pg in B.
  assert (C : List.concat (map (fun p => fst (table p)) (page_numbers pages)) = sorted).
  { unfold page_numbers.
    rewrite (map_ext _ (fun p => page_booths sorted p)) by exact Tp.
    rewrite pages_concat. apply firstn_all2. unfold ITEMS_PER_PAGE in B. lia. }
  split; [|split; [|split; [|split; [|split]]]].
  - intros p. unfold table, renderTable. simpl. fold sorted. rewrite L.
    symmetry. exact Pg.
  - exact B.
  - exact C.
  - rewrite <- L, <- C, length_concat_sum, map_map. reflexivity.
  - intros p G. rewrite Tp.
    unfold page_booths, JsArray.slice, JsArray.relative_index. cbv zeta.
    rewrite L. unfold ITEMS_PER_PAGE in *.
    destruct (Z.ltb_spec ((p - 1) * 50) 0); [lia|].
    destruct (Z.ltb_spec ((p - 1) * 50 + 50) 0); [lia|].
    replace (Z.to_nat (Z.min ((p - 1) * 50 + 50) (Z.of_nat n)
                       - Z.min ((p - 1) * 50) (Z.of_nat n))) with 0%nat by lia.
    reflexivity.
  - intros E. assert (N : n = 0%nat) by (unfold n; rewrite E; reflexivity).
    split.
    + rewrite Tp. destruct sorted; [reflexivity|simpl in L; lia].
    + unfold ITEMS_PER_PAGE in B. lia.
Qed.

End Table.

(** ** Calls in flight *)

Section Loads.
Context `{Host}.

Lemma run_app (events1 events2 : list event) (x : session) :
  run (events1 ++ events2) x = run events2 (run events1 x).
Proof. unfold run. apply fold_left_app. Qed.

(** C9.  Whatever calls came before and in whatever order they were made,
    when the fetch of a pending call settles with a file that holds a list
    of booths, the record set and what is derived from it are that file's:
    its booths, numbered and categorised, all of them in [filteredBooths],
    its cells, the default sort and no category filter.  The record set is
    thus that of the call whose fetch settled last.  Of the state before,
    the selected row stays, and so does the page number when [updateStats]
    throws; otherwise the page is 1. *)
Theorem last_settled_load_wins :
  forall (events : list event) (x : session) (n : nat)
         (name : jsval) (raws : list raw_booth) (sm : option Summary.t),
    In n (pending (run events x)) ->
    let c := {| constituency_name := name; booths_of := Some raws; summary := sm |} in
    let after := app (run (events ++ [Settle n (Body c)]) x) in
    currentConstituency after = Some c /\
    allBooths after = process_booths raws /\
    filteredBooths after = process_booths raws /\
    geohashAreas after = computeGeohashAreas (process_booths raws) /\
    currentSort after = {| column := "booth_no"; ascending := true |} /\
    activeFilter after = None /\
    selectedBoothId after = selectedBoothId (app (run events x)) /\
    (updateStats_throws after = false -> currentPage after = 1%Z) /\
    (updateStats_throws after = true ->
     currentPage after = currentPage (app (run events x))).
Proof.
  intros events x n name raws sm P c after.
  assert (E : after = snd (loadConstituency (Body c) (app (run events x)))).
  { unfold after. rewrite run_app. simpl.
    assert (X : existsb (Nat.eqb n) (pending (run events x)) = true).
    { apply existsb_exists. exists n. split; [exact P|apply Nat.eqb_refl]. }
    rewrite X. reflexivity. }
  rewrite (@loadConstituency_body _ c raws _ eq_refl) in E.
  destruct (updateStats_throws (loaded c raws (app (run events x)))) eqn:U;
    rewrite E; repeat split; try reflexivity;
    intros U'; unfold updateStats_throws in U, U'; simpl in U, U'; congruence.
Qed.

End Loads.

(** ** The cells as a grouping of the booths by geohash *)

Section MapFacts.
Variable V : Type.

Lemma has_keys (k : string) (m : list (string * V)) :
  JsMap.has k m = existsb (String.eqb k) (JsMap.keys m).
Proof.
  unfold JsMap.has. induction m as [|[k' v] m IH]; simpl; [reflexivity|].
  destruct (String.eqb k k'); [reflexivity|exact IH].
Qed.

Lemma keys_update (k : string) (f : V -> V) (m : list (string * V)) :
  JsMap.keys (JsMap.update k f m) = JsMap.keys m.
Proof.
  induction m as [|[k' v] m IH]; simpl; [reflexivity|].
  destruct (String.eqb k k'); simpl; [reflexivity|]. rewrite IH. reflexivity.
Qed.

Lemma keys_set_new (k : string) (v : V) (m : list (string * V)) :
  JsMap.has k m = false -> JsMap.keys (JsMap.set k v m) = JsMap.keys m ++ [k].
Proof.
  unfold JsMap.has. induction m as [|[k' w] m IH]; simpl; [reflexivity|].
  destruct (String.eqb k k'); [discriminate|]. intros A. simpl.
  rewrite (IH A). reflexivity.
Qed.

Lemma get_update (k q : string) (f : V -> V) (m : list (string * V)) :
  JsMap.get q (JsMap.update k f m)
  = if String.eqb q k then option_map f (JsMap.get k m) else JsMap.get q m.
Proof.
  induction m as [|[k' v] m IH]; simpl.
  - destruct (String.eqb q k); reflexivity.
  - destruct (String.eqb_spec k k') as [<-|N]; simpl.
    + destruct (String.eqb q k); reflexivity.
    + rewrite IH. destruct (String.eqb_spec q k) as [->|N'].
      * destruct (String.eqb_spec k k'); [contradiction|reflexivity].
      * reflexivity.
Qed.

Lemma get_set_new (k q : string) (v : V) (m : list (string * V)) :
  JsMap.has k m = false ->
  JsMap.get q (JsMap.set k v m)
  = if String.eqb q k then Some v else JsMap.get q m.
Proof.
  unfold JsMap.has. induction m as [|[k' w] m IH]; simpl.
  - intros _. destruct (String.eqb q k); reflexivity.
  - destruct (String.eqb_spec k k') as [<-|N]; [discriminate|]. intros A. simpl.
    rewrite (IH A). destruct (String.eqb_spec q k) as [->|N'].
    + destruct (String.eqb_spec k k'); [contradiction|reflexivity].
    + reflexivity.
Qed.

Lemma get_some_in (k : string) (v : V) (m : list (string * V)) :
  JsMap.get k m = Some v -> In (k, v) m.
Proof.
  induction m as [|[k' w] m IH]; simpl; [discriminate|].
  destruct (String.eqb_spec k k') as [<-|N].
  - intros E. left. congruence.
  - intros E. right. exact (IH E).
Qed.

Lemma in_get_some (k : string) (v : V) (m : list (string * V)) :
  NoDup (JsMap.keys m) -> In (k, v) m -> JsMap.get k m = Some v.
Proof.
  induction m as [|[k' w] m IH]; simpl; intros N I; [contradiction|].
  apply NoDup_cons_iff in N. destruct N as [Nk N].
  destruct I as [E|I].
  - inversion E; subst. rewrite String.eqb_refl. reflexivity.
  - destruct (String.eqb_spec k k') as [<-|D]; [|exact (IH N I)].
    exfalso. apply Nk. apply (in_map fst) in I. exact I.
Qed.

End MapFacts.

Section Cells.
Context `{Host}.

Lemma set_add_in (h k : string) (hs : list string) :
  In k (set_add h hs) <-> k = h \/ In k hs.
Proof.
  unfold set_add. destruct (existsb (String.eqb h) hs) eqn:E.
  - split; [auto|]. intros [->|I]; [|exact I].
    apply existsb_exists in E. destruct E as (x & I & Q).
    apply String.eqb_eq in Q. subst x. exact I.
  - rewrite in_app_iff. simpl. intuition.
Qed.

Lemma set_add_NoDup (h : string) (hs : list string) :
  NoDup hs -> NoDup (set_add h hs).
Proof.
  intros N. unfold set_add. destruct (existsb (String.eqb h) hs) eqn:E; [exact N|].
  apply NoDup_app; [exact N|repeat constructor; intros []|].
  intros x I [Q|[]]. subst x.
  assert (T : existsb (String.eqb h) hs = true)
    by (apply existsb_exists; exists h; split; [exact I|apply String.eqb_refl]).
  congruence.
Qed.

Lemma visibleHashes_snoc (l : list booth) (b : booth) :
  visibleHashes (l ++ [b])
  = match booth_hash b with
    | Some h => set_add h (visibleHashes l)
    | None => visibleHashes l
    end.
Proof. unfold visibleHashes. rewrite fold_left_app. reflexivity. Qed.

Lemma visibleHashes_in (l : list booth) (k : string) :
  In k (visibleHashes l) <-> exists b, In b l /\ booth_hash b = Some k.
Proof.
  induction l as [|b l IH] using rev_ind.
  - simpl. split; [intros []|intros (b & [] & _)].
  - rewrite visibleHashes_snoc. split.
    + destruct (booth_hash b) as [h|] eqn:B.
      * intros I. apply set_add_in in I. destruct I as [->|I].
        -- exists b. split; [apply in_or_app; right; left; reflexivity|exact B].
        -- apply IH in I. destruct I as (b' & I & E).
           exists b'. split; [apply in_or_app; left; exact I|exact E].
      * intros I. apply IH in I. destruct I as (b' & I & E).
        exists b'. split; [apply in_or_app; left; exact I|exact E].
    + intros (b' & I & E). apply in_app_or in I. destruct I as [I|[<-|[]]].
      * assert (J : In k (visibleHashes l)) by (apply IH; eauto).
        destruct (booth_hash b); [apply set_add_in; auto|exact J].
      * rewrite E. apply set_add_in. auto.
Qed.

Lemma visibleHashes_NoDup (l : list booth) : NoDup (visibleHashes l).
Proof.
  induction l as [|b l IH] using rev_ind.
  - constructor.
  - rewrite visibleHashes_snoc. destruct (booth_hash b); [|exact IH].
    apply set_add_NoDup, IH.
Qed.

Lemma filter_snoc (A : Type) (p : A -> bool) (l : list A) (x : A) :
  filter p (l ++ [x]) = filter p l ++ if p x then [x] else [].
Proof. rewrite filter_app. simpl. destruct (p x); reflexivity. Qed.

Lemma no_booth_with_hash (l : list booth) (h : string) :
  ~ In h (visibleHashes l) -> filter (hash_is h) l = [].
Proof.
  intros N. induction l as [|b l IH]; simpl; [reflexivity|].
  assert (Nl : ~ In h (visibleHashes l)).
  { intros I. apply N. apply visibleHashes_in in I. destruct I as (b' & I & E).
    apply visibleHashes_in. exists b'. split; [right; exact I|exact E]. }
  rewrite (IH Nl). unfold hash_is. destruct (booth_hash b) as [h'|] eqn:B;
    [|reflexivity].
  destruct (String.eqb_spec h' h) as [->|D]; [|reflexivity].
  exfalso. apply N. apply visibleHashes_in. exists b. split; [left; reflexivity|exact B].
Qed.

Lemma grouped_step (l : list booth) (areas : list (string * Area.t)) (b : booth) :
  grouped l areas -> grouped (l ++ [b]) (place_booth areas b).
Proof.
  intros [K G]. unfold place_booth, grouped. rewrite visibleHashes_snoc.
  destruct (booth_hash b) as [h|] eqn:B.
  - assert (Hb : forall k, hash_is k b = String.eqb h k)
      by (intros k; unfold hash_is; rewrite B; reflexivity).
    destruct (JsMap.has h areas) eqn:A; simpl.
    + split.
      * rewrite keys_update, K. unfold set_add.
        rewrite <- K, <- has_keys, A. reflexivity.
      * intros k area. rewrite get_update, filter_snoc, Hb.
        rewrite (String.eqb_sym h k).
        destruct (String.eqb_spec k h) as [->|D].
        -- destruct (JsMap.get h areas) as [a|] eqn:E; [|discriminate].
           intros Q. inversion Q; subst area. simpl.
           destruct (G h a E) as (G1 & G2 & G3). rewrite G3. auto.
        -- intros E. destruct (G k area E) as (G1 & G2 & G3).
           rewrite app_nil_r. auto.
    + assert (N : ~ In h (visibleHashes l)).
      { intros I. rewrite <- K in I. rewrite has_keys in A.
        assert (T : existsb (String.eqb h) (JsMap.keys areas) = true)
          by (apply existsb_exists; exists h; split; [exact I|apply String.eqb_refl]).
        congruence. }
      split.
      * rewrite keys_update, keys_set_new by exact A. rewrite K. unfold set_add.
        rewrite <- K, <- has_keys, A. reflexivity.
      * intros k area. rewrite get_update, !get_set_new by exact A.
        rewrite String.eqb_refl, filter_snoc, Hb, (String.eqb_sym h k).
        destruct (String.eqb_spec k h) as [->|D].
        -- simpl. intros Q. inversion Q; subst area. simpl.
           rewrite (no_booth_with_hash l h N). auto.
        -- intros E. destruct (G k area E) as (G1 & G2 & G3).
           rewrite app_nil_r. auto.
  - split; [exact K|]. intros k area E. destruct (G k area E) as (G1 & G2 & G3).
    rewrite filter_snoc. unfold hash_is at 2. rewrite B, app_nil_r. auto.
Qed.

Lemma fold_left_snoc (A B : Type) (f : A -> B -> A) (l : list B) (x : B) (a : A) :
  fold_left f (l ++ [x]) a = f (fold_left f l a) x.
Proof. rewrite fold_left_app. reflexivity. Qed.

Lemma placed_grouped (l : list booth) : grouped l (fold_left place_booth l []).
Proof.
  induction l as [|b l IH] using rev_ind.
  - split; [reflexivity|]. intros k area E. discriminate E.
  - rewrite fold_left_snoc. apply grouped_step, IH.
Qed.

Lemma keys_finished (areas : list (string * Area.t)) :
  JsMap.keys (map (fun entry => (fst entry, finish_area (snd entry))) areas)
  = JsMap.keys areas.
Proof. unfold JsMap.keys. rewrite map_map. reflexivity. Qed.

Lemma get_finished (k : string) (areas : list (string * Area.t)) :
  JsMap.get k (map (fun entry => (fst entry, finish_area (snd entry))) areas)
  = option_map finish_area (JsMap.get k areas).
Proof.
  induction areas as [|[k' a] areas IH]; simpl; [reflexivity|].
  destruct (String.eqb k k'); [reflexivity|exact IH].
Qed.

Lemma computed_grouped (all : list booth) : grouped all (computeGeohashAreas all).
Proof.
  destruct (placed_grouped all) as [K G].
  unfold computeGeohashAreas. cbv zeta. split.
  - rewrite keys_finished. exact K.
  - intros k area. rewrite get_finished.
    destruct (JsMap.get k (fold_left place_booth all [])) as [a|] eqn:E;
      [|discriminate].
    simpl. intros Q. inversion Q; subst area. simpl. exact (G k a E).
Qed.

End Cells.

(** ** The handlers and the globals *)

Section Handlers.
Context `{Host}.

Ltac run_handler :=
  cbv beta iota zeta delta
    [handle stat_card_click total_card_click applyFilters prev_page_click
     next_page_click sort_header_click filterByGeohash selectBooth bind modify
     get_state renderTable_stmt renderGeohashAreas_stmt updateStats ret throw];
  repeat (match goal with
          | |- context [if ?c then _ else _] => destruct c eqn:?
          | |- context [match JsMap.get ?h ?m with _ => _ end] =>
              destruct (JsMap.get h m) eqn:?
          end; cbv beta iota).

Lemma length_process_booths (raws : list raw_booth) :
  List.length (process_booths raws) = List.length raws.
Proof.
  unfold process_booths. generalize 0%nat.
  induction raws as [|r raws IH]; intros from; simpl; [reflexivity|].
  rewrite IH. reflexivity.
Qed.

Lemma ids_process_booths (raws : list raw_booth) :
  map id (process_booths raws) = seq 0 (List.length (process_booths raws)).
Proof.
  rewrite length_process_booths. unfold process_booths. apply ids_map_index.
Qed.

(** How a load can end: nothing assigned, the file alone, or the booths and
    what is derived from them, with the page when [updateStats] returned. *)
Lemma load_cases (r : response) (s : state) :
  snd (loadConstituency r s) = s \/
  (exists c, snd (loadConstituency r s) = set_currentConstituency (Some c) s) \/
  (exists c raws,
      r = Body c /\ booths_of c = Some raws /\
      snd (loadConstituency r s)
      = if updateStats_throws (loaded c raws s) then loaded c raws s
        else set_currentPage 1 (loaded c raws s)).
Proof.
  destruct r as [| | |c]; try (left; reflexivity).
  destruct (booths_of c) as [raws|] eqn:B.
  - right. right. exists c, raws. split; [reflexivity|]. split; [exact B|].
    apply loadConstituency_body, B.
  - right. left. exists c.
    cbv beta iota zeta delta [loadConstituency try_catch load_body bind modify throw].
    rewrite B. reflexivity.
Qed.

Lemma loaded_consistent (c : constituency) (raws : list raw_booth) (s : state) :
  (1 <= currentPage s)%Z ->
  consistent (loaded c raws s) /\ consistent (set_currentPage 1 (loaded c raws s)).
Proof.
  intros P. unfold consistent. simpl.
  assert (K : exists keep, process_booths raws = filter keep (process_booths raws)).
  { exists (fun _ => true). symmetry. apply filter_all. reflexivity. }
  pose proof (ids_process_booths raws) as I.
  repeat split; try assumption; lia.
Qed.

Lemma handle_consistent (a : action) (s : state) :
  consistent s -> consistent (handle a s).
Proof.
  intros (G & I & K & P).
  assert (All : exists keep, allBooths s = filter keep (allBooths s)).
  { exists (fun _ => true). symmetry. apply filter_all. reflexivity. }
  destruct a as [f v q| |v q| | |col|h|b|r];
    try (run_handler; unfold consistent; simpl;
         repeat split; try assumption; try (eexists; reflexivity); lia).
  simpl. destruct (load_cases r s) as [E|[(c & E)|(c & raws & _ & _ & E)]];
    rewrite E.
  - unfold consistent. auto.
  - unfold consistent. simpl. auto.
  - destruct (loaded_consistent c raws s P) as [C1 C2].
    destruct (updateStats_throws (loaded c raws s)); assumption.
Qed.

Lemma initial_consistent : consistent initial_state.
Proof.
  unfold consistent. simpl.
  split; [reflexivity|split; [reflexivity|split; [|lia]]].
  exists (fun _ => true). reflexivity.
Qed.

Lemma handle_all_snoc (actions : list action) (a : action) (s : state) :
  handle_all (actions ++ [a]) s = handle a (handle_all actions s).
Proof. unfold handle_all. rewrite fold_left_app. reflexivity. Qed.

Lemma reachable_consistent (actions : list action) :
  consistent (handle_all actions initial_state).
Proof.
  induction actions as [|a actions IH] using rev_ind.
  - apply initial_consistent.
  - rewrite handle_all_snoc. apply handle_consistent, IH.
Qed.

(** *** The cells and the overlay *)

Lemma key_has_value (V : Type) (k : string) (m : list (string * V)) :
  In k (JsMap.keys m) -> exists v, JsMap.get k m = Some v.
Proof.
  intros I.
  assert (T : JsMap.has k m = true).
  { rewrite has_keys. apply existsb_exists. exists k.
    split; [exact I|apply String.eqb_refl]. }
  unfold JsMap.has in T. destruct (JsMap.get k m) as [v|]; [|discriminate].
  exists v. reflexivity.
Qed.

Lemma value_has_key (V : Type) (k : string) (v : V) (m : list (string * V)) :
  JsMap.get k m = Some v -> In k (JsMap.keys m).
Proof.
  intros E. apply get_some_in in E. apply (in_map fst) in E. exact E.
Qed.

(** Building the popup of a computed cell throws. *)
Lemma computed_popup_throws (all : list booth) (k : string) (area : Area.t) :
  JsMap.get k (computeGeohashAreas all) = Some area -> popup_throws area = true.
Proof.
  unfold computeGeohashAreas. cbv zeta. rewrite get_finished.
  destruct (JsMap.get k (fold_left place_booth all [])) as [a|] eqn:E;
    [|discriminate].
  simpl. intros Q. inversion Q; subst area.
  pose proof (placed_no_turnout all) as F. rewrite Forall_forall in F.
  assert (T : Area.avg_turnout_change a = None).
  { apply F. apply get_some_in in E. apply (in_map snd) in E. exact E. }
  unfold popup_throws. simpl. rewrite T. reflexivity.
Qed.

Lemma no_hash_no_coordinates (l : list booth) :
  visibleHashes l = [] -> existsb has_coordinates l = false.
Proof.
  intros E. destruct (existsb has_coordinates l) eqn:X; [|reflexivity].
  apply existsb_exists in X. destruct X as (b & I & C).
  rewrite has_coordinates_hash in C.
  destruct (booth_hash b) as [h|] eqn:B; [|discriminate].
  assert (J : In h (visibleHashes l)) by (apply visibleHashes_in; eauto).
  rewrite E in J. destruct J.
Qed.

Lemma some_hash_some_coordinates (l : list booth) (h : string) :
  In h (visibleHashes l) -> existsb has_coordinates l = true.
Proof.
  intros I. apply visibleHashes_in in I. destruct I as (b & I & B).
  apply existsb_exists. exists b. split; [exact I|].
  rewrite has_coordinates_hash, B. reflexivity.
Qed.

(** With the cells computed from [allBooths] and the filtered booths among
    them, the overlay stops at the first cell. *)
Lemma overlay_of_computed_cells (s : state) :
  geohashAreas s = computeGeohashAreas (allBooths s) ->
  (forall b, In b (filteredBooths s) -> In b (allBooths s)) ->
  renderGeohashAreas s = ([], existsb has_coordinates (filteredBooths s)).
Proof.
  intros G Sub. unfold renderGeohashAreas.
  destruct (visibleHashes (filteredBooths s)) as [|h rest] eqn:V; simpl.
  - rewrite (no_hash_no_coordinates _ V). reflexivity.
  - assert (I : In h (visibleHashes (filteredBooths s)))
      by (rewrite V; left; reflexivity).
    rewrite (some_hash_some_coordinates _ _ I).
    assert (K : In h (JsMap.keys (geohashAreas s))).
    { rewrite G. destruct (computed_grouped (allBooths s)) as [-> _].
      apply visibleHashes_in in I. destruct I as (b & Ib & B).
      apply visibleHashes_in. exists b. split; [apply Sub, Ib|exact B]. }
    destruct (key_has_value _ _ K) as (area & E). rewrite E.
    rewrite G in E. rewrite (computed_popup_throws _ _ E). reflexivity.
Qed.

Lemma selection_is_among (s : state) :
  (exists keep, filteredBooths s = filter keep (allBooths s)) ->
  forall b, In b (filteredBooths s) -> In b (allBooths s).
Proof. intros (keep & ->) b I. apply filter_In in I. apply I. Qed.

(** Selecting by the identifiers of the selected booths selects the same
    booths. *)
Lemma filter_by_ids (all : list booth) (p : booth -> bool) :
  NoDup (map id all) ->
  filter (fun b => existsb (Nat.eqb (id b)) (map id (filter p all))) all
  = filter p all.
Proof.
  intros N. apply filter_ext_in. intros b I.
  destruct (p b) eqn:P.
  - apply existsb_exists. exists (id b). split; [|apply Nat.eqb_refl].
    apply in_map. apply filter_In. auto.
  - destruct (existsb (Nat.eqb (id b)) (map id (filter p all))) eqn:X;
      [|reflexivity].
    apply existsb_exists in X. destruct X as (i & Ii & Q).
    apply Nat.eqb_eq in Q. subst i.
    apply in_map_iff in Ii. destruct Ii as (b' & Q & I').
    apply filter_In in I'. destruct I' as [I' P'].
    rewrite (same_id_same_booth all b' b N I' I Q) in P'. congruence.
Qed.

Lemma consistent_NoDup_ids (s : state) :
  consistent s -> NoDup (map id (allBooths s)).
Proof. intros (_ & I & _). rewrite I. apply seq_NoDup. Qed.

Lemma computed_totals (all : list booth) (area : Area.t) :
  In area (JsMap.values (computeGeohashAreas all)) -> totals_are_sums area.
Proof.
  unfold computeGeohashAreas. cbv zeta. rewrite values_finished.
  intros I. apply in_map_iff in I. destruct I as (a & <- & I).
  pose proof (placed_totals all) as F. rewrite Forall_forall in F.
  exact (F a I).
Qed.

(** X1.  [computeGeohashAreas] groups the booths by geohash: the keys of
    the map are the geohashes of the booths that pass the coordinate guard,
    each once, in the order they first occur in [allBooths]; the cell of a
    key carries the key as its [hash], the box of the key as its [bounds],
    as its [booths] the booths with that geohash, in the order of
    [allBooths], and as its three vote totals the sums over these booths, a
    missing or falsy count adding 0; and looking a booth's geohash up gives
    the cell that holds the booth. *)
Theorem cells_group_the_booths_by_geohash :
  forall all : list booth,
    let areas := computeGeohashAreas all in
    JsMap.keys areas = visibleHashes all /\
    NoDup (JsMap.keys areas) /\
    (forall k, In k (JsMap.keys areas) <->
               exists b, In b all /\ booth_hash b = Some k) /\
    (forall k area,
        In (k, area) areas ->
        JsMap.get k areas = Some area /\
        Area.hash area = k /\
        Area.bounds area = geohash_decode_bbox k /\
        Area.booths area = filter (hash_is k) all /\
        Area.dmk_votes area = sum_votes dmk_votes (filter (hash_is k) all) /\
        Area.aiadmk_votes area = sum_votes aiadmk_votes (filter (hash_is k) all) /\
        Area.others_votes area = sum_votes others_votes (filter (hash_is k) all)) /\
    (forall b k,
        In b all -> booth_hash b = Some k ->
        exists area, JsMap.get k areas = Some area /\ In b (Area.booths area)).
Proof.
  intros all areas. destruct (computed_grouped all) as [K G]. fold areas in K, G.
  assert (N : NoDup (JsMap.keys areas)) by (rewrite K; apply visibleHashes_NoDup).
  split; [exact K|]. split; [exact N|]. split; [|split].
  - intros k. rewrite K. apply visibleHashes_in.
  - intros k area I. pose proof (in_get_some _ _ _ N I) as E.
    split; [exact E|]. destruct (G k area E) as (G1 & G2 & G3).
    split; [exact G1|]. split; [exact G2|]. split; [exact G3|].
    rewrite <- G3. apply (computed_totals all area).
    apply (in_map snd) in I. exact I.
  - intros b k I B.
    assert (J : In k (JsMap.keys areas))
      by (rewrite K; apply visibleHashes_in; eauto).
    destruct (key_has_value _ _ J) as (area & E). exists area.
    split; [exact E|]. destruct (G k area E) as (_ & _ & ->).
    apply filter_In. split; [exact I|]. unfold hash_is. rewrite B.
    apply String.eqb_refl.
Qed.

(** X2.  Whatever has been loaded and clicked, [renderGeohashAreas] puts no
    cell on the map: it returns without an exception when no filtered booth
    passes the coordinate guard, and otherwise throws while building the
    popup of the first cell. *)
Theorem overlay_is_never_drawn :
  forall actions : list action,
    let s := handle_all actions initial_state in
    fst (renderGeohashAreas s) = [] /\
    snd (renderGeohashAreas s) = existsb has_coordinates (filteredBooths s).
Proof.
  intros actions s.
  destruct (reachable_consistent actions) as (G & _ & K & _). fold s in G, K.
  rewrite (overlay_of_computed_cells s G (selection_is_among s K)).
  split; reflexivity.
Qed.

(** X3.  [filterByGeohash] on the key of a cell leaves in [filteredBooths]
    exactly the booths of that cell, in their order, of which there is at
    least one, and shows page 1; on any other string it changes nothing. *)
Theorem cell_click_shows_the_cell :
  forall (actions : list action) (hash : string),
    let s := handle_all actions initial_state in
    match JsMap.get hash (geohashAreas s) with
    | Some area =>
        filteredBooths (handle (CellClick hash) s) = Area.booths area /\
        Area.booths area <> [] /\
        currentPage (handle (CellClick hash) s) = 1%Z
    | None => filterByGeohash hash s = (Some tt, s)
    end.
Proof.
  intros actions hash s.
  pose proof (reachable_consistent actions) as C. fold s in C.
  pose proof (consistent_NoDup_ids C) as N. destruct C as (G & _).
  destruct (JsMap.get hash (geohashAreas s)) as [area|] eqn:E.
  - assert (F : filteredBooths (handle (CellClick hash) s)
                = filter (fun b => existsb (Nat.eqb (id b)) (map id (Area.booths area)))
                         (allBooths s) /\
                currentPage (handle (CellClick hash) s) = 1%Z).
    { run_handler; try discriminate;
        repeat match goal with
               | Q : Some _ = Some _ |- _ => inversion Q; clear Q; subst
               end; split; reflexivity. }
    destruct F as [F P]. rewrite F, P.
    pose proof (value_has_key _ _ E) as J.
    rewrite G in E, J.
    destruct (computed_grouped (allBooths s)) as [K Gr].
    destruct (Gr hash area E) as (_ & _ & B). rewrite B.
    split; [apply filter_by_ids, N|]. split; [|reflexivity].
    rewrite K in J. apply visibleHashes_in in J. destruct J as (b & I & Hb).
    intros Q.
    assert (M : In b (filter (hash_is hash) (allBooths s))).
    { apply filter_In. split; [exact I|]. unfold hash_is. rewrite Hb.
      apply String.eqb_refl. }
    rewrite Q in M. destruct M.
  - cbv beta iota zeta delta [filterByGeohash bind get_state ret].
    rewrite E. reflexivity.
Qed.

(** X4.  Whatever has been loaded and clicked, also when a load or a
    handler stopped on an exception: [geohashAreas] holds the cells of
    [allBooths]; the identifiers of [allBooths] are the positions 0, 1, ...;
    [filteredBooths] is a selection of [allBooths] in its order; and the page
    number is at least 1. *)
Theorem globals_stay_consistent :
  forall actions : list action,
    let s := handle_all actions initial_state in
    geohashAreas s = computeGeohashAreas (allBooths s) /\
    map id (allBooths s) = seq 0 (List.length (allBooths s)) /\
    (exists keep, filteredBooths s = filter keep (allBooths s)) /\
    (1 <= currentPage s)%Z.
Proof. intros actions. exact (reachable_consistent actions). Qed.

(** *** The page number *)

Ltac order_facts :=
  repeat match goal with
         | E : (_ <? _)%Z = true |- _ => apply Z.ltb_lt in E
         | E : (_ <? _)%Z = false |- _ => apply Z.ltb_ge in E
         | E : (_ =? _)%Z = true |- _ => apply Z.eqb_eq in E
         | E : (_ =? _)%Z = false |- _ => apply Z.eqb_neq in E
         end.

Lemma handle_page_in_range (a : action) (s : state) :
  page_in_range s ->
  (forall c raws,
      a = LoadSettled (Body c) -> booths_of c = Some raws ->
      updateStats_throws (loaded c raws s) = false) ->
  page_in_range (handle a s).
Proof.
  unfold page_in_range. intros P L.
  destruct a as [f v q| |v q| | |col|h|b|r];
    try (clear L; run_handler; simpl; order_facts; lia).
  simpl. destruct (load_cases r s) as [E|[(c & E)|(c & raws & R & B & E)]];
    rewrite E; simpl; try exact P.
  rewrite (L c raws (f_equal LoadSettled R) B). simpl. lia.
Qed.

(** X5.  A page number that is one of the pages of [filteredBooths] (or 1
    when there is none) is still one after any handler and after any load,
    except a load that stops in [updateStats], which has replaced
    [filteredBooths] and not yet reset the page. *)
Theorem page_stays_in_range :
  forall (a : action) (s : state),
    page_in_range s ->
    (forall c raws,
        a = LoadSettled (Body c) -> booths_of c = Some raws ->
        updateStats_throws (loaded c raws s) = false) ->
    page_in_range (handle a s).
Proof. exact handle_page_in_range. Qed.

Lemma shown_pages (s : state) :
  snd (renderTable s)
  = updatePagination (currentPage s) (List.length (filteredBooths s)).
Proof. unfold renderTable. simpl. rewrite sorted_booths_length. reflexivity. Qed.

Lemma page_differs (p : Z) (s : state) :
  p <> currentPage s -> set_currentPage p s <> s.
Proof. intros N E. apply N. apply (f_equal currentPage) in E. exact E. Qed.

(** X6.  While the page number is in range, the two page buttons are
    disabled exactly when their handlers do nothing; an enabled button
    moves the page by one and keeps it in range. *)
Theorem page_buttons_match_their_handlers :
  forall s : state,
    page_in_range s ->
    let shown := snd (renderTable s) in
    (prev_disabled shown = true <-> handle PrevPageClick s = s) /\
    (next_disabled shown = true <-> handle NextPageClick s = s) /\
    (prev_disabled shown = false ->
     handle PrevPageClick s = set_currentPage (currentPage s - 1) s /\
     page_in_range (handle PrevPageClick s)) /\
    (next_disabled shown = false ->
     handle NextPageClick s = set_currentPage (currentPage s + 1) s /\
     page_in_range (handle NextPageClick s)).
Proof.
  intros s P shown. unfold shown. rewrite shown_pages.
  unfold updatePagination. cbn [prev_disabled next_disabled].
  assert (Prev : handle PrevPageClick s
                 = if (1 <? currentPage s)%Z
                   then set_currentPage (currentPage s - 1) s else s)
    by (run_handler; reflexivity).
  assert (Next : handle NextPageClick s
                 = if (currentPage s
                       <? ceil_div (Z.of_nat (List.length (filteredBooths s)))
                                   ITEMS_PER_PAGE)%Z
                   then set_currentPage (currentPage s + 1) s else s)
    by (run_handler; reflexivity).
  pose proof (@ceil_div_bounds (Z.of_nat (List.length (filteredBooths s)))
                               ltac:(lia)) as B.
  unfold page_in_range in *. rewrite Prev, Next. clear Prev Next.
  set (total := ceil_div (Z.of_nat (List.length (filteredBooths s))) ITEMS_PER_PAGE)
    in *.
  unfold ITEMS_PER_PAGE in B.
  destruct (Z.ltb_spec 1 (currentPage s)) as [L1|L1];
    destruct (Z.ltb_spec (currentPage s) total) as [L2|L2];
    destruct (Z.eqb_spec (currentPage s) 1) as [E1|E1];
    destruct (Z.eqb_spec (currentPage s) total) as [E2|E2];
    destruct (Z.eqb_spec total 0) as [E3|E3];
    try lia; cbn [orb];
    (split; [|split; [|split]]);
    try (split; [reflexivity|]); try (split; [discriminate|]);
    try (intros _; reflexivity); try discriminate;
    try (intros Q; exfalso; revert Q; apply page_differs; lia);
    try (intros _; split;
         [reflexivity
         |cbn [currentPage filteredBooths set_currentPage]; fold total; lia]).
  all: cbn [currentPage filteredBooths set_currentPage]; fold total; lia.
Qed.

(** *** The selected row *)

(** X7.  Only a click on a row changes [selectedBoothId]; in particular a
    load, of the same or of another constituency, leaves the selection of
    the earlier table in place. *)
Theorem only_a_row_click_changes_the_selection :
  forall (a : action) (s : state),
    selectedBoothId (handle a s)
    = match a with
      | RowClick b => Some (id b)
      | _ => selectedBoothId s
      end.
Proof.
  intros a s.
  destruct a as [f v q| |v q| | |col|h|b|r]; try (run_handler; reflexivity).
  simpl. destruct (load_cases r s) as [E|[(c & E)|(c & raws & _ & _ & E)]];
    rewrite E; try reflexivity.
  destruct (updateStats_throws (loaded c raws s)); reflexivity.
Qed.

(** *** The stat cards and the filters *)

Lemma category_counts (all : list booth) :
  (count_category "strong-dmk" all + count_category "strong-admk" all
   + count_category "swing" all = List.length all)%nat.
Proof.
  unfold count_category. induction all as [|b all IH]; simpl; [reflexivity|].
  destruct (category_simple b); simpl; lia.
Qed.

Lemma stat_card_click_globals (f v q : string) (s : state) :
  let chosen :=
    if match activeFilter s with
       | Some g => String.eqb g f
       | None => false
       end
    then None else Some f in
  activeFilter (handle (StatCardClick f v q) s) = chosen /\
  filteredBooths (handle (StatCardClick f v q) s)
  = filter_booths v q chosen (allBooths s) /\
  allBooths (handle (StatCardClick f v q) s) = allBooths s /\
  currentPage (handle (StatCardClick f v q) s) = 1%Z.
Proof.
  cbv zeta.
  destruct (match activeFilter s with
            | Some g => String.eqb g f
            | None => false
            end) eqn:E;
    run_handler; try discriminate; repeat split; reflexivity.
Qed.

Lemma category_filter_alone (c : category) (all : list booth) :
  filter_booths "all" "" (Some (category_name c)) all
  = filter (fun b => String.eqb (category_name (category_simple b)) (category_name c))
           all.
Proof.
  unfold filter_booths. rewrite toLowerCase_empty.
  apply filter_ext. intros b. unfold passes_filters.
  destruct c, (category_simple b); reflexivity.
Qed.

(** X8.  The three counts on the stat cards add up to the number of booths
    of the constituency, whatever is filtered.  A click on a stat card that
    is not the active one makes its category the active filter, and with no
    village and no search text chosen the table then holds as many booths as
    the card shows; a click on the active card removes the category filter.
    A click on the total card leaves the globals as filtering with no
    category, village "all" and no search text does. *)
Theorem stat_cards_count_the_booths :
  forall s : state,
    (dmk_won (shown_counts s) + aiadmk_won (shown_counts s)
     + swing_count (shown_counts s) = List.length (allBooths s))%nat /\
    (forall c : category,
        activeFilter s <> Some (category_name c) ->
        let s' := handle (StatCardClick (category_name c) "all" "") s in
        activeFilter s' = Some (category_name c) /\
        List.length (filteredBooths s')
        = count_category (category_name c) (allBooths s) /\
        shown_counts s' = shown_counts s) /\
    (forall f v q,
        activeFilter s = Some f ->
        let s' := handle (StatCardClick f v q) s in
        activeFilter s' = None /\
        filteredBooths s' = filter_booths v q None (allBooths s)) /\
    handle TotalCardClick s
    = handle (FiltersChanged "all" "") (set_activeFilter None s).
Proof.
  intros s. split; [apply category_counts|]. split; [|split].
  - intros c N s'.
    destruct (stat_card_click_globals (category_name c) "all" "" s)
      as (A & F & L & _).
    fold s' in A, F, L.
    assert (E : match activeFilter s with
                | Some g => String.eqb g (category_name c)
                | None => false
                end = false).
    { destruct (activeFilter s) as [g|]; [|reflexivity].
      destruct (String.eqb_spec g (category_name c)); [|reflexivity].
      exfalso. apply N. congruence. }
    rewrite E in A, F. split; [exact A|]. split.
    + rewrite F, category_filter_alone. reflexivity.
    + unfold shown_counts. rewrite L. reflexivity.
  - intros f v q E s'.
    destruct (stat_card_click_globals f v q s) as (A & F & _).
    fold s' in A, F. rewrite E, String.eqb_refl in A, F. auto.
  - assert (R : filter_booths "all" "" None (allBooths s) = allBooths s)
      by (unfold filter_booths; rewrite toLowerCase_empty;
          apply filter_all; reflexivity).
    run_handler; cbn [allBooths activeFilter set_activeFilter]; rewrite R;
      reflexivity.
Qed.

Lemma ascii_lower_of_upper (q : string) :
  ascii_toLowerCase (ascii_toUpperCase q) = ascii_toLowerCase q.
Proof.
  unfold ascii_toLowerCase, ascii_toUpperCase.
  induction q as [|c q IH]; cbn [map_string]; [reflexivity|].
  rewrite IH. f_equal.
  destruct c as [[] [] [] [] [] [] [] []]; reflexivity.
Qed.

Lemma ascii_upper_is_ascii (q : string) :
  is_ascii q = true -> is_ascii (ascii_toUpperCase q) = true.
Proof.
  unfold is_ascii, ascii_toUpperCase.
  induction q as [|c q IH]; cbn [map_string list_ascii_of_string forallb];
    [reflexivity|].
  intros A. apply andb_true_iff in A. destruct A as [A1 A2].
  rewrite (IH A2), andb_true_r. revert A1.
  destruct c as [[] [] [] [] [] [] [] []]; vm_compute; auto.
Qed.

(** On a search text of ASCII characters, upper-casing changes nothing of
    what [toLowerCase] returns. *)
Lemma lower_of_upper (q : string) :
  is_ascii q = true -> toLowerCase (toUpperCase q) = toLowerCase q.
Proof.
  intros A. rewrite (toUpperCase_ascii q A).
  rewrite (toLowerCase_ascii _ (ascii_upper_is_ascii q A)).
  rewrite (toLowerCase_ascii q A). apply ascii_lower_of_upper.
Qed.

Lemma passes_filters_split (v q : string) (f : option string) (b : booth) :
  passes_filters v q f b
  = (passes_filters v "" None b && passes_filters "all" "" f b
     && passes_filters "all" q None b)%bool.
Proof.
  unfold passes_filters.
  change (String.eqb "all" "all") with true.
  change (truthy_str "") with false. cbn [negb andb truthy_ostr].
  destruct (negb (String.eqb v "all")
            && negb match village (source b) with
                    | Some v0 => String.eqb v0 v
                    | None => false
                    end)%bool; [reflexivity|].
  destruct (truthy_ostr f
            && negb match f with
                    | Some f0 => String.eqb (category_name (category_simple b)) f0
                    | None => false
                    end)%bool; [reflexivity|].
  destruct (truthy_str q); [|reflexivity].
  destruct (search_match q b); reflexivity.
Qed.

Lemma filter_booths_nested (p1 p2 p3 : booth -> bool) (all : list booth) :
  filter p1 (filter p2 (filter p3 all))
  = filter (fun b => (p1 b && p2 b && p3 b)%bool) all.
Proof.
  induction all as [|b all IH]; simpl; [reflexivity|].
  destruct (p3 b); simpl; [|rewrite IH, !andb_false_r; reflexivity].
  destruct (p2 b); simpl; [|rewrite IH, !andb_false_r; reflexivity].
  destruct (p1 b); simpl; rewrite IH; reflexivity.
Qed.

(** X9.  The three filters are independent: filtering by village, category
    and search text at once keeps what filtering by each in turn keeps.  A
    kept booth is a booth of [allBooths] whose village is the chosen one
    unless "all" is chosen, and whose category is the active filter when
    that is a non-empty string, so that a filter naming no category keeps
    nothing.  A search text of ASCII characters is read without regard to
    its letter case. *)
Theorem filters_are_independent :
  forall (v q : string) (f : option string) (all : list booth),
    filter_booths v q f all
    = filter_booths v "" None
        (filter_booths "all" "" f (filter_booths "all" q None all)) /\
    (forall b,
        In b (filter_booths v q f all) ->
        In b all /\
        (v = "all"%string \/ village (source b) = Some v) /\
        (truthy_ostr f = true -> f = Some (category_name (category_simple b)))) /\
    (truthy_ostr f = true ->
     (forall c, f <> Some (category_name c)) ->
     filter_booths v q f all = []) /\
    (is_ascii q = true ->
     filter_booths v (toUpperCase q) f all = filter_booths v q f all).
Proof.
  intros v q f all.
  assert (K : forall b,
             In b (filter_booths v q f all) ->
             In b all /\
             (v = "all"%string \/ village (source b) = Some v) /\
             (truthy_ostr f = true -> f = Some (category_name (category_simple b)))).
  { intros b I. apply filter_In in I. destruct I as [I P]. split; [exact I|].
    unfold passes_filters in P. split.
    - destruct (String.eqb_spec v "all") as [E|N]; [left; exact E|right].
      cbn [negb andb] in P.
      destruct (village (source b)) as [w|]; [|discriminate].
      destruct (String.eqb_spec w v) as [Q|]; [rewrite Q; reflexivity|discriminate].
    - intros T. rewrite T in P.
      destruct (negb (String.eqb v "all")
                && negb match village (source b) with
                        | Some v0 => String.eqb v0 v
                        | None => false
                        end)%bool; [discriminate|].
      destruct f as [g|]; [|discriminate]. cbn [andb] in P.
      destruct (String.eqb_spec (category_name (category_simple b)) g) as [Q|];
        [rewrite Q; reflexivity|discriminate]. }
  split; [|split; [exact K|split]].
  - unfold filter_booths. rewrite toLowerCase_empty, filter_booths_nested.
    apply filter_ext. intros b. apply passes_filters_split.
  - intros T N. destruct (filter_booths v q f all) as [|b l] eqn:E; [reflexivity|].
    exfalso. destruct (K b (or_introl eq_refl)) as (_ & _ & C).
    exact (N (category_simple b) (C T)).
  - intros A. unfold filter_booths. rewrite (lower_of_upper q A). reflexivity.
Qed.

(** *** The sort headers *)

Lemma compare_booths_exchanged (col : string) (dir : bool) (a b : booth) :
  compare_booths {| column := col; ascending := negb dir |} a b
  = compare_booths {| column := col; ascending := dir |} b a.
Proof.
  destruct dir; cbn [negb].
  - apply compare_booths_descending.
  - symmetry. apply compare_booths_descending.
Qed.

(** X14.  A click on the header of the sorted column exchanges the two
    arguments of the comparison, and a second click restores the globals; a
    click on the header of another column sorts by that column, ascending;
    neither changes the filtered booths or the page number. *)
Theorem header_click_exchanges_the_comparison :
  forall (col : string) (s : state),
    let s' := handle (SortHeaderClick col) s in
    (column (currentSort s) = col ->
     (forall a b,
         compare_booths (currentSort s') a b = compare_booths (currentSort s) b a) /\
     handle (SortHeaderClick col) s' = s) /\
    (column (currentSort s) <> col ->
     currentSort s' = {| column := col; ascending := true |}) /\
    filteredBooths s' = filteredBooths s /\
    currentPage s' = currentPage s.
Proof.
  intros col s s'.
  assert (E : s' = set_currentSort
                     (if String.eqb (column (currentSort s)) col
                      then {| column := column (currentSort s);
                              ascending := negb (ascending (currentSort s)) |}
                      else {| column := col; ascending := true |}) s)
    by (unfold s'; run_handler; reflexivity).
  split; [|split; [|rewrite E; split; reflexivity]].
  - intros C. rewrite <- String.eqb_eq in C. rewrite C in E. split.
    + intros a b. rewrite E. cbn [currentSort set_currentSort].
      rewrite compare_booths_exchanged.
      destruct (currentSort s); reflexivity.
    + rewrite E. run_handler; cbn [currentSort set_currentSort column] in *;
        try congruence.
      destruct s as [c0 a0 f0 g0 p0 [c1 d1] i0 af]. cbn.
      rewrite Bool.negb_involutive. reflexivity.
  - intros C. rewrite E.
    destruct (String.eqb_spec (column (currentSort s)) col); [contradiction|].
    reflexivity.
Qed.

(** *** The colour of a cell *)

(** X15.  The colour looked up for a cell is that of its category for
    strong DMK and for swing; for strong ADMK the name left by [replace] is
    not a property of [COLORS], whose key is [aiadmk], and the colour is
    [undefined]. *)
Theorem admk_cells_have_no_colour :
  forall c : category,
    (area_color c = None <-> c = strong_admk) /\
    (area_color c = JsMap.get "aiadmk" COLORS -> False) /\
    match c with
    | strong_dmk => area_color c = JsMap.get "dmk" COLORS
    | strong_admk => replace "strong-" "" (category_name c) = "admk"%string
    | swing => area_color c = JsMap.get "swing" COLORS
    end.
Proof.
  intros c. destruct c; (split; [|split]); try reflexivity;
    try (split; discriminate); try discriminate.
  split; reflexivity.
Qed.

(** *** What a load logs *)

Lemma overlay_after_load (c : constituency) (raws : list raw_booth) (s : state) :
  snd (renderGeohashAreas (set_currentPage 1 (loaded c raws s)))
  = existsb has_coordinates (process_booths raws).
Proof.
  rewrite overlay_of_computed_cells; [reflexivity|reflexivity|].
  intros b I. exact I.
Qed.

(** How a load of a file that holds a list of booths ends. *)
Lemma load_with_booths (c : constituency) (raws : list raw_booth) (s : state) :
  booths_of c = Some raws ->
  loadConstituency (Body c) s
  = if updateStats_throws (loaded c raws s)
    then (Some false, loaded c raws s)
    else (Some (negb (existsb has_coordinates (process_booths raws))),
          set_currentPage 1 (loaded c raws s)).
Proof.
  intros B.
  cbv beta iota zeta delta [loadConstituency try_catch load_body bind modify
                            get_state updateStats renderTable_stmt
                            renderGeohashAreas_stmt ret throw].
  rewrite B.
  change (set_geohashAreas _ _) with (loaded c raws s).
  destruct (updateStats_throws (loaded c raws s)); [reflexivity|].
  rewrite overlay_after_load.
  destruct (existsb has_coordinates (process_booths raws)); reflexivity.
Qed.

(** C8.  A load whose fetch fails -- the request is rejected, the status is
    not OK, or the body is not JSON -- logs an error and leaves every global
    as it was.  A load that fails later logs an error and keeps what it had
    assigned: with a file that holds no list of booths, [currentConstituency]
    is the new file and every other global is as it was; when [updateStats]
    throws, the record set, the cells, the filter and the sort are the new
    file's and the page number is the old one; when the overlay throws, as
    it does with any booth that passes the coordinate guard, every global
    is the new file's. *)
Theorem failed_fetch_changes_nothing :
  forall s : state,
    loadConstituency NetworkError s = (Some false, s) /\
    loadConstituency HttpError s = (Some false, s) /\
    loadConstituency BodyNotJson s = (Some false, s) /\
    (forall c, booths_of c = None ->
               loadConstituency (Body c) s
               = (Some false, set_currentConstituency (Some c) s)) /\
    (forall c raws,
        booths_of c = Some raws ->
        updateStats_throws (loaded c raws s) = true ->
        loadConstituency (Body c) s = (Some false, loaded c raws s)) /\
    (forall c raws,
        booths_of c = Some raws ->
        updateStats_throws (loaded c raws s) = false ->
        existsb has_coordinates (process_booths raws) = true ->
        loadConstituency (Body c) s
        = (Some false, set_currentPage 1 (loaded c raws s))).
Proof.
  intros s. split; [|split; [|split; [|split; [|split]]]]; try reflexivity.
  - intros c B.
    cbv beta iota zeta delta [loadConstituency try_catch load_body bind modify throw].
    rewrite B. reflexivity.
  - intros c raws B U. rewrite (load_with_booths c s B), U. reflexivity.
  - intros c raws B U L. rewrite (load_with_booths c s B), U, L. reflexivity.
Qed.

(** X16.  A load of a file that holds a list of booths logs the load only
    when [updateStats] returns and no booth passes the coordinate guard;
    with a booth that passes it, the overlay throws after everything has
    been assigned and the table drawn, and the load logs an error. *)
Theorem load_is_logged_only_without_coordinates :
  forall (c : constituency) (raws : list raw_booth) (s : state),
    booths_of c = Some raws ->
    fst (loadConstituency (Body c) s)
    = Some (negb (updateStats_throws (loaded c raws s))
            && negb (existsb has_coordinates (process_booths raws)))%bool /\
    (updateStats_throws (loaded c raws s) = false ->
     snd (loadConstituency (Body c) s) = set_currentPage 1 (loaded c raws s)).
Proof.
  intros c raws s B. split.
  - cbv beta iota zeta delta [loadConstituency try_catch load_body bind modify
                              get_state updateStats renderTable_stmt
                              renderGeohashAreas_stmt ret throw].
    rewrite B.
    change (set_geohashAreas _ _) with (loaded c raws s).
    destruct (updateStats_throws (loaded c raws s)); [reflexivity|].
    rewrite overlay_after_load.
    destruct (existsb has_coordinates (process_booths raws)); reflexivity.
  - intros U. rewrite (loadConstituency_body c s B), U. reflexivity.
Qed.

End Handlers.

Section Rows.
Context `{Host}.
Local Open Scope float_scope.

Let asc (col : string) : booth -> booth -> bool :=
  JsArray.sorts_after (compare_booths {| column := col; ascending := true |}).

Lemma descending_sorts_after (col : string) (a b : booth) :
  JsArray.sorts_after (compare_booths {| column := col; ascending := false |}) a b
  = asc col b a.
Proof.
  unfold asc, JsArray.sorts_after. rewrite compare_booths_descending. reflexivity.
Qed.

(** On a column of numbers other than [NaN], and on a column without
    numbers, the comparison orders the booths: it is asymmetric, and not
    sorting after is transitive. *)
Lemma column_is_ordered (col : string) (l : list booth) :
  (number_column col l || text_column col l)%bool = true ->
  (forall a b, In a l -> In b l -> asc col a b = true -> asc col b a = false) /\
  (forall a b c, In a l -> In b l -> In c l ->
                 asc col a b = false -> asc col b c = false -> asc col a c = false).
Proof.
  intros C. apply orb_true_iff in C. destruct C as [C|C].
  - pose proof (number_column_values col l C) as N. split.
    + intros a b Ia Ib.
      destruct (N a Ia) as (x & X & _), (N b Ib) as (y & Y & _).
      unfold asc. rewrite (numeric_sorts_after col a b X Y),
                          (numeric_sorts_after col b a Y X).
      apply gt_asymmetric.
    + intros a b c Ia Ib Ic.
      destruct (N a Ia) as (x & X & _), (N b Ib) as (y & Y & Ny),
               (N c Ic) as (z & Z & _).
      unfold asc. rewrite (numeric_sorts_after col a b X Y),
                          (numeric_sorts_after col b c Y Z),
                          (numeric_sorts_after col a c X Z).
      apply not_gt_transitive, Ny.
  - apply text_column_Forall in C. rewrite Forall_forall in C. split.
    + intros a b Ia Ib. unfold asc. rewrite !text_sorts_after by auto.
      apply string_lt_asymmetric.
    + intros a b c Ia Ib Ic. unfold asc. rewrite !text_sorts_after by auto.
      intros BA CB. exact (string_not_lt_transitive _ _ _ BA CB).
Qed.

Lemma sorted_booths_in_order (currentSort : sort_state) (filtered : list booth) :
  (number_column (column currentSort) filtered
   || text_column (column currentSort) filtered)%bool = true ->
  StronglySorted
    (fun a b => JsArray.sorts_after (compare_booths currentSort) a b = false)
    (sorted_booths currentSort filtered).
Proof.
  destruct currentSort as [col dir]. cbn [column]. intros C.
  destruct (column_is_ordered col filtered C) as [As Nt].
  rewrite (sorted_booths_stable (homogeneous_column_consistent col filtered dir C)).
  apply sort_in_order.
  - intros a b Ia Ib. destruct dir.
    + apply As; assumption.
    + rewrite !descending_sorts_after. apply As; assumption.
  - intros a b c Ia Ib Ic. destruct dir.
    + apply Nt; assumption.
    + rewrite !descending_sorts_after. intros BA CB.
      exact (Nt c b a Ic Ib Ia CB BA).
Qed.

(** X10.  On a column that holds a number other than [NaN] in every
    filtered booth, or a number in none of them, the rows of the table are
    in the order of the comparison, in either direction: no row sorts after
    a row further down; and the rows are the filtered booths, each as often
    as it is filtered. *)
Theorem rows_are_in_sort_order :
  forall (currentSort : sort_state) (filtered : list booth),
    (number_column (column currentSort) filtered
     || text_column (column currentSort) filtered)%bool = true ->
    StronglySorted
      (fun a b => JsArray.sorts_after (compare_booths currentSort) a b = false)
      (sorted_booths currentSort filtered) /\
    Permutation (sorted_booths currentSort filtered) filtered.
Proof.
  intros currentSort filtered C. split.
  - apply sorted_booths_in_order, C.
  - apply sorted_booths_permutation.
Qed.

(** *** Booth and station numbers *)

Lemma map_index_members (from : nat) (raws : list raw_booth) (b : booth) :
  In b (map_index from raws) ->
  exists i r, (from <= i < from + List.length raws)%nat /\ b = process_booth i r.
Proof.
  revert from. induction raws as [|r raws IH]; intros from; simpl; [intros []|].
  intros [E|I].
  - exists from, r. split; [lia|symmetry; exact E].
  - destruct (IH (S from) I) as (i & r' & B & E). exists i, r'. split; [lia|exact E].
Qed.

Lemma process_booth_numbers (i : nat) (r : raw_booth) :
  (Z.of_nat (i + 1) < 2 ^ 63)%Z ->
  truthy_num (booth_no (process_booth i r)) = true /\
  PrimFloat.eqb (station_no (process_booth i r)) (station_no (process_booth i r))
  = true.
Proof.
  intros B. unfold process_booth. cbn [booth_no station_no]. split.
  - apply num_or_truthy, gt_zero_truthy, of_nat_positive; [lia|exact B].
  - apply num_or_zero_is_number.
Qed.

Lemma booth_no_sorts_after (a b : booth) :
  JsArray.sorts_after (compare_booths {| column := "booth_no"; ascending := true |}) a b
  = gt (booth_no a) (booth_no b).
Proof. apply numeric_sorts_after; reflexivity. Qed.

(** X11.  In a file of fewer than [2^63] booths, every booth of
    [allBooths] gets a booth number that is neither [NaN] nor zero and a
    station number that is not [NaN], whatever the file holds in these two
    fields; both columns are thus columns of numbers, and the table of a
    fresh load, sorted by booth number, shows the booths with no booth
    number above one further down. *)
Theorem booth_numbers_are_numbers :
  forall raws : list raw_booth,
    (Z.of_nat (List.length raws) < 2 ^ 63)%Z ->
    Forall
      (fun b =>
         truthy_num (booth_no b) = true /\
         PrimFloat.eqb (station_no b) (station_no b) = true)
      (process_booths raws) /\
    number_column "booth_no" (process_booths raws) = true /\
    number_column "station_no" (process_booths raws) = true /\
    StronglySorted
      (fun a b => gt (booth_no a) (booth_no b) = false)
      (sorted_booths {| column := "booth_no"; ascending := true |}
                     (process_booths raws)).
Proof.
  intros raws B.
  assert (F : forall b, In b (process_booths raws) ->
                        truthy_num (booth_no b) = true /\
                        PrimFloat.eqb (station_no b) (station_no b) = true).
  { intros b I. apply map_index_members in I. destruct I as (i & r & L & ->).
    apply process_booth_numbers. lia. }
  assert (Nb : number_column "booth_no" (process_booths raws) = true).
  { apply forallb_forall. intros b I. apply truthy_is_number, F, I. }
  split; [apply Forall_forall, F|]. split; [exact Nb|]. split.
  - apply forallb_forall. intros b I. apply F, I.
  - apply (in_order_weaken
             (R := fun a b =>
                     JsArray.sorts_after
                       (compare_booths {| column := "booth_no"; ascending := true |})
                       a b = false)).
    + intros a b. rewrite booth_no_sorts_after. auto.
    + apply sorted_booths_in_order. cbn [column]. rewrite Nb. reflexivity.
Qed.

(** *** The rows of a page *)

Lemma slice_members (l : list booth) (start end_ : Z) (b : booth) :
  In b (JsArray.slice l start end_) -> In b l.
Proof.
  unfold JsArray.slice. cbv zeta.
  set (k := Z.to_nat (JsArray.relative_index (Z.of_nat (List.length l)) start)).
  set (n := Z.to_nat _). intros I.
  rewrite <- (firstn_skipn k l). apply in_or_app. right.
  rewrite <- (firstn_skipn n (skipn k l)). apply in_or_app. left. exact I.
Qed.

Lemma page_booths_at_most (sorted : list booth) (p : Z) :
  (List.length (page_booths sorted p) <= 50)%nat.
Proof.
  unfold page_booths, JsArray.slice, JsArray.relative_index, ITEMS_PER_PAGE.
  cbv zeta. etransitivity; [apply firstn_le_length|].
  destruct (Z.ltb_spec ((p - 1) * 50) 0), (Z.ltb_spec ((p - 1) * 50 + 50) 0).
  all: lia.
Qed.

Lemma page_booths_length (sorted : list booth) (k : nat) :
  List.length (page_booths sorted (Z.of_nat (S k)))
  = Nat.min 50 (List.length sorted - 50 * k).
Proof. rewrite page_booths_succ, length_firstn, length_skipn. reflexivity. Qed.

(** X12.  The page shown holds at most 50 rows, each a filtered booth;
    every page before the last holds exactly 50, and the last page holds
    the rest, at least one. *)
Theorem pages_hold_fifty_rows :
  forall s : state,
    let rows := fst (renderTable s) in
    let pages := totalPages (snd (renderTable s)) in
    (List.length rows <= 50)%nat /\
    (forall b, In b rows -> In b (filteredBooths s)) /\
    ((1 <= currentPage s < pages)%Z -> List.length rows = 50%nat) /\
    ((1 <= currentPage s)%Z -> currentPage s = pages ->
     Z.of_nat (List.length rows)
     = (Z.of_nat (List.length (filteredBooths s)) - 50 * (pages - 1))%Z /\
     rows <> []).
Proof.
  intros s rows pages.
  set (sorted := sorted_booths (currentSort s) (filteredBooths s)).
  assert (L : List.length sorted = List.length (filteredBooths s))
    by apply sorted_booths_length.
  assert (R : rows = page_booths sorted (currentPage s)) by reflexivity.
  assert (Pg : pages = ceil_div (Z.of_nat (List.length (filteredBooths s)))
                                ITEMS_PER_PAGE).
  { unfold pages. rewrite shown_pages. reflexivity. }
  pose proof (@ceil_div_bounds (Z.of_nat (List.length (filteredBooths s)))
                               ltac:(lia)) as B.
  rewrite <- Pg in B. unfold ITEMS_PER_PAGE in B.
  assert (K : (1 <= currentPage s)%Z ->
              exists k, currentPage s = Z.of_nat (S k) /\
                        List.length rows = Nat.min 50 (List.length sorted - 50 * k)).
  { intros P. exists (Z.to_nat (currentPage s - 1)).
    assert (E : currentPage s = Z.of_nat (S (Z.to_nat (currentPage s - 1)))) by lia.
    split; [exact E|]. rewrite R, E at 1. apply page_booths_length. }
  split; [rewrite R; apply page_booths_at_most|]. split; [|split].
  - intros b I. rewrite R in I. apply slice_members in I.
    apply (Permutation_in _ (sorted_booths_permutation _ _)) in I. exact I.
  - intros [P1 P2]. destruct (K P1) as (k & E & Len). rewrite Len, L. lia.
  - intros P1 P2. destruct (K P1) as (k & E & Len).
    assert (Z.of_nat (List.length rows)
            = (Z.of_nat (List.length (filteredBooths s)) - 50 * (pages - 1))%Z)
      as Q by (rewrite Len, L; lia).
    split; [exact Q|]. intros N. rewrite N in Q.
    change (Z.of_nat (List.length (@nil booth))) with 0%Z in Q. lia.
Qed.

End Rows.

(** ** The village selector *)

Section Villages.
Context `{Host}.
Local Open Scope float_scope.

Lemma same_village_eq (v w : option string) : same_village v w = true <-> v = w.
Proof.
  destruct v as [a|], w as [b|]; simpl; try (split; [discriminate|discriminate]).
  - rewrite String.eqb_eq. split; congruence.
  - split; reflexivity.
Qed.

Lemma village_seen (v : option string) (vs : list (option string)) :
  existsb (same_village v) vs = true <-> In v vs.
Proof.
  rewrite existsb_exists. split.
  - intros (w & I & E). apply same_village_eq in E. subst w. exact I.
  - intros I. exists v. split; [exact I|]. apply same_village_eq. reflexivity.
Qed.

Lemma village_set_snoc (l : list booth) (b : booth) :
  village_set (l ++ [b])
  = if existsb (same_village (village (source b))) (village_set l)
    then village_set l
    else village_set l ++ [village (source b)].
Proof. unfold village_set. rewrite fold_left_app. reflexivity. Qed.

Lemma village_set_members (l : list booth) (v : option string) :
  In v (village_set l) <-> exists b, In b l /\ village (source b) = v.
Proof.
  induction l as [|b l IH] using rev_ind.
  - simpl. split; [intros []|intros (b & [] & _)].
  - rewrite village_set_snoc.
    assert (Old : In v (village_set l) -> exists b0, In b0 (l ++ [b]) /\
                                                     village (source b0) = v).
    { intros I. apply IH in I. destruct I as (b' & I & E).
      exists b'. split; [apply in_or_app; left; exact I|exact E]. }
    destruct (existsb (same_village (village (source b))) (village_set l)) eqn:S.
    + split; [exact Old|]. intros (b' & I & E).
      apply in_app_or in I. destruct I as [I|[Q|[]]].
      * apply IH. eauto.
      * subst b'. apply village_seen in S. rewrite E in S. exact S.
    + rewrite in_app_iff. split.
      * intros [I|[Q|[]]]; [exact (Old I)|].
        exists b. split; [apply in_or_app; right; left; reflexivity|exact Q].
      * intros (b' & I & E). apply in_app_or in I. destruct I as [I|[Q|[]]].
        -- left. apply IH. eauto.
        -- subst b'. right. left. exact E.
Qed.

Lemma village_set_NoDup (l : list booth) : NoDup (village_set l).
Proof.
  induction l as [|b l IH] using rev_ind.
  - constructor.
  - rewrite village_set_snoc.
    destruct (existsb (same_village (village (source b))) (village_set l)) eqn:S;
      [exact IH|].
    apply NoDup_app; [exact IH|repeat constructor; intros []|].
    intros v I [Q|[]]. subst v. apply village_seen in I. congruence.
Qed.

Lemma named_village_members (v : option string) (w : string) :
  In w (named_village v) <->
  v = Some w /\ w <> ""%string /\ trim w <> ""%string.
Proof.
  unfold named_village.
  destruct v as [s|]; [|split; [intros []|intros [Q _]; discriminate Q]].
  destruct (truthy_str s && negb (String.eqb (trim s) ""))%bool eqn:T.
  - apply andb_true_iff in T. destruct T as [T1 T2]. split.
    + intros [Q|[]]. subst w. split; [reflexivity|]. split.
      * intros E. subst s. discriminate T1.
      * intros E. rewrite E in T2. discriminate T2.
    + intros (Q & _). inversion Q. left. reflexivity.
  - split; [intros []|]. intros (Q & A & B). inversion Q; subst w.
    apply andb_false_iff in T. destruct T as [T|T].
    + destruct s; [apply A; reflexivity|discriminate T].
    + apply negb_false_iff, String.eqb_eq in T. exact (B T).
Qed.

Lemma named_villages_NoDup (vs : list (option string)) :
  NoDup vs -> NoDup (flat_map named_village vs).
Proof.
  induction vs as [|v vs IH]; intros N; simpl; [constructor|].
  inversion N as [|? ? Nv Nvs]; subst.
  apply NoDup_app; [|apply IH, Nvs|].
  - unfold named_village. destruct v as [s|]; [|constructor].
    destruct (truthy_str s && negb (String.eqb (trim s) ""))%bool;
      repeat constructor. intros [].
  - intros w I J. apply named_village_members in I. destruct I as (-> & _).
    apply in_flat_map in J. destruct J as (v' & I' & J).
    apply named_village_members in J. destruct J as (-> & _). exact (Nv I').
Qed.

Lemma default_sorts_after (x y : string) :
  JsArray.sorts_after default_compare x y = string_lt y x.
Proof.
  unfold JsArray.sorts_after, default_compare.
  destruct (string_lt x y) eqn:L.
  - rewrite (string_lt_asymmetric _ _ L). reflexivity.
  - destruct (string_lt y x); reflexivity.
Qed.

Lemma default_sorts_before (x y : string) :
  JsArray.sorts_before default_compare x y = string_lt x y.
Proof.
  unfold JsArray.sorts_before, default_compare.
  destruct (string_lt x y); [reflexivity|].
  destruct (string_lt y x); reflexivity.
Qed.

(** The default comparison is consistent on any strings. *)
Lemma default_compare_consistent (l : list string) :
  JsArray.consistent default_compare l.
Proof.
  intros a b c _ _ _. unfold JsArray.ties.
  rewrite !default_sorts_after, !default_sorts_before.
  split; [rewrite string_lt_irreflexive; reflexivity|]. split; [|split; [|split]].
  - intros T. rewrite andb_comm. exact T.
  - intros T1 T2.
    apply andb_true_iff in T1. destruct T1 as [T1 T1'].
    apply andb_true_iff in T2. destruct T2 as [T2 T2'].
    apply negb_true_iff in T1, T1', T2, T2'.
    rewrite (string_lt_or_equal _ _ T1 T1'), (string_lt_or_equal _ _ T2 T2').
    rewrite string_lt_irreflexive. reflexivity.
  - apply string_lt_transitive.
  - intros G1 G2. exact (string_lt_transitive _ _ _ G2 G1).
Qed.

Lemma default_sort_in_order (l : list string) :
  StronglySorted (fun x y => string_lt y x = false)
                 (array_sort default_compare l).
Proof.
  rewrite (array_sort_consistent (default_compare_consistent l)).
  apply (in_order_weaken
           (R := fun x y => JsArray.sorts_after default_compare x y = false)).
  - intros x y. rewrite default_sorts_after. auto.
  - apply sort_in_order.
    + intros x y _ _. rewrite !default_sorts_after. apply string_lt_asymmetric.
    + intros x y z _ _ _. rewrite !default_sorts_after. intros A B.
      exact (string_not_lt_transitive _ _ _ A B).
Qed.

Lemma distinct_in_order (l : list string) :
  NoDup l ->
  StronglySorted (fun x y => string_lt y x = false) l ->
  StronglySorted (fun x y => string_lt x y = true) l.
Proof.
  intros N S. induction S as [|x l S IH F]; [constructor|].
  inversion N as [|? ? Nx Nl]; subst. constructor; [apply IH, Nl|].
  rewrite Forall_forall in *. intros y I.
  assert (D : x <> y) by (intros Q; subst y; exact (Nx I)).
  pose proof (string_lt_total D) as T. rewrite (F y I), orb_false_r in T.
  exact T.
Qed.

Lemma chosen_village_passes (v : string) (b : booth) :
  village (source b) = Some v -> passes_filters v "" None b = true.
Proof.
  intros E. unfold passes_filters. rewrite E, String.eqb_refl.
  cbn [negb andb truthy_ostr truthy_str]. rewrite andb_false_r. reflexivity.
Qed.

Lemma trim_start_head (s : string) :
  trim_start s = ""%string \/
  exists c t, trim_start s = String c t /\ is_white_space c = false.
Proof.
  induction s as [|c s IH]; simpl; [left; reflexivity|].
  destruct (is_white_space c) eqn:W; [exact IH|].
  right. exists c, s. auto.
Qed.

Lemma trim_start_blank (s : string) :
  trim_start s = ""%string <->
  Forall (fun c => is_white_space c = true) (list_ascii_of_string s).
Proof.
  induction s as [|c s IH]; simpl.
  - split; [constructor|reflexivity].
  - destruct (is_white_space c) eqn:W.
    + rewrite IH. split; [constructor; assumption|].
      intros F. inversion F. assumption.
    + split; [discriminate|]. intros F. inversion F. congruence.
Qed.

Lemma trim_end_keeps (c : ascii) (t : string) :
  is_white_space c = false -> trim_end (String c t) <> ""%string.
Proof.
  intros W. simpl. rewrite W. destruct (trim_end t); discriminate.
Qed.

Lemma ascii_trim_blank (s : string) :
  ascii_trim s = ""%string <->
  Forall (fun c => is_white_space c = true) (list_ascii_of_string s).
Proof.
  rewrite <- trim_start_blank. unfold ascii_trim.
  destruct (trim_start_head s) as [E|(c & t & E & W)]; rewrite E.
  - split; reflexivity.
  - split; [|discriminate]. intros Q. exfalso. exact (@trim_end_keeps c t W Q).
Qed.

(** X13.  The options [populateVillageFilter] adds after "all" are the
    village names of the booths that are not empty and that [trim] does not
    empty, each once, in increasing order under [<]; a name of ASCII
    characters is emptied by [trim] exactly when it is made of tabs, line
    feeds, vertical tabs, form feeds, carriage returns and spaces only.
    Choosing one of the options, with no category and no search text,
    always leaves at least one booth in the table, and, for a name other
    than "all", only booths of that village. *)
Theorem village_options_are_the_named_villages :
  forall all : list booth,
    let options := populateVillageFilter all in
    NoDup options /\
    StronglySorted (fun v w => string_lt v w = true) options /\
    (forall v,
        In v options <->
        (exists b, In b all /\ village (source b) = Some v) /\
        v <> ""%string /\ trim v <> ""%string) /\
    (forall v,
        is_ascii v = true ->
        (trim v = ""%string <->
         Forall (fun c => is_white_space c = true) (list_ascii_of_string v))) /\
    (forall v,
        In v options ->
        filter_booths v "" None all <> [] /\
        (v <> "all"%string ->
         forall b, In b (filter_booths v "" None all) ->
                   village (source b) = Some v)).
Proof.
  intros all options.
  set (villages := flat_map named_village (village_set all)).
  assert (P : Permutation options villages) by apply array_sort_permutation.
  assert (N : NoDup options).
  { apply (Permutation_NoDup (Permutation_sym P)).
    apply named_villages_NoDup, village_set_NoDup. }
  assert (M : forall v,
             In v options <->
             (exists b, In b all /\ village (source b) = Some v) /\
             v <> ""%string /\ trim v <> ""%string).
  { intros v. split.
    - intros I. apply (Permutation_in _ P) in I. apply in_flat_map in I.
      destruct I as (o & Io & Iv). apply named_village_members in Iv.
      destruct Iv as (-> & A & B). apply village_set_members in Io. auto.
    - intros (E & A & B). apply (Permutation_in _ (Permutation_sym P)).
      apply in_flat_map. exists (Some v). split.
      + apply village_set_members, E.
      + apply named_village_members. auto. }
  split; [exact N|]. split; [|split; [exact M|split]].
  - apply distinct_in_order; [exact N|apply default_sort_in_order].
  - intros v A. rewrite (trim_ascii v A). apply ascii_trim_blank.
  - intros v I. apply M in I. destruct I as ((b & Ib & E) & _).
    unfold filter_booths. rewrite toLowerCase_empty. split.
    + intros Q.
      assert (J : In b (filter (passes_filters v "" None) all)).
      { apply filter_In. split; [exact Ib|apply chosen_village_passes, E]. }
      rewrite Q in J. destruct J.
    + intros D b' J. apply filter_In in J. destruct J as [_ J].
      unfold passes_filters in J.
      destruct (String.eqb_spec v "all") as [|_]; [contradiction|].
      cbn [negb andb] in J.
      destruct (village (source b')) as [w|]; [|discriminate J].
      destruct (String.eqb_spec w v) as [Q|]; [rewrite Q; reflexivity|discriminate J].
Qed.

End Villages.

(** ** The search box *)

Lemma prefix_is_a_start (p s : string) :
  String.prefix p s = true <-> exists post, s = (p ++ post)%string.
Proof.
  revert s. induction p as [|c p IH]; intros s.
  - split; [intros _; exists s; reflexivity|]. intros _. destruct s; reflexivity.
  - destruct s as [|d s]; simpl;
      [split; [discriminate|intros (post & Q); discriminate Q]|].
    destruct (Ascii.ascii_dec c d) as [<-|N].
    + rewrite IH. split; intros (post & Q); exists post; congruence.
    + split; [discriminate|]. intros (post & Q). inversion Q. congruence.
Qed.

(** [s.includes(sub)] holds exactly when [sub] occurs in [s]. *)
Lemma includes_occurs (s sub : string) :
  includes s sub = true <-> exists pre post, s = (pre ++ sub ++ post)%string.
Proof.
  unfold includes. induction s as [|c s IH].
  - simpl. destruct sub as [|d sub].
    + split; [intros _; exists ""%string, ""%string; reflexivity|reflexivity].
    + split; [discriminate|]. intros (pre & post & Q).
      destruct pre; discriminate Q.
  - cbn [String.index].
    destruct (String.prefix sub (String c s)) eqn:P.
    + split; [|reflexivity]. intros _. apply prefix_is_a_start in P.
      destruct P as (post & Q). exists ""%string, post. exact Q.
    + assert (E : match
                    match String.index 0 sub s with
                    | Some n0 => Some (S n0)
                    | None => None
                    end
                  with Some _ => true | None => false end
                  = match String.index 0 sub s with
                    | Some _ => true
                    | None => false
                    end)
        by (destruct (String.index 0 sub s); reflexivity).
      rewrite E, IH. split.
      * intros (pre & post & Q). exists (String c pre), post. rewrite Q. reflexivity.
      * intros (pre & post & Q). destruct pre as [|d pre].
        -- exfalso. assert (T : String.prefix sub (String c s) = true)
             by (apply prefix_is_a_start; exists post; exact Q).
           congruence.
        -- inversion Q. exists pre, post. reflexivity.
Qed.

Section Search.
Context `{Host}.

(** X17.  With no village and no category chosen, [applyFilters] keeps
    exactly the booths in which the search text, as [toLowerCase] returns
    it, occurs in what [toLowerCase] returns for the booth number written
    out, for the village or for the building; when [toLowerCase] returns
    the empty string for the search text it keeps every booth. *)
Theorem search_keeps_the_booths_that_contain_the_text :
  forall (q : string) (all : list booth) (b : booth),
    In b (filter_booths "all" q None all) <->
    In b all /\
    (toLowerCase q = ""%string \/
     exists text pre post,
       (text = number_toString (booth_no b) \/
        village (source b) = Some text \/
        building (source b) = Some text) /\
       toLowerCase text = (pre ++ toLowerCase q ++ post)%string).
Proof.
  intros q all b. unfold filter_booths. rewrite filter_In.
  apply and_iff_compat_l. unfold passes_filters.
  change (String.eqb "all" "all") with true. cbn [negb andb truthy_ostr].
  destruct (toLowerCase q) as [|c lowered] eqn:L; cbn [truthy_str].
  - split; [left; reflexivity|reflexivity].
  - set (search := String c lowered).
    assert (S : search_match search b = true <->
                exists text pre post,
                  (text = number_toString (booth_no b) \/
                   village (source b) = Some text \/
                   building (source b) = Some text) /\
                  toLowerCase text = (pre ++ search ++ post)%string).
    { unfold search_match. rewrite !orb_true_iff. split.
      - intros [[I|I]|I].
        + apply includes_occurs in I. destruct I as (pre & post & Q).
          exists (number_toString (booth_no b)), pre, post. auto.
        + destruct (village (source b)) as [v|]; [|discriminate I].
          apply includes_occurs in I. destruct I as (pre & post & Q).
          exists v, pre, post. auto.
        + destruct (building (source b)) as [v|]; [|discriminate I].
          apply includes_occurs in I. destruct I as (pre & post & Q).
          exists v, pre, post. auto.
      - intros (text & pre & post & [T|[T|T]] & Q).
        + left. left. subst text. apply includes_occurs. eauto.
        + left. right. rewrite T. apply includes_occurs. eauto.
        + right. rewrite T. apply includes_occurs. eauto. }
    destruct (search_match search b) eqn:M; cbn [negb].
    + split; [|reflexivity]. intros _. right. apply S. reflexivity.
    + split; [discriminate|]. intros [Q|Q]; [discriminate Q|].
      apply S in Q. discriminate Q.
Qed.

End Search.

(** ** A host for the examples

    The geohash encoding the library computes (longitude and latitude
    bisected in turn, five bits to a base-32 character), [parseInt] and
    [toString] on the integers and digit strings the examples use, the
    [String] methods and [<] as they are on strings of ASCII characters,
    which the examples keep to, and the stable sort: the examples sort by
    consistent comparisons only, where every engine returns this order. *)

Module ExampleHost.
Local Open Scope float_scope.

Fixpoint geohash_bits (n : nat) (lon_turn : bool)
         (minLat maxLat minLon maxLon latitude longitude : float) : list bool :=
  match n with
  | O => []
  | S n' =>
      if lon_turn then
        let mid := (maxLon + minLon) / 2 in
        if gt longitude mid
        then true :: geohash_bits n' false minLat maxLat mid maxLon latitude longitude
        else false :: geohash_bits n' false minLat maxLat minLon mid latitude longitude
      else
        let mid := (maxLat + minLat) / 2 in
        if gt latitude mid
        then true :: geohash_bits n' true mid maxLat minLon maxLon latitude longitude
        else false :: geohash_bits n' true minLat mid minLon maxLon latitude longitude
  end.

Definition BASE32_CODES : string := "0123456789bcdefghjkmnpqrstuvwxyz".

Definition bits_value (bs : list bool) : nat :=
  fold_left (fun (v : nat) (b : bool) => (2 * v + (if b then 1 else 0))%nat) bs 0%nat.

Fixpoint base32_chars (count : nat) (bs : list bool) : string :=
  match count with
  | O => EmptyString
  | S count' =>
      match String.get (bits_value (firstn 5 bs)) BASE32_CODES with
      | Some c => String c (base32_chars count' (skipn 5 bs))
      | None => EmptyString
      end
  end.

Definition encode (latitude longitude : float) (numberOfChars : nat) : string :=
  base32_chars numberOfChars
    (geohash_bits (5 * numberOfChars) true (-90) 90 (-180) 180 latitude longitude).

Fixpoint char_index (c : ascii) (codes : string) : nat :=
  match codes with
  | EmptyString => 0%nat
  | String c' codes' => if Ascii.eqb c c' then 0%nat else S (char_index c codes')
  end.

Definition bits_of_index (n : nat) : list bool :=
  map (fun k => Nat.testbit n k) [4; 3; 2; 1; 0]%nat.

Fixpoint narrow (bs : list bool) (lon_turn : bool)
         (box : float * float * float * float) : float * float * float * float :=
  match bs with
  | [] => box
  | b :: bs' =>
      let '(minLat, minLon, maxLat, maxLon) := box in
      if lon_turn then
        let mid := (maxLon + minLon) / 2 in
        narrow bs' false
          (if b then (minLat, mid, maxLat, maxLon) else (minLat, minLon, maxLat, mid))
      else
        let mid := (maxLat + minLat) / 2 in
        narrow bs' true
          (if b then (mid, minLon, maxLat, maxLon) else (minLat, minLon, mid, maxLon))
  end.

(** [[minLat, minLon, maxLat, maxLon]] of a geohash. *)
Definition decode_bbox (hash_string : string) : float * float * float * float :=
  narrow
    (flat_map (fun c => bits_of_index (char_index c BASE32_CODES))
              (list_ascii_of_string hash_string))
    true (-90, -180, 90, 180).

(** The integer a number stands for, when it is one. *)
Definition integer_of (x : float) : option Z :=
  match Prim2SF x with
  | S754_zero _ => Some 0%Z
  | S754_finite s m e =>
      let magnitude :=
        match e with
        | Z0 => Some (Zpos m)
        | Zpos p => Some (Zpos m * 2 ^ Zpos p)%Z
        | Zneg p =>
            if (Zpos m mod 2 ^ Zpos p =? 0)%Z
            then Some (Zpos m / 2 ^ Zpos p)%Z
            else None
        end in
      option_map (fun z => if s then (- z)%Z else z) magnitude
  | _ => None
  end.

Definition toString (x : float) : string :=
  match integer_of x with
  | Some z => NilZero.string_of_int (Z.to_int z)
  | None => "NaN"
  end.

Definition float_of_Z (z : Z) : float :=
  if (z <? 0)%Z then - PrimFloat.of_uint63 (Uint63.of_Z (- z))
  else PrimFloat.of_uint63 (Uint63.of_Z z).

Definition parse_int (v : jsval) : float :=
  match v with
  | JNum x => match integer_of x with Some _ => x | None => nan end
  | JStr s =>
      match NilZero.int_of_string s with
      | Some d => float_of_Z (Z.of_int d)
      | None => nan
      end
  | _ => nan
  end.

Lemma bytes_lt_total (a b : string) :
  a <> b -> (String.ltb a b || String.ltb b a)%bool = true.
Proof.
  intros N. pose proof (string_ltb_total N) as T.
  destruct (String.ltb a b), (String.ltb b a); try reflexivity; discriminate T.
Qed.

#[export] Instance host : Host :=
  {| parseInt := parse_int;
     number_toString := toString;
     geohash_encode := encode;
     geohash_decode_bbox := decode_bbox;
     toUpperCase := ascii_toUpperCase;
     toLowerCase := ascii_toLowerCase;
     trim := ascii_trim;
     string_lt := String.ltb;
     array_sort := @JsArray.stable_sort;
     toUpperCase_ascii := fun s _ => eq_refl;
     toLowerCase_ascii := fun s _ => eq_refl;
     trim_ascii := fun s _ => eq_refl;
     string_lt_irreflexive := string_ltb_irreflexive;
     string_lt_transitive := string_ltb_transitive;
     string_lt_total := bytes_lt_total;
     string_lt_ascii := fun a b _ _ => eq_refl;
     array_sort_permutation := @sort_permutation;
     array_sort_consistent := fun A comparefn l _ => eq_refl |}.

End ExampleHost.

(** ** Example data *)

Module Examples.
Import ExampleHost.
Local Open Scope float_scope.

Definition a_booth (no : string) (place : string) (coordinates : option (float * float))
           (dmk aiadmk others : float) (won : string) (margin : float)
           (swings : option comparison) : raw_booth :=
  {| raw_booth_no := JStr no;
     raw_station_no := JUndefined;
     village := Some place;
     building := None;
     lat := option_map fst coordinates;
     lng := option_map snd coordinates;
     dmk_votes := Some dmk;
     aiadmk_votes := Some aiadmk;
     others_votes := Some others;
     winner := Some won;
     margin_pct := Some margin;
     comparison_of := swings;
     other_fields := [] |}.

(** Two booths in one geohash cell, one in another, one without coordinates
    and one on the equator. *)
Definition kanchipuram_booths : list raw_booth :=
  [ a_booth "1" "Kanchipuram" (Some (12.8125, 79.6875)) 300 200 20 "DMK" 18.75
      (Some {| dmk_swing := Some 2.5; aiadmk_swing := Some (-1.5) |});
    a_booth "2" "Kanchipuram" (Some (12.8134765625, 79.6884765625)) 150 250 10
      "AIADMK" 24.5 (Some {| dmk_swing := Some 0.5; aiadmk_swing := None |});
    a_booth "3" "Walajabad" (Some (12.75, 79.75)) 55 45 0 "dmk" 10 None;
    a_booth "4" "Walajabad" None 80 120 5 "ADMK" 19.5 None;
    a_booth "5" "Uthiramerur" (Some (0, 79.75)) 90 60 2 "DMK" 19.5 None ].

Definition a_summary : Summary.t :=
  {| Summary.avg_dmk_swing := JNum 2.5;
     Summary.avg_aiadmk_swing := JNum (-1.5);
     Summary.avg_turnout_change := JNum 0.75;
     Summary.total_booths := JNum 5 |}.

(** A summary written without comparison data: the averages are [null]. *)
Definition null_averages : Summary.t :=
  {| Summary.avg_dmk_swing := JNull;
     Summary.avg_aiadmk_swing := JNull;
     Summary.avg_turnout_change := JNull;
     Summary.total_booths := JNum 3 |}.

(** A summary without the averages. *)
Definition no_averages : Summary.t :=
  {| Summary.avg_dmk_swing := JUndefined;
     Summary.avg_aiadmk_swing := JUndefined;
     Summary.avg_turnout_change := JUndefined;
     Summary.total_booths := JNum 3 |}.

Definition kanchipuram : constituency :=
  {| constituency_name := JStr "Kanchipuram";
     booths_of := Some kanchipuram_booths;
     summary := Some a_summary |}.

(** A constituency whose booths have no coordinates. *)
Definition sriperumbudur_booths : list raw_booth :=
  [ a_booth "3" "Sriperumbudur" None 120 100 10 "DMK" 8.5 None;
    a_booth "1" "Mannur" None 90 140 5 "AIADMK" 21.25 None;
    a_booth "2" "Irungattukottai" None 200 100 0 "DMK" 33.25 None ].

Definition sriperumbudur : constituency :=
  {| constituency_name := JStr "Sriperumbudur";
     booths_of := Some sriperumbudur_booths;
     summary := Some a_summary |}.

(** A file with no [booths] property. *)
Definition without_booths : constituency :=
  {| constituency_name := JStr "Alandur";
     booths_of := None;
     summary := Some a_summary |}.

(** One located booth with 55 DMK and 45 AIADMK votes. *)
Definition booth_55_45 : raw_booth :=
  a_booth "3" "Walajabad" (Some (12.75, 79.75)) 55 45 0 "dmk" 10 None.

(** A booth whose latitude is 0. *)
Definition equator_booth : booth :=
  process_booth 4 (a_booth "5" "Uthiramerur" (Some (0, 79.75)) 90 60 2 "DMK" 19.5 None).

(** Two booths whose village names differ in letter case only. *)
Definition same_village_booths : list raw_booth :=
  [ a_booth "1" "Kanchipuram" None 120 100 10 "DMK" 8.5 None;
    a_booth "2" "KANCHIPURAM" None 90 140 5 "AIADMK" 21.25 None ].

(** Three booths whose [electors], a property the code never names, is the
    number 2, the string "15" and the number 10. *)
Definition with_electors (electors : jsval) (no : string) : raw_booth :=
  {| raw_booth_no := JStr no;
     raw_station_no := JUndefined;
     village := Some "Mannur"%string;
     building := None;
     lat := None;
     lng := None;
     dmk_votes := Some 100;
     aiadmk_votes := Some 90;
     others_votes := Some 0;
     winner := Some "DMK"%string;
     margin_pct := Some 5;
     comparison_of := None;
     other_fields := [("electors"%string, electors)] |}.

Definition mixed_electors_booths : list raw_booth :=
  [ with_electors (JNum 2) "1";
    with_electors (JStr "15") "2";
    with_electors (JNum 10) "3" ].

(** Three booths: strong DMK, strong ADMK on the same margin, and swing. *)
Definition three_booths : list raw_booth :=
  [ a_booth "1" "Mannur" None 230 170 0 "DMK" 15 None;
    a_booth "2" "Mannur" None 170 230 0 "AIADMK" 15 None;
    a_booth "3" "Mannur" None 210 190 0 "DMK" 5 None ].

(** 120 booths without coordinates: three pages. *)
Definition cheyyar : constituency :=
  {| constituency_name := JStr "Cheyyar";
     booths_of := Some (repeat (a_booth "" "Cheyyar" None 100 90 0 "DMK" 5 None) 120);
     summary := Some a_summary |}.

(** A file without [summary], on which [updateStats] throws. *)
Definition without_summary : constituency :=
  {| constituency_name := JStr "Arani";
     booths_of := Some sriperumbudur_booths;
     summary := None |}.

(** Two pages forward in Cheyyar, then a load that stops in
    [updateStats]. *)
Definition paging_then_failed_load : list action :=
  [ LoadSettled (Body cheyyar);
    NextPageClick;
    NextPageClick;
    LoadSettled (Body without_summary) ].

(** A category filter, a page forward and a sort by village in Cheyyar. *)
Definition browsing_cheyyar : list action :=
  [ LoadSettled (Body cheyyar);
    StatCardClick "swing" "all" "";
    NextPageClick;
    SortHeaderClick "village" ].

Definition no_session : session :=
  {| app := initial_state; pending := []; calls_made := 0 |}.

(** Two calls; the second one's fetch settles first. *)
Definition overtaking : list event :=
  [ Call "kanchipuram.json";
    Call "sriperumbudur.json";
    Settle 1 (Body sriperumbudur);
    Settle 0 (Body kanchipuram) ].

End Examples.

(** ** Examples *)

Module Checks.
Import ExampleHost Examples.
Local Open Scope float_scope.

#[local] Set Warnings "-inexact-float".

(** A margin of exactly 10 is swing, whoever won. *)
Example margin_of_ten_is_swing :
  simplifyCategory (a_booth "3" "Walajabad" None 55 45 0 "DMK" 10 None) = swing.
Proof. reflexivity. Qed.

(** A margin of 10.0001 with DMK winning is strong DMK. *)
Example margin_just_above_ten_is_strong :
  simplifyCategory (a_booth "3" "Walajabad" None 55 45 0 "dmk" 10.0001 None)
  = strong_dmk.
Proof. vm_compute. reflexivity. Qed.

Example categories_of_kanchipuram :
  map (@category_simple) (@process_booths ExampleHost.host kanchipuram_booths)
  = [strong_dmk; strong_admk; swing; strong_admk; strong_dmk].
Proof. vm_compute. reflexivity. Qed.

(** Two cells, the first with booths 0 and 1 and their votes added up. *)
Example cells_of_kanchipuram :
  map (fun entry =>
         (fst entry, map (@id) (Area.booths (snd entry)),
          Area.dmk_votes (snd entry), Area.aiadmk_votes (snd entry),
          Area.others_votes (snd entry), Area.category (snd entry)))
      (@computeGeohashAreas ExampleHost.host
         (@process_booths ExampleHost.host kanchipuram_booths))
  = [ ("tf28vk"%string, [0; 1]%nat, 450, 450, 30, Some swing);
      ("tf28wc"%string, [2]%nat, 55, 45, 0, Some strong_dmk) ].
Proof. vm_compute. reflexivity. Qed.

(** The averages of the two cells; the AIADMK swing that booth 1 lacks
    counts as 0. *)
Example averages_of_kanchipuram :
  map (fun entry =>
         (Area.avg_dmk_swing (snd entry), Area.avg_aiadmk_swing (snd entry),
          Area.avg_turnout_change (snd entry)))
      (@computeGeohashAreas ExampleHost.host
         (@process_booths ExampleHost.host kanchipuram_booths))
  = [ (Some 1.5, Some (-0.75), None); (Some 0, Some 0, None) ].
Proof. vm_compute. reflexivity. Qed.

(** The 55 and 45 votes of a cell give shares computed as
    55.000000000000007 and 45. *)
Example shares_of_55_45 :
  two_party_share 55 (55 + 45) = 55.000000000000007 /\
  two_party_share 45 (55 + 45) = 45 /\
  two_party_margin 55 45 = 10.000000000000007.
Proof. vm_compute. repeat split. Qed.

(** Loading a constituency with a located booth replaces the record set and
    then fails in [renderGeohashAreas]. *)
Example load_with_located_booths_logs_an_error :
  let result := @loadConstituency ExampleHost.host (Body kanchipuram) initial_state in
  fst result = Some false /\
  List.length (allBooths (snd result)) = 5%nat /\
  @renderGeohashAreas ExampleHost.host (snd result) = ([], true).
Proof. vm_compute. repeat split. Qed.

(** The three booths are categorised strong DMK, strong ADMK and swing; the
    strong-DMK card keeps the first; by descending margin the two that tie
    stay in their order. *)
Example three_booths_scenario :
  let all := @process_booths ExampleHost.host three_booths in
  map (@category_simple) all = [strong_dmk; strong_admk; swing] /\
  map (@id) (@filter_booths ExampleHost.host "all" "" (Some "strong-dmk"%string) all)
  = [0]%nat /\
  map (@id) (@sorted_booths ExampleHost.host
               {| column := "margin_pct"; ascending := false |} all)
  = [0; 1; 2]%nat.
Proof. vm_compute. repeat split. Qed.

(** 120 booths make three pages of 50, 50 and 20 rows. *)
Example three_pages :
  let s := set_filteredBooths
             (@process_booths ExampleHost.host (repeat booth_55_45 120))
             initial_state in
  let table := fun p => @renderTable ExampleHost.host (set_currentPage p s) in
  totalPages (snd (table 1%Z)) = 3%Z /\
  map (fun p => List.length (fst (table p))) [1; 2; 3; 4]%Z = [50; 50; 20; 0]%nat.
Proof. vm_compute. split; reflexivity. Qed.

(** C3 fails on a column whose values differ in letter case only: the two
    village names are different values, yet they tie, and both directions
    leave the booths in their input order. *)
Lemma villages_in_two_cases_do_not_reverse :
  let l := @process_booths ExampleHost.host same_village_booths in
  let down := @sorted_booths ExampleHost.host
                {| column := "village"; ascending := false |} l in
  let up := @sorted_booths ExampleHost.host
              {| column := "village"; ascending := true |} l in
  NoDup (map (fun b => get_field b "village") l) /\
  map (@id) up = [0; 1]%nat /\
  map (@id) down = [0; 1]%nat /\
  down <> rev up.
Proof.
  cbv zeta. split; [|split; [|split]].
  - vm_compute. constructor.
    + intros [E|[]]. discriminate E.
    + constructor; [intros []|constructor].
  - vm_compute. reflexivity.
  - vm_compute. reflexivity.
  - intros E. apply (f_equal (map (@id))) in E. vm_compute in E. discriminate E.
Qed.

(** A column of numbers and strings gives [sort] no consistent comparison:
    2 comes before 10 as a number, 10 before "15" as text, and "15" before
    2 as text. *)
Example mixed_column_goes_in_a_circle :
  let two := @process_booth ExampleHost.host 0 (with_electors (JNum 2) "1") in
  let fifteen := @process_booth ExampleHost.host 1 (with_electors (JStr "15") "2") in
  let ten := @process_booth ExampleHost.host 2 (with_electors (JNum 10) "3") in
  let comparefn := @compare_booths ExampleHost.host
                     {| column := "electors"; ascending := true |} in
  @process_booths ExampleHost.host mixed_electors_booths = [two; fifteen; ten] /\
  JsArray.sorts_before comparefn two ten = true /\
  JsArray.sorts_before comparefn ten fifteen = true /\
  JsArray.sorts_before comparefn fifteen two = true /\
  ~ JsArray.consistent comparefn [two; fifteen; ten].
Proof.
  cbv zeta. repeat (split; [vm_compute; reflexivity|]).
  intros C.
  set (two := @process_booth ExampleHost.host 0 (with_electors (JNum 2) "1")) in *.
  set (fifteen := @process_booth ExampleHost.host 1 (with_electors (JStr "15") "2")) in *.
  set (ten := @process_booth ExampleHost.host 2 (with_electors (JNum 10) "3")) in *.
  destruct (C two ten fifteen) as (_ & _ & _ & before & _); simpl; auto.
  assert (B : JsArray.sorts_before
                (@compare_booths ExampleHost.host
                   {| column := "electors"; ascending := true |})
                two fifteen = true)
    by (apply before; vm_compute; reflexivity).
  vm_compute in B. discriminate B.
Qed.

(** A cell with 55 DMK and 45 AIADMK votes: the two shares are 55 and 45
    percent, 10 apart, which makes the cell swing by the rule;
    [computeGeohashAreas] makes it strong DMK. *)
Example cell_of_55_45_is_strong :
  map (fun entry =>
         (Area.dmk_votes (snd entry), Area.aiadmk_votes (snd entry),
          Area.category (snd entry)))
      (@computeGeohashAreas ExampleHost.host
         (@process_booths ExampleHost.host [booth_55_45]))
  = [(55, 45, Some strong_dmk)] /\
  dominant_category_exact 55 45 = swing.
Proof. vm_compute. split; reflexivity. Qed.

(** A file without a list of booths replaces [currentConstituency] and
    leaves the booths of the constituency loaded before. *)
Example failed_processing_is_partly_applied :
  let before := snd (@loadConstituency ExampleHost.host (Body sriperumbudur) initial_state) in
  let result := @loadConstituency ExampleHost.host (Body without_booths) before in
  fst result = Some false /\
  currentConstituency before = Some sriperumbudur /\
  currentConstituency (snd result) = Some without_booths /\
  allBooths (snd result) = allBooths before /\
  snd result <> before.
Proof.
  cbv zeta. repeat split.
  intros E. apply (f_equal currentConstituency) in E.
  apply (f_equal (option_map booths_of)) in E. vm_compute in E. discriminate E.
Qed.

(** C8 fails for a load that throws in [updateStats]: after a category
    filter, a page forward and a sort by village in Cheyyar, the load of a
    file without summary logs an error, and yet the booths are the new
    file's, the category filter and the sort are reset, and the page number
    is left at 2. *)
Lemma failed_load_replaces_the_record_set :
  let before := @handle_all ExampleHost.host browsing_cheyyar initial_state in
  let result := @loadConstituency ExampleHost.host (Body without_summary) before in
  fst result = Some false /\
  List.length (allBooths before) = 120%nat /\
  List.length (allBooths (snd result)) = 3%nat /\
  activeFilter before = Some "swing"%string /\
  activeFilter (snd result) = None /\
  column (currentSort before) = "village"%string /\
  column (currentSort (snd result)) = "booth_no"%string /\
  currentPage before = 2%Z /\
  currentPage (snd result) = 2%Z.
Proof. vm_compute. repeat split. Qed.

(** C9 fails when the fetch of the older call settles after that of the
    newer call: the booths left are those of the older call. *)
Lemma older_load_overwrites_newer :
  let final := app (@run ExampleHost.host overtaking no_session) in
  currentConstituency final = Some kanchipuram /\
  allBooths final = @process_booths ExampleHost.host kanchipuram_booths /\
  allBooths final <> @process_booths ExampleHost.host sriperumbudur_booths.
Proof.
  cbv zeta. repeat split.
  intros E. apply (f_equal (@List.length booth)) in E. vm_compute in E.
  discriminate E.
Qed.

Lemma last_settled_load_wins_example :
  let final :=
    app (@run ExampleHost.host
           ([Call "kanchipuram.json"; Call "sriperumbudur.json";
             Settle 1 (Body sriperumbudur)] ++ [Settle 0 (Body kanchipuram)])
           no_session) in
  allBooths final = @process_booths ExampleHost.host kanchipuram_booths.
Proof.
  refine (proj1 (proj2
    (@last_settled_load_wins ExampleHost.host
       [Call "kanchipuram.json"; Call "sriperumbudur.json";
        Settle 1 (Body sriperumbudur)]
       no_session 0%nat (JStr "Kanchipuram") kanchipuram_booths (Some a_summary) _))).
  vm_compute. left. reflexivity.
Defined.

Lemma equator_booth_takes_no_part :
  (truthy_onum (lat (source equator_booth))
   && truthy_onum (lng (source equator_booth)))%bool = false /\
  @computeGeohashAreas ExampleHost.host
    (@process_booths ExampleHost.host sriperumbudur_booths ++ equator_booth :: [])
  = @computeGeohashAreas ExampleHost.host
      (@process_booths ExampleHost.host sriperumbudur_booths ++ []).
Proof.
  split; [vm_compute; reflexivity|].
  refine (proj1 (@falsy_coordinates_take_no_part ExampleHost.host equator_booth _)
                (@process_booths ExampleHost.host sriperumbudur_booths) []).
  vm_compute. reflexivity.
Defined.

Lemma booth_numbers_sort_both_ways :
  @sorted_booths ExampleHost.host {| column := "booth_no"; ascending := false |}
                 (@process_booths ExampleHost.host sriperumbudur_booths)
  = rev (@sorted_booths ExampleHost.host {| column := "booth_no"; ascending := true |}
                        (@process_booths ExampleHost.host sriperumbudur_booths)).
Proof.
  pose proof (@table_sort_stable_and_reversible ExampleHost.host "booth_no"
                (@process_booths ExampleHost.host sriperumbudur_booths))
    as (_ & reverses & transitive).
  apply reverses.
  - vm_compute. reflexivity.
  - apply transitive. vm_compute. reflexivity.
Defined.

(** The village options of Kanchipuram, and the booths a click on its
    first cell would select. *)
Example kanchipuram_villages_and_first_cell :
  populateVillageFilter (@process_booths ExampleHost.host kanchipuram_booths)
  = ["Kanchipuram"; "Uthiramerur"; "Walajabad"]%string /\
  map (@id)
      (filteredBooths
         (@handle ExampleHost.host (CellClick "tf28vk")
            (@handle ExampleHost.host (LoadSettled (Body kanchipuram)) initial_state)))
  = [0; 1]%nat.
Proof. vm_compute. split; reflexivity. Qed.

(** After two pages forward and a load that stops in [updateStats], the
    page number is 3 with 3 booths filtered: the page shown next is empty,
    and the next-page button is enabled and does nothing. *)
Example failed_load_leaves_the_page_behind :
  let s := @handle_all ExampleHost.host paging_then_failed_load initial_state in
  currentPage s = 3%Z /\
  List.length (filteredBooths s) = 3%nat /\
  fst (@renderTable ExampleHost.host s) = [] /\
  next_disabled (snd (@renderTable ExampleHost.host s)) = false /\
  @handle ExampleHost.host NextPageClick s = s.
Proof. vm_compute. repeat split. Qed.

(** [updateStats] returns on a summary that holds three numbers and on one
    without averages; it throws on averages that are [null], which pass
    the test against [undefined] and have no [toFixed], and without a
    summary. *)
Example updateStats_throws_on_null_averages :
  map (fun sm =>
         updateStats_throws
           (set_currentConstituency
              (Some {| constituency_name := JStr "Arani";
                       booths_of := Some sriperumbudur_booths;
                       summary := sm |})
              initial_state))
      [Some a_summary; Some no_averages; Some null_averages; None]
  = [false; false; true; true].
Proof. reflexivity. Qed.

(** A load of Sriperumbudur from the initial state keeps the page number in
    range. *)
Lemma page_in_range_after_a_load :
  page_in_range initial_state /\
  updateStats_throws
    (@loaded ExampleHost.host sriperumbudur sriperumbudur_booths initial_state)
  = false /\
  page_in_range
    (@handle ExampleHost.host (LoadSettled (Body sriperumbudur)) initial_state).
Proof.
  assert (P : page_in_range initial_state) by (split; vm_compute; discriminate).
  split; [exact P|]. split; [reflexivity|].
  apply (@page_stays_in_range ExampleHost.host
           (LoadSettled (Body sriperumbudur)) initial_state P).
  intros c raws Q B. inversion Q; subst c. inversion B; subst raws. reflexivity.
Defined.

(** On page 1 of the three pages of Cheyyar the previous-page button does
    nothing and the next-page button leads to page 2. *)
Lemma first_page_of_three :
  page_in_range
    (@handle ExampleHost.host (LoadSettled (Body cheyyar)) initial_state) /\
  @handle ExampleHost.host PrevPageClick
    (@handle ExampleHost.host (LoadSettled (Body cheyyar)) initial_state)
  = @handle ExampleHost.host (LoadSettled (Body cheyyar)) initial_state /\
  @handle ExampleHost.host NextPageClick
    (@handle ExampleHost.host (LoadSettled (Body cheyyar)) initial_state)
  = set_currentPage 2
      (@handle ExampleHost.host (LoadSettled (Body cheyyar)) initial_state).
Proof.
  set (s := @handle ExampleHost.host (LoadSettled (Body cheyyar)) initial_state).
  assert (P : page_in_range s) by (split; vm_compute; discriminate).
  destruct (@page_buttons_match_their_handlers ExampleHost.host s P)
    as (Prev & _ & _ & Next).
  split; [exact P|]. split.
  - apply Prev. vm_compute. reflexivity.
  - apply Next. vm_compute. reflexivity.
Defined.

(** The booths of Kanchipuram sorted by village, a column of text. *)
Lemma kanchipuram_by_village :
  (number_column "village" (@process_booths ExampleHost.host kanchipuram_booths)
   || text_column "village" (@process_booths ExampleHost.host kanchipuram_booths))%bool
  = true /\
  StronglySorted
    (fun a b =>
       JsArray.sorts_after
         (@compare_booths ExampleHost.host {| column := "village"; ascending := true |})
         a b = false)
    (@sorted_booths ExampleHost.host {| column := "village"; ascending := true |}
       (@process_booths ExampleHost.host kanchipuram_booths)).
Proof.
  split; [reflexivity|].
  apply (@rows_are_in_sort_order ExampleHost.host
           {| column := "village"; ascending := true |}
           (@process_booths ExampleHost.host kanchipuram_booths)).
  reflexivity.
Defined.

(** The five booths of Kanchipuram all get a booth number. *)
Lemma kanchipuram_booth_numbers :
  (Z.of_nat (List.length kanchipuram_booths) < 2 ^ 63)%Z /\
  number_column "booth_no" (@process_booths ExampleHost.host kanchipuram_booths)
  = true.
Proof.
  split; [reflexivity|].
  apply (@booth_numbers_are_numbers ExampleHost.host kanchipuram_booths).
  reflexivity.
Defined.

(** Kanchipuram has located booths: its load logs an error. *)
Lemma kanchipuram_load_logs_an_error :
  booths_of kanchipuram = Some kanchipuram_booths /\
  fst (@loadConstituency ExampleHost.host (Body kanchipuram) initial_state)
  = Some false.
Proof.
  split; [reflexivity|].
  rewrite (proj1 (@load_is_logged_only_without_coordinates ExampleHost.host
                    kanchipuram kanchipuram_booths initial_state eq_refl)).
  reflexivity.
Defined.

End Checks.
